(** * subsample_undistorted.py: shot grouping, shot selection and pose filtering

    A shallow embedding of [src/subsample_undistorted.py] and the properties
    of its functions [get_shot_number], [group_by_shot], [filter_images_txt]
    and [main].

    Modelling conventions.
    - A Python [str] is a [string]; a character is a code point below 256.
    - A [pathlib.Path] is the list of its parts.
    - A [dict] is an association list in insertion order, a [set] of strings
      a [gset string].
    - The file system is a finite map from paths to nodes; a text file holds
      the text that Python's text layer delivers (newline translation and
      decoding are not modelled).
    - [print] appends a structured message to the console trace. *)

From Stdlib Require Import ZArith Ascii.
From stdpp Require Import gmap strings list sorting.

(** ** Python string primitives *)

Module Str.

(** [str.isspace] on one character: the Unicode white space below 256. *)
Definition isspace (c : ascii) : bool :=
  let n := N_of_ascii c in
  ((9 <=? n) && (n <=? 13) || (28 <=? n) && (n <=? 32)
   || (n =? 133) || (n =? 160))%N.

(** [s.startswith(c)] for a one-character prefix. *)
Definition startswith (c : ascii) (s : string) : bool :=
  match s with
  | String a _ => bool_decide (a = c)
  | EmptyString => false
  end.

(** [c in s]. *)
Fixpoint contains (c : ascii) (s : string) : bool :=
  match s with
  | EmptyString => false
  | String a s' => bool_decide (a = c) || contains c s'
  end.

Fixpoint lstrip (s : string) : string :=
  match s with
  | String a s' => if isspace a then lstrip s' else s
  | EmptyString => EmptyString
  end.

Fixpoint rstrip (s : string) : string :=
  match s with
  | String a s' =>
      match rstrip s' with
      | EmptyString => if isspace a then EmptyString else String a EmptyString
      | r => String a r
      end
  | EmptyString => EmptyString
  end.

(** [s.strip()] *)
Definition strip (s : string) : string := rstrip (lstrip s).

(** [s.split()]: the maximal runs of characters that are not white space.
    [cur] is the run being read. *)
Fixpoint split_go (cur : string) (s : string) : list string :=
  match s with
  | EmptyString => if decide (cur = "") then [] else [cur]
  | String a s' =>
      if isspace a
      then (if decide (cur = "") then [] else [cur]) ++ split_go "" s'
      else split_go (cur +:+ String a "") s'
  end.
Definition split : string → list string := split_go "".

(** [s.rpartition(c)] when [c] occurs in [s]: the text before and after
    the last occurrence; [None] when [c] does not occur. *)
Fixpoint rpartition (c : ascii) (s : string) : option (string * string) :=
  match s with
  | EmptyString => None
  | String a s' =>
      match rpartition c s' with
      | Some (h, t) => Some (String a h, t)
      | None => if decide (a = c) then Some ("", s') else None
      end
  end.

(** [s.rsplit(c, 1)]: at most one cut, at the last occurrence of [c]. *)
Definition rsplit1 (c : ascii) (s : string) : list string :=
  match rpartition c s with
  | Some (h, t) => [h; t]
  | None => [s]
  end.

(** [s.split(c)] for a one-character separator. *)
Fixpoint split_on_go (c : ascii) (cur : string) (s : string) : list string :=
  match s with
  | EmptyString => [cur]
  | String a s' =>
      if decide (a = c) then cur :: split_on_go c "" s'
      else split_on_go c (cur +:+ String a "") s'
  end.
Definition split_on (c : ascii) : string → list string := split_on_go c "".

(** [sep.join(l)] *)
Fixpoint join (sep : string) (l : list string) : string :=
  match l with
  | [] => ""
  | [x] => x
  | x :: l' => x +:+ sep +:+ join sep l'
  end.

(** [s.endswith(suffix)] *)
Definition endswith (suffix s : string) : bool :=
  bool_decide (String.substring (String.length s - String.length suffix)
                 (String.length suffix) s = suffix)
  && bool_decide (String.length suffix ≤ String.length s)%nat.

(** [sorted] on strings: ascending in the code-point order. *)
Definition sorted (l : list string) : list string := merge_sort String.le l.

End Str.

(** ** [os.path] on POSIX *)

Module OsPath.

(** [posixpath.basename]: the text after the last slash. *)
Definition basename (p : string) : string :=
  match Str.rpartition "/" p with
  | Some (_, b) => b
  | None => p
  end.

Fixpoint all_dots (s : string) : bool :=
  match s with
  | EmptyString => true
  | String a s' => bool_decide (a = "."%char) && all_dots s'
  end.

(** [posixpath.splitext]: cut at the last dot of the last component, unless
    only dots (or nothing) precede it there. *)
Definition splitext (p : string) : string * string :=
  let '(dir, base) :=
    match Str.rpartition "/" p with
    | Some (d, b) => (d +:+ "/", b)
    | None => ("", p)
    end in
  match Str.rpartition "." base with
  | Some (stem, e) =>
      if all_dots stem then (p, "") else (dir +:+ stem, "." +:+ e)
  | None => (p, "")
  end.

End OsPath.

(** ** [get_shot_number] *)

Definition get_shot_number (filename : string) : string :=
  let basename := OsPath.basename filename in
  let name_no_ext := (OsPath.splitext basename).1 in
  if Str.contains "_" name_no_ext
  then default "" (head (Str.rsplit1 "_" name_no_ext))
  else name_no_ext.

(** ** Exceptions and results *)

Inductive exn :=
  | IndexError | KeyError | ValueError | ZeroDivisionError
  | FileNotFoundError | FileExistsError | NotADirectoryError
  | IsADirectoryError | SameFileError.

Inductive result (A : Type) :=
  | Ok (a : A)
  | Raise (e : exn).
Arguments Ok {A} a.
Arguments Raise {A} e.

Global Instance result_ret : MRet result := @Ok.
Global Instance result_bind : MBind result := λ A B k r,
  match r with
  | Ok a => k a
  | Raise e => Raise e
  end.

(** [l[i]] for [0 <= i]: out of range raises [IndexError]. *)
Definition index {A} (l : list A) (i : nat) : result A :=
  match l !! i with
  | Some x => Ok x
  | None => Raise IndexError
  end.

(** ** [filter_images_txt]: the loop over the lines *)

Definition LF : ascii := "010"%char.
Definition nl : string := String LF "".

(** The loop variables: the index [i], the strings passed to [fout.write]
    so far, and [kept]. *)
Record filter_state := FilterState {
  f_i : nat;
  f_written : list string;
  f_kept : nat
}.

(** One iteration of the [while] body, entered with [i < len(lines)]. *)
Definition filter_body (lines : list string) (selected_images : gset string)
    (st : filter_state) : result filter_state :=
  let i := f_i st in
  line ← index lines i;
  if Str.startswith "#" line then
    (* Preserve comments *)
    Ok (FilterState (i + 1) (f_written st ++ [line]) (f_kept st))
  else if decide (Str.strip line = "") then
    (* Skip empty lines *)
    Ok (FilterState (i + 1) (f_written st) (f_kept st))
  else
    (* Parse image line *)
    let parts := Str.split (Str.strip line) in
    '(written, kept) ←
      (if decide (10 ≤ length parts) then
         img_name ← index parts 9;
         (* Check if this image is in our selection *)
         if decide (img_name ∈ selected_images) then
           let written := f_written st ++ [line] in
           (* Write the 2D points line too *)
           written ←
             (if decide (i + 1 < length lines) then
                next ← index lines (i + 1);
                Ok (written ++ [next])
              else Ok written);
           Ok (written, f_kept st + 1)
         else Ok (f_written st, f_kept st)
       else Ok (f_written st, f_kept st));
    (* Each image has 2 lines *)
    Ok (FilterState (i + 2) written kept).

(** [while i < len(lines)]: every iteration advances [i], so
    [len(lines) - i] iterations are enough ([filter_loop_fuel]). *)
Fixpoint filter_loop (fuel : nat) (lines : list string)
    (selected_images : gset string) (st : filter_state) : result filter_state :=
  if decide (f_i st < length lines) then
    match fuel with
    | 0 => Ok st
    | S fuel' =>
        st' ← filter_body lines selected_images st;
        filter_loop fuel' lines selected_images st'
    end
  else Ok st.

(** The body of [filter_images_txt] between [readlines] and [return kept]:
    the strings written to [fout], in order, and the count. *)
Definition filter_lines (lines : list string) (selected_images : gset string)
    : result (list string * nat) :=
  st ← filter_loop (length lines) lines selected_images (FilterState 0 [] 0);
  Ok (f_written st, f_kept st).

(** The loop with the fuel it needs at the state [st]. *)
Definition filter_run (lines : list string) (selected_images : gset string)
    (st : filter_state) : result filter_state :=
  filter_loop (length lines - f_i st) lines selected_images st.

(** [fin.readlines()]: the text cut after every line feed. *)
Fixpoint readlines_go (cur : string) (s : string) : list string :=
  match s with
  | EmptyString => if decide (cur = "") then [] else [cur]
  | String a s' =>
      if decide (a = LF) then (cur +:+ nl) :: readlines_go "" s'
      else readlines_go (cur +:+ String a "") s'
  end.
Definition readlines : string → list string := readlines_go "".

(** What a sequence of [write] calls leaves in the file. *)
Definition written_text (chunks : list string) : string :=
  foldr String.append "" chunks.

(** ** [pathlib.Path] *)

Abbreviation path := (list string).

Module Path.

(** [p.name] *)
Definition name (p : path) : string := default "" (last p).

(** [p.parent] *)
Definition parent (p : path) : path := removelast p.

(** [Path(s)] for a relative [s]: the parts between slashes, without the
    empty ones and the single dots. *)
Definition parse (s : string) : path :=
  filter (λ c, c ≠ "" ∧ c ≠ ".") (Str.split_on "/" s).

(** [p / s] for a relative [s]. *)
Definition joinpath (p : path) (s : string) : path := p ++ parse s.

(** [str(p)] for a relative [p]. *)
Definition str (p : path) : string :=
  match p with
  | [] => "."
  | _ => Str.join "/" p
  end.

(** [p.relative_to(other)] *)
Definition relative_to (p other : path) : result path :=
  if decide (other `prefix_of` p) then Ok (drop (length other) p)
  else Raise ValueError.

End Path.

(** A part of a path as [pathlib] keeps it: not empty, not a single dot, and
    without a slash. *)
Definition wf_part (c : string) : Prop :=
  c ≠ "" ∧ c ≠ "." ∧ Str.contains "/" c = false.

Global Instance wf_part_dec c : Decision (wf_part c).
Proof. unfold wf_part. apply _. Defined.

(** The path of an image below [images_dir], as [main] writes it:
    [str(img_path.relative_to(images_dir))]. *)
Definition rel_str (images_dir img_path : path) : string :=
  Path.str (drop (length images_dir) img_path).

(** ** [dict] in insertion order *)

Module Dict.
Section dict.
Context {V : Type}.

Definition t := list (string * V).

(** [d.get(k)] *)
Fixpoint get (d : t) (k : string) : option V :=
  match d with
  | [] => None
  | (k', v) :: d' => if decide (k' = k) then Some v else get d' k
  end.

(** [k in d] *)
Definition mem (d : t) (k : string) : bool := bool_decide (is_Some (get d k)).

(** [d[k] = v]: an existing key keeps its place, a new one goes last. *)
Fixpoint set (d : t) (k : string) (v : V) : t :=
  match d with
  | [] => [(k, v)]
  | (k', v') :: d' =>
      if decide (k' = k) then (k', v) :: d' else (k', v') :: set d' k v
  end.

(** [d[k]] *)
Definition getitem (d : t) (k : string) : result V :=
  match get d k with
  | Some v => Ok v
  | None => Raise KeyError
  end.

(** [d.keys()] *)
Definition keys (d : t) : list string := d.*1.

End dict.
Arguments t : clear implicits.
End Dict.

(** ** [group_by_shot] *)

(** The shot id of an image. *)
Abbreviation shot_of img_path := (get_shot_number (Path.name img_path)).

(** One iteration of the loop over [image_files]. *)
Definition group_step (shots : Dict.t (list path)) (img_path : path)
    : Dict.t (list path) :=
  let shot_num := get_shot_number (Path.name img_path) in
  let shots :=
    if Dict.mem shots shot_num then shots else Dict.set shots shot_num [] in
  Dict.set shots shot_num (default [] (Dict.get shots shot_num) ++ [img_path]).

Definition group_by_shot (image_files : list path) : Dict.t (list path) :=
  foldl group_step [] image_files.

(** ** Slicing and shot selection *)

(** [l[start::step]] for Python integers [start] and [step]: the indices are
    clipped as [slice.indices] does and the step 0 raises [ValueError]. *)
Definition slice_from_step {A} (l : list A) (start step : Z) : result (list A) :=
  let len := Z.of_nat (length l) in
  if decide (step = 0)%Z then Raise ValueError
  else if decide (0 < step)%Z then
    let start :=
      if decide (start < 0)%Z then Z.max (start + len) 0 else Z.min start len in
    let stop := len in
    let count :=
      if decide (start < stop)%Z then ((stop - start - 1) `div` step + 1)%Z
      else 0%Z in
    Ok (omap (λ k, l !! Z.to_nat (start + k * step)) (seqZ 0 count))
  else
    let start :=
      if decide (start < 0)%Z
      then (if decide (start + len < 0)%Z then -1 else start + len)%Z
      else (if decide (len ≤ start)%Z then len - 1 else start)%Z in
    let stop := (-1)%Z in
    let count :=
      if decide (stop < start)%Z then ((start - stop - 1) `div` (- step) + 1)%Z
      else 0%Z in
    Ok (omap (λ k, l !! Z.to_nat (start + k * step)) (seqZ 0 count)).

(** The number of indices [O], [O + N], ... below [len]. *)
Definition slice_count (O N len : Z) : Z :=
  if decide (O < len)%Z then ((len - O - 1) `div` N + 1)%Z else 0%Z.

(** [sorted(shots.keys())[args.offset::args.keep_every]], as a function of the
    shot ids in the order the dictionary lists them. *)
Definition select_shots (shot_ids : list string) (offset keep_every : Z)
    : result (list string) :=
  slice_from_step (Str.sorted shot_ids) offset keep_every.

(** The selection in the words of the specification: of the ids sorted
    ascending, those at the indices [O], [O + N], [O + 2N], ... *)
Definition every_nth_from {A} (O N : nat) (l : list A) : list A :=
  (filter (λ ix, O ≤ ix.1 ∧ (ix.1 - O) `mod` N = 0) (imap pair l)).*2.

(** ** The selected images (lines 174-181 of [main]) *)

(** The inner loop: the images of one shot. *)
Definition add_shot_images (images_dir : path)
    (acc : gset string * gset string) (imgs : list path)
    : result (gset string * gset string) :=
  foldl (λ racc img_path,
      '(selected_images_rel, selected_images_names) ← racc;
      rel ← Path.relative_to img_path images_dir;
      let rel_path := Path.str rel in
      Ok ({[rel_path]} ∪ selected_images_rel,
          {[Path.name img_path]} ∪ selected_images_names))
    (Ok acc) imgs.

(** The outer loop: [selected_images_rel] and [selected_images_names]. *)
Definition selected_images (images_dir : path) (shots : Dict.t (list path))
    (selected_shots : list string) : result (gset string * gset string) :=
  foldl (λ racc shot,
      acc ← racc;
      imgs ← Dict.getitem shots shot;
      add_shot_images images_dir acc imgs)
    (Ok (∅, ∅)) selected_shots.

(** ** The file system *)

Inductive node :=
  | File (content : string)
  | Dir.

Global Instance node_eq_dec : EqDecision node.
Proof. solve_decision. Defined.

Module Fs.

(** The root (the empty path) always exists and is a directory. *)
Definition exists_ (fs : gmap path node) (p : path) : bool :=
  bool_decide (p = []) || bool_decide (is_Some (fs !! p)).

Definition is_dir (fs : gmap path node) (p : path) : bool :=
  bool_decide (p = []) || bool_decide (fs !! p = Some Dir).

(** [p.mkdir(parents=True, exist_ok=True)], from the root down: [done] is
    known to be a directory, [todo] are the parts still to visit. *)
Fixpoint mkdir_go (fs : gmap path node) (done : path) (todo : list string)
    : result (gmap path node) :=
  match todo with
  | [] => Ok fs
  | c :: todo' =>
      let q := done ++ [c] in
      match fs !! q with
      | Some Dir => mkdir_go fs q todo'
      | Some (File _) =>
          Raise (if todo' is [] then FileExistsError else NotADirectoryError)
      | None => mkdir_go (<[q:=Dir]> fs) q todo'
      end
  end.
Definition mkdir_parents (fs : gmap path node) (p : path)
    : result (gmap path node) :=
  mkdir_go fs [] p.

(** [shutil.copy2(src, dst)]: a directory [dst] stands for the file of the
    same name inside it; the contents are copied (metadata is not modelled). *)
Definition copy2 (fs : gmap path node) (src dst : path)
    : result (gmap path node) :=
  let dst := if is_dir fs dst then dst ++ [Path.name src] else dst in
  if decide (src = dst) then Raise SameFileError
  else match fs !! src with
       | Some (File content) =>
           if is_dir fs dst then Raise IsADirectoryError
           else if is_dir fs (Path.parent dst)
                then Ok (<[dst:=File content]> fs)
                else Raise FileNotFoundError
       | Some Dir => Raise IsADirectoryError
       | None => Raise FileNotFoundError
       end.

(** [open(p, 'r')] followed by a read of the whole text. *)
Definition read_text (fs : gmap path node) (p : path) : result string :=
  match fs !! p with
  | Some (File content) => Ok content
  | Some Dir => Raise IsADirectoryError
  | None => if decide (p = []) then Raise IsADirectoryError
            else Raise FileNotFoundError
  end.

(** [open(p, 'w')] and the text the file holds when it is closed. *)
Definition write_text (fs : gmap path node) (p : path) (content : string)
    : result (gmap path node) :=
  if is_dir fs p then Raise IsADirectoryError
  else if is_dir fs (Path.parent p) then Ok (<[p:=File content]> fs)
  else Raise FileNotFoundError.

End Fs.

(** ** The console *)

(** One constructor for each [print] call of [main], with its arguments. *)
Inductive message :=
  | ErrSourceMissing (source : path)
      (* ERROR: Source path does not exist: {source} *)
  | ErrImagesDirMissing (images_dir : path)
      (* ERROR: Images directory not found: {images_dir} *)
  | MsgScanning (images_dir : path)
      (* Scanning images in: {images_dir} *)
  | ErrNoImages
      (* ERROR: No images found *)
  | MsgStatistics
      (* Dataset statistics: *)
  | MsgTotalImages (n : nat)
  | MsgTotalShots (n : nat)
  | MsgImagesPerShot (n : nat)
  | MsgSubsampling (keep_every : Z)
      (* Subsampling (keep every {keep_every}th shot): *)
  | MsgSelectedShots (n : nat)
  | MsgSelectedImages (n : nat)
  | MsgCopyingImages (output_images : path)
  | MsgCopiedImages (n : nat)
  | WarnNoSparse (sparse : path)
      (* WARNING: No sparse directory found at {source / 'sparse'} *)
  | MsgNeedColmap
      (* You will need to run COLMAP on the subsampled images: *)
  | MsgConvertCommand (output : path)
      (* python convert.py -s {output} *)
  | MsgProcessing (sparse_dir : path)
      (* Processing COLMAP data from: {sparse_dir} *)
  | MsgCopied (file : string)
      (* Copied {file} *)
  | MsgFiltered (kept : nat)
      (* Filtered images.txt: kept {kept} images *)
  | WarnImagesBin
      (* WARNING: images.bin found but filtering not implemented *)
  | WarnRerunColmap
      (* You may need to run COLMAP on the subsampled images *)
  | MsgSummary (output : path) (images : nat) (keep_every : Z).
      (* the closing banner, the output path, the image count with the
         percentage 100/keep_every, and the two training commands *)

(** ** The program state and its monad *)

Record world := World {
  w_fs : gmap path node;
  w_console : list message
}.

(** How a run ends early: [sys.exit(code)] or an exception nobody catches. *)
Inductive abort :=
  | SysExit (code : Z)
  | Uncaught (e : exn).

Inductive outcome (A : Type) :=
  | Done (a : A)
  | Abort (a : abort).
Arguments Done {A} a.
Arguments Abort {A} a.

(** A command returns its outcome and the state it leaves, also when it
    aborts: what was written before stays written. *)
Definition M (A : Type) : Type := world → outcome A * world.

Global Instance M_ret : MRet M := λ A a w, (Done a, w).
Global Instance M_bind : MBind M := λ A B k m w,
  match m w with
  | (Done a, w') => k a w'
  | (Abort e, w') => (Abort e, w')
  end.

Definition print (m : message) : M unit :=
  λ w, (Done (), World (w_fs w) (w_console w ++ [m])).

Definition sys_exit {A} (code : Z) : M A :=
  λ w, (Abort (SysExit code), w).

(** A pure computation that may raise. *)
Definition lift {A} (r : result A) : M A :=
  λ w, match r with
       | Ok a => (Done a, w)
       | Raise e => (Abort (Uncaught e), w)
       end.

(** A read of the file system. *)
Definition ask {A} (f : gmap path node → A) : M A :=
  λ w, (Done (f (w_fs w)), w).

(** A file-system operation that may raise. *)
Definition update (f : gmap path node → result (gmap path node)) : M unit :=
  λ w, match f (w_fs w) with
       | Ok fs' => (Done (), World fs' (w_console w))
       | Raise e => (Abort (Uncaught e), w)
       end.

(** [for x in l: body(x)] *)
Fixpoint for_each {A} (l : list A) (body : A → M unit) : M unit :=
  match l with
  | [] => mret ()
  | x :: l' => body x ;; for_each l' body
  end.

(** ** [filter_images_txt]

    [src_path] is opened for reading, then [dst_path] is opened for writing
    (and so emptied), then the lines are read: when both are the same file
    the loop sees no line. The destination holds what was written when the
    [with] block is left. *)
Definition filter_images_txt (src_path dst_path : path)
    (selected_images : gset string) : M nat :=
  _ ← (fs ← ask id; lift (Fs.read_text fs src_path));
  update (λ fs, Fs.write_text fs dst_path "");;
  content ← (fs ← ask id; lift (Fs.read_text fs src_path));
  let lines := readlines content in
  '(written, kept) ← lift (filter_lines lines selected_images);
  update (λ fs, Fs.write_text fs dst_path (written_text written));;
  mret kept.

(** ** [find_images] and [main] *)

Record Args := {
  source : path;       (* Path(args.source) *)
  output : path;       (* Path(args.output) *)
  keep_every : Z;      (* -n, default 4 *)
  offset : Z           (* --offset, default 0 *)
}.

(** The patterns of [find_images], without their star. *)
Definition image_extensions : list string :=
  [".png"; ".jpg"; ".jpeg"; ".PNG"; ".JPG"; ".JPEG"].

Section program.

(** The order in which a directory walk lists what it finds is the
    platform's: [scan_order] rearranges the paths found. *)
Variable scan_order : list path → list path.

(** [Path(dir).rglob('*' + suffix)]: everything below [dir] whose name ends
    in [suffix]. *)
Definition rglob (fs : gmap path node) (dir : path) (suffix : string)
    : list path :=
  scan_order
    (filter (λ p, dir `prefix_of` p ∧ p ≠ dir
                  ∧ Str.endswith suffix (Path.name p) = true)
       (map_to_list fs).*1).

Definition find_images (fs : gmap path node) (images_dir : path) : list path :=
  foldl (λ image_files ext, image_files ++ rglob fs images_dir ext) []
    image_extensions.

(** The loop over the camera files: the first one that exists is copied. *)
Fixpoint copy_cameras (sparse_dir output_sparse : path) (names : list string)
    : M unit :=
  match names with
  | [] => mret ()
  | cameras_file :: names' =>
      let src_cameras := Path.joinpath sparse_dir cameras_file in
      found ← ask (λ fs, Fs.exists_ fs src_cameras);
      if found : bool then
        update (λ fs, Fs.copy2 fs src_cameras
                        (Path.joinpath output_sparse cameras_file));;
        print (MsgCopied cameras_file)
      else copy_cameras sparse_dir output_sparse names'
  end.

(** The loop over the point files: every one that exists is copied. *)
Definition copy_points (sparse_dir output_sparse : path) : M unit :=
  for_each ["points3D.txt"; "points3D.bin"; "points3D.ply"] (λ points_file,
    let src_points := Path.joinpath sparse_dir points_file in
    found ← ask (λ fs, Fs.exists_ fs src_points);
    if found : bool then
      update (λ fs, Fs.copy2 fs src_points
                      (Path.joinpath output_sparse points_file));;
      print (MsgCopied points_file)
    else mret ()).

(** Lines 205-254 of [main]: the sparse reconstruction in [sparse_dir]. *)
Definition process_sparse_dir (args : Args)
    (selected_images_rel selected_images_names : gset string)
    (sparse_dir : path) : M unit :=
  let source := source args in
  let output := output args in
  let output_sparse := Path.joinpath (Path.joinpath output "sparse") "0" in
  sparse_exists ← ask (λ fs, Fs.exists_ fs sparse_dir);
  if negb sparse_exists then
    print (WarnNoSparse (Path.joinpath source "sparse"));;
    print MsgNeedColmap;;
    print (MsgConvertCommand output)
    (* return *)
  else
  print (MsgProcessing sparse_dir);;
  (* Copy cameras (unchanged) *)
  copy_cameras sparse_dir output_sparse ["cameras.txt"; "cameras.bin"];;
  (* Filter images.txt or images.bin *)
  let images_txt := Path.joinpath sparse_dir "images.txt" in
  let images_bin := Path.joinpath sparse_dir "images.bin" in
  images_txt_exists ← ask (λ fs, Fs.exists_ fs images_txt);
  (if images_txt_exists : bool then
     kept ← filter_images_txt images_txt
               (Path.joinpath output_sparse "images.txt")
               (selected_images_rel ∪ selected_images_names);
     print (MsgFiltered kept)
   else
     images_bin_exists ← ask (λ fs, Fs.exists_ fs images_bin);
     if images_bin_exists : bool then
       print WarnImagesBin;;
       print WarnRerunColmap
     else mret ());;
  (* Copy points3D *)
  copy_points sparse_dir output_sparse;;
  (* Summary *)
  lift (if decide (keep_every args = 0%Z) then Raise ZeroDivisionError
        else Ok ());;
  print (MsgSummary output (size selected_images_rel) (keep_every args)).

(** Lines 200-254 of [main]: the sparse reconstruction, once the images are
    copied. *)
Definition process_colmap (args : Args)
    (selected_images_rel selected_images_names : gset string) : M unit :=
  let source := source args in
  (* Handle COLMAP sparse data *)
  sparse0_exists ←
    ask (λ fs, Fs.exists_ fs (Path.joinpath (Path.joinpath source "sparse") "0"));
  let sparse_dir :=
    if sparse0_exists : bool
    then Path.joinpath (Path.joinpath source "sparse") "0"
    else Path.joinpath source "sparse" in
  process_sparse_dir args selected_images_rel selected_images_names sparse_dir.

(** The loop of lines 193-197: every selected image is copied. *)
Definition copy_images (images_dir output_images : path)
    (selected_images_rel : gset string) : M unit :=
  for_each (Str.sorted (elements selected_images_rel)) (λ img_rel,
    let src_img := Path.joinpath images_dir img_rel in
    let dst_img := Path.joinpath output_images img_rel in
    update (λ fs, Fs.mkdir_parents fs (Path.parent dst_img));;
    update (λ fs, Fs.copy2 fs src_img dst_img)).

Definition main (args : Args) : M unit :=
  let source := source args in
  let output := output args in
  (* Validate source *)
  source_exists ← ask (λ fs, Fs.exists_ fs source);
  if negb source_exists then
    print (ErrSourceMissing source);; sys_exit 1
  else
  let images_dir := Path.joinpath source "images" in
  images_dir_exists ← ask (λ fs, Fs.exists_ fs images_dir);
  if negb images_dir_exists then
    print (ErrImagesDirMissing images_dir);; sys_exit 1
  else
  (* Find and group images *)
  print (MsgScanning images_dir);;
  image_files ← ask (λ fs, find_images fs images_dir);
  if decide (image_files = []) then
    print ErrNoImages;; sys_exit 1
  else
  let shots := group_by_shot image_files in
  let sorted_shots := Str.sorted (Dict.keys shots) in
  (* Select shots *)
  selected_shots ←
    lift (slice_from_step sorted_shots (offset args) (keep_every args));
  print MsgStatistics;;
  print (MsgTotalImages (length image_files));;
  print (MsgTotalShots (length sorted_shots));;
  per_shot ← lift (if decide (length sorted_shots = 0) then Raise ZeroDivisionError
                   else Ok (length image_files `div` length sorted_shots));
  print (MsgImagesPerShot per_shot);;
  print (MsgSubsampling (keep_every args));;
  print (MsgSelectedShots (length selected_shots));;
  (* Build list of selected image paths (relative to images_dir) *)
  '(selected_images_rel, selected_images_names) ←
    lift (selected_images images_dir shots selected_shots);
  print (MsgSelectedImages (size selected_images_rel));;
  (* Create output directories *)
  let output_images := Path.joinpath output "images" in
  let output_sparse := Path.joinpath (Path.joinpath output "sparse") "0" in
  update (λ fs, Fs.mkdir_parents fs output_images);;
  update (λ fs, Fs.mkdir_parents fs output_sparse);;
  (* Copy selected images *)
  print (MsgCopyingImages output_images);;
  copy_images images_dir output_images selected_images_rel;;
  print (MsgCopiedImages (size selected_images_rel));;
  process_colmap args selected_images_rel selected_images_names.

End program.

(** ** The pose file as the specification describes it

    A pose file is a sequence of comment lines, blank lines and entries of
    two lines, a header and its continuation. *)

Inductive item :=
  | Comment (line : string)
  | Blank (line : string)
  | Entry (header continuation : string).

Definition render_item (it : item) : list string :=
  match it with
  | Comment line | Blank line => [line]
  | Entry header continuation => [header; continuation]
  end.

(** The lines of the file. *)
Definition render (items : list item) : list string :=
  concat (render_item <$> items).

(** The NAME of a header: its 10th field between white space. *)
Definition NAME (header : string) : option string := Str.split header !! 9.

(** What tells the three kinds of lines apart: a comment starts with the
    marker, a blank line holds white space only, a header is neither. The
    continuation of an entry is any line at all. *)
Definition wf_item (it : item) : Prop :=
  match it with
  | Comment line => Str.startswith "#" line = true
  | Blank line => Str.startswith "#" line = false ∧ Str.strip line = ""
  | Entry header _ => Str.startswith "#" header = false ∧ Str.strip header ≠ ""
  end.

(** An entry whose NAME is in the retained set. *)
Definition retained (selected_images : gset string) (it : item) : bool :=
  match it with
  | Entry header _ =>
      match NAME header with
      | Some name => bool_decide (name ∈ selected_images)
      | None => false
      end
  | _ => false
  end.

Definition is_comment (it : item) : bool :=
  match it with Comment _ => true | _ => false end.

Definition is_entry (it : item) : bool :=
  match it with Entry _ _ => true | _ => false end.

Definition is_blank (it : item) : bool :=
  match it with Blank _ => true | _ => false end.

(** What the filtered file is to hold: the comments and the retained entries,
    in their order. *)
Definition filtered (selected_images : gset string) (items : list item)
    : list item :=
  filter (λ it, is_comment it || retained selected_images it) items.

(** ** Datasets a run can work on *)

(** The file system is a tree: whatever exists has parts as [pathlib] keeps
    them and lies in a directory. *)
Definition tree (fs : gmap path node) : Prop :=
  ∀ p n, fs !! p = Some n →
    Forall wf_part p ∧ Fs.is_dir fs (Path.parent p) = true.

(** Nothing exists at [output] or below it, and no file lies on the way. *)
Definition fresh (fs : gmap path node) (output : path) : Prop :=
  Forall wf_part output
  ∧ (∀ p, output `prefix_of` p → fs !! p = None)
  ∧ (∀ p content, p `prefix_of` output → fs !! p ≠ Some (File content)).

(** The files of the reconstruction that are copied as they are. *)
Definition aux_files : list string :=
  ["cameras.txt"; "cameras.bin"; "points3D.txt"; "points3D.bin"; "points3D.ply"].

(** The names the loops of [main] over the cameras and over the points go
    through, in their order. *)
Definition camera_files : list string := ["cameras.txt"; "cameras.bin"].
Definition points_files : list string :=
  ["points3D.txt"; "points3D.bin"; "points3D.ply"].

(** The directories of a run. *)
Abbreviation src_images args := (source args ++ ["images"]).
Abbreviation out_images args := (output args ++ ["images"]).
Abbreviation out_sparse args := (output args ++ ["sparse"; "0"]).

(** The directory [main] takes the reconstruction from. *)
Definition sparse_dir (fs : gmap path node) (args : Args) : path :=
  if Fs.exists_ fs (source args ++ ["sparse"; "0"])
  then source args ++ ["sparse"; "0"]
  else source args ++ ["sparse"].

(** A dataset [main] can work on without a failing copy: the walk lists
    what there is, the file system is a tree, the output is new and not
    inside the source, there are images, the images are files and none of
    the auxiliary files is a directory. *)
Record dataset (scan_order : list path → list path) (fs : gmap path node)
    (args : Args) : Prop := Dataset {
  ds_scan : ∀ l, scan_order l ≡ₚ l;
  ds_tree : tree fs;
  ds_fresh : fresh fs (output args);
  ds_outside : ¬ source args `prefix_of` output args;
  ds_images : find_images scan_order fs (source args ++ ["images"]) ≠ [];
  ds_files : ∀ p, p ∈ find_images scan_order fs (source args ++ ["images"]) →
               ∃ content, fs !! p = Some (File content);
  ds_aux : ∀ f, f ∈ aux_files → fs !! (sparse_dir fs args ++ [f]) ≠ Some Dir
}.

(** What holds while the images are copied from [images_dir] of [fs0] to
    [output_images]: [fs1] is the state before the first copy, [rel] the
    selected paths. Outside the output images nothing changes; what is in
    them is there in the source images; the files are selected ones. *)
Definition copying (fs0 fs1 : gmap path node) (images_dir output_images : path)
    (rel : gset string) (fs : gmap path node) : Prop :=
  (∀ q, ¬ output_images `prefix_of` q → fs !! q = fs1 !! q)
  ∧ fs !! output_images = Some Dir
  ∧ (∀ r n, r ≠ [] → fs !! (output_images ++ r) = Some n →
       fs0 !! (images_dir ++ r) = Some n)
  ∧ (∀ r content, fs !! (output_images ++ r) = Some (File content) →
       Path.str r ∈ rel).

(** What holds while the auxiliary files are copied: the source is as in
    [fs0], the output directory of the reconstruction is there and holds no
    directory. *)
Definition aux_frame (fs0 : gmap path node) (args : Args)
    (fs : gmap path node) : Prop :=
  (∀ q, source args `prefix_of` q → fs !! q = fs0 !! q)
  ∧ fs !! out_sparse args = Some Dir
  ∧ (∀ f, fs !! (out_sparse args ++ [f]) ≠ Some Dir).

(** A message about a copied auxiliary file. *)
Definition is_copied (m : message) : Prop := ∃ file, m = MsgCopied file.

(** What [main] has printed when the images are copied. *)
Definition copy_report (args : Args) (image_files : list path)
    (selected_shots : list string) (rel : gset string) : list message :=
  let sorted_shots := Str.sorted (Dict.keys (group_by_shot image_files)) in
  [ MsgScanning (src_images args); MsgStatistics;
    MsgTotalImages (length image_files); MsgTotalShots (length sorted_shots);
    MsgImagesPerShot (length image_files `div` length sorted_shots);
    MsgSubsampling (keep_every args); MsgSelectedShots (length selected_shots);
    MsgSelectedImages (size rel); MsgCopyingImages (out_images args);
    MsgCopiedImages (size rel) ].

(** ** A small dataset

    Two shots of two lenses and one of a single lens, with the pose file of
    the five images, a comment and a blank line. *)

Module Example.

Definition header (image_id name : string) : string :=
  image_id +:+ " 0.5 0.5 0.5 0.5 1.0 2.0 3.0 1 " +:+ name +:+ nl.

Definition points : string := "10.5 20.5 -1 30.5 40.5 7" +:+ nl.

Definition items : list item :=
  [ Comment ("# Image list with two lines of data per image:" +:+ nl);
    Entry (header "1" "000001_0.png") points;
    Entry (header "2" "000001_1.png") points;
    Blank nl;
    Entry (header "3" "000002_0.png") points;
    Entry (header "4" "000002_1.png") nl;
    Comment ("# last" +:+ nl);
    Entry (header "5" "000003_0.png") points ].

Definition images_txt : string := written_text (render items).

Definition image_names : list string :=
  ["000001_0.png"; "000001_1.png"; "000002_0.png"; "000002_1.png";
   "000003_0.png"].

Definition images : list (path * node) :=
  (λ name, (["data"; "images"; name], File ("pixels of " +:+ name)))
    <$> image_names.

(** The source with the text pose file. *)
Definition fs_txt : gmap path node :=
  list_to_map
    ([ (["data"], Dir); (["data"; "images"], Dir);
       (["data"; "sparse"], Dir); (["data"; "sparse"; "0"], Dir);
       (["data"; "sparse"; "0"; "cameras.bin"], File "cameras");
       (["data"; "sparse"; "0"; "images.txt"], File images_txt);
       (["data"; "sparse"; "0"; "points3D.ply"], File "points") ]
     ++ images).

(** The source with the binary pose file only. *)
Definition fs_bin : gmap path node :=
  list_to_map
    ([ (["data"], Dir); (["data"; "images"], Dir);
       (["data"; "sparse"], Dir); (["data"; "sparse"; "0"], Dir);
       (["data"; "sparse"; "0"; "cameras.bin"], File "cameras");
       (["data"; "sparse"; "0"; "images.bin"], File "poses");
       (["data"; "sparse"; "0"; "points3D.bin"], File "points") ]
     ++ images).

(** A source without images. *)
Definition fs_empty : gmap path node :=
  list_to_map [ (["data"], Dir); (["data"; "images"], Dir);
                (["data"; "images"; "notes.md"], File "no image") ].

(** The source with the images only. *)
Definition fs_images : gmap path node :=
  list_to_map ([ (["data"], Dir); (["data"; "images"], Dir) ] ++ images).

(** A source without an images directory. *)
Definition fs_source : gmap path node := {[ ["data"] := Dir ]}.

Definition args (keep_every offset : Z) : Args :=
  {| source := ["data"]; output := ["subset"];
     keep_every := keep_every; offset := offset |}.

Definition selected : gset string := {[ "000001_0.png"; "000003_0.png" ]}.

(** The pose file of the comments and the selected entries only. *)
Definition kept_txt : string := written_text (render (filtered selected items)).

(** The source whose text pose file holds comments and entries of images
    that exist, and no blank line. *)
Definition fs_kept : gmap path node :=
  <[["data"; "sparse"; "0"; "images.txt"]:=File kept_txt]> fs_txt.

End Example.

(** * Properties *)

(** ** Strings *)

Lemma str_app_cons (a : ascii) (s t : string) : String a s +:+ t = String a (s +:+ t).
Proof. reflexivity. Qed.

Lemma str_app_nil_r (s : string) : s +:+ "" = s.
Proof. induction s as [|a s IH]; [done|]. by rewrite str_app_cons, IH. Qed.

Lemma str_app_assoc (s t u : string) : (s +:+ t) +:+ u = s +:+ t +:+ u.
Proof. induction s as [|a s IH]; [done|]. by rewrite !str_app_cons, IH. Qed.

Lemma contains_app (c : ascii) (s t : string) :
  Str.contains c (s +:+ t) = Str.contains c s || Str.contains c t.
Proof.
  induction s as [|a s IH]; [done|].
  rewrite str_app_cons. simpl. rewrite IH. by rewrite orb_assoc.
Qed.

Lemma rpartition_None (c : ascii) (s : string) :
  Str.contains c s = false → Str.rpartition c s = None.
Proof.
  induction s as [|a s IH]; [done|]. simpl.
  intros [Ha Hs]%orb_false_elim. rewrite (IH Hs).
  apply bool_decide_eq_false in Ha. by rewrite decide_False.
Qed.

Lemma rpartition_last (c : ascii) (h t : string) :
  Str.contains c t = false →
  Str.rpartition c (h +:+ String c t) = Some (h, t).
Proof.
  intros Ht. induction h as [|a h IH].
  - change ("" +:+ String c t) with (String c t). simpl.
    rewrite (rpartition_None _ _ Ht). by rewrite decide_True.
  - rewrite str_app_cons. simpl. by rewrite IH.
Qed.

Lemma all_dots_contains (c : ascii) (s : string) :
  c ≠ "."%char → Str.contains c s = true → OsPath.all_dots s = false.
Proof.
  intros Hc. induction s as [|a s IH]; [done|]. simpl.
  intros [Ha|Hs]%orb_true_iff.
  - apply bool_decide_eq_true in Ha as ->. by rewrite bool_decide_eq_false_2.
  - rewrite (IH Hs). apply andb_false_r.
Qed.

(** ** [get_shot_number] *)

(** X1: a name [S_L.ext] whose lens suffix [L] holds no further separator
    and whose extension [ext] holds no dot has the shot id [S]. *)
Lemma get_shot_number_lens (S L ext : string) :
  Str.contains "/" S = false → Str.contains "/" L = false →
  Str.contains "/" ext = false →
  Str.contains "_" L = false → Str.contains "." ext = false →
  get_shot_number (S +:+ "_" +:+ L +:+ "." +:+ ext) = S.
Proof.
  intros HS HL Hext HL_ Hext_.
  assert (Str.contains "/" (S +:+ "_" +:+ L +:+ "." +:+ ext) = false) as Hsl.
  { rewrite !contains_app, HS, HL, Hext. done. }
  unfold get_shot_number, OsPath.basename, OsPath.splitext.
  rewrite !(rpartition_None _ _ Hsl).
  replace (S +:+ "_" +:+ L +:+ "." +:+ ext)
    with ((S +:+ "_" +:+ L) +:+ String "." ext) by by rewrite !str_app_assoc.
  rewrite (rpartition_last _ _ _ Hext_).
  assert (Str.contains "_" (S +:+ "_" +:+ L) = true) as H_.
  { rewrite !contains_app. simpl. by rewrite orb_true_r. }
  rewrite (all_dots_contains "_" _ ltac:(done) H_). simpl.
  change ("" +:+ ?s) with s. rewrite H_.
  unfold Str.rsplit1.
  change (S +:+ "_" +:+ L) with (S +:+ String "_" L).
  by rewrite (rpartition_last _ _ _ HL_).
Qed.

Lemma get_shot_number_lens_witness :
  get_shot_number ("000123" +:+ "_" +:+ "0" +:+ "." +:+ "png") = "000123".
Proof. apply get_shot_number_lens; reflexivity. Defined.

(** C2: [get_shot_number] cuts the name [IMG_0001.jpg] at its separator and
    returns [IMG], where the function's documentation promises [IMG_0001]. *)
Theorem get_shot_number_IMG_0001 :
  get_shot_number "IMG_0001.jpg" = "IMG"
  ∧ get_shot_number "IMG_0001.jpg" ≠ "IMG_0001".
Proof. split; [reflexivity | discriminate]. Qed.

(** ** [filter_images_txt]: the loop *)

Lemma split_go_lstrip (s : string) :
  Str.split_go "" (Str.lstrip s) = Str.split_go "" s.
Proof.
  induction s as [|a s IH]; [done|]. simpl.
  destruct (Str.isspace a) eqn:Ha; [done|]. simpl. by rewrite Ha.
Qed.

Lemma split_go_rstrip (cur s : string) :
  Str.split_go cur (Str.rstrip s) = Str.split_go cur s.
Proof.
  revert cur. induction s as [|a s IH]; intros cur; [done|]. simpl.
  destruct (Str.rstrip s) as [|b r] eqn:Hr.
  - destruct (Str.isspace a) eqn:Ha; simpl; rewrite ?Ha, <- IH; simpl.
    + by rewrite (right_id_L [] (++)).
    + done.
  - change (Str.split_go cur (String a (String b r)))
      with (if Str.isspace a
            then (if decide (cur = "") then [] else [cur])
                 ++ Str.split_go "" (String b r)
            else Str.split_go (cur +:+ String a "") (String b r)).
    by rewrite !IH.
Qed.

(** Stripping a line first does not change its fields. *)
Lemma split_strip (s : string) : Str.split (Str.strip s) = Str.split s.
Proof.
  unfold Str.split, Str.strip. by rewrite split_go_rstrip, split_go_lstrip.
Qed.

Section filter_loop.
Context (lines : list string) (selected_images : gset string).

Abbreviation body := (filter_body lines selected_images).
Abbreviation run := (filter_run lines selected_images).

(** A comment line is written and passed. *)
Lemma body_comment i written kept line :
  lines !! i = Some line → Str.startswith "#" line = true →
  body (FilterState i written kept)
  = Ok (FilterState (i + 1) (written ++ [line]) kept).
Proof.
  intros Hi Hc. unfold filter_body, index. simpl. rewrite Hi. simpl.
  by rewrite Hc.
Qed.

(** A blank line is passed. *)
Lemma body_blank i written kept line :
  lines !! i = Some line →
  Str.startswith "#" line = false → Str.strip line = "" →
  body (FilterState i written kept) = Ok (FilterState (i + 1) written kept).
Proof.
  intros Hi Hc Hb. unfold filter_body, index. simpl. rewrite Hi. simpl.
  rewrite Hc. by rewrite decide_True.
Qed.

(** A header that is followed by a line: both are written or both passed. *)
Lemma body_entry i written kept header continuation :
  lines !! i = Some header → lines !! (i + 1) = Some continuation →
  Str.startswith "#" header = false → Str.strip header ≠ "" →
  body (FilterState i written kept)
  = Ok (if retained selected_images (Entry header continuation)
        then FilterState (i + 2) (written ++ [header; continuation]) (kept + 1)
        else FilterState (i + 2) written kept).
Proof.
  intros Hi Hi1 Hc Hb. unfold filter_body, index. simpl. rewrite Hi. simpl.
  rewrite Hc. rewrite decide_False by done.
  unfold retained, NAME. rewrite split_strip.
  case_decide as Hlen.
  - destruct (Str.split header !! 9) as [name|] eqn:Hname; simpl.
    + case_decide as Hsel.
      * rewrite bool_decide_eq_true_2 by done.
        rewrite decide_True by (by apply lookup_lt_Some in Hi1).
        rewrite Hi1. simpl. by rewrite <- app_assoc.
      * by rewrite bool_decide_eq_false_2.
    + apply lookup_ge_None in Hname. lia.
  - rewrite (proj2 (lookup_ge_None _ _)) by lia. done.
Qed.

(** A header on the last line: it alone is written when it is retained. *)
Lemma body_last_header i written kept header :
  lines !! i = Some header → length lines = i + 1 →
  Str.startswith "#" header = false → Str.strip header ≠ "" →
  body (FilterState i written kept)
  = Ok (if retained selected_images (Entry header "")
        then FilterState (i + 2) (written ++ [header]) (kept + 1)
        else FilterState (i + 2) written kept).
Proof.
  intros Hi Hlast Hc Hb. unfold filter_body, index. simpl. rewrite Hi. simpl.
  rewrite Hc. rewrite decide_False by done.
  unfold retained, NAME. rewrite split_strip.
  case_decide as Hlen.
  - destruct (Str.split header !! 9) as [name|] eqn:Hname; simpl.
    + case_decide as Hsel.
      * rewrite bool_decide_eq_true_2 by done.
        rewrite decide_False by lia. done.
      * by rewrite bool_decide_eq_false_2.
    + apply lookup_ge_None in Hname. lia.
  - rewrite (proj2 (lookup_ge_None _ _)) by lia. done.
Qed.

(** The body never reads outside the list and always moves forward. *)
Lemma body_total st :
  f_i st < length lines →
  ∃ st', body st = Ok st' ∧ f_i st < f_i st'.
Proof.
  destruct st as [i written kept]. simpl. intros Hi.
  destruct (lookup_lt_is_Some_2 lines i Hi) as [line Hline].
  destruct (Str.startswith "#" line) eqn:Hc.
  { rewrite (body_comment _ _ _ _ Hline Hc). eexists. split; [done|]. simpl. lia. }
  destruct (decide (Str.strip line = "")) as [Hb|Hb].
  { rewrite (body_blank _ _ _ _ Hline Hc Hb). eexists. split; [done|]. simpl. lia. }
  destruct (lines !! (i + 1)) as [next|] eqn:Hnext.
  - rewrite (body_entry _ _ _ _ _ Hline Hnext Hc Hb).
    eexists. split; [done|]. destruct (retained _ _); simpl; lia.
  - apply lookup_ge_None in Hnext.
    rewrite (body_last_header _ _ _ _ Hline ltac:(lia) Hc Hb).
    eexists. split; [done|]. destruct (retained _ _); simpl; lia.
Qed.

Lemma filter_loop_fuel fuel st :
  length lines - f_i st ≤ fuel →
  filter_loop fuel lines selected_images st = run st.
Proof.
  unfold filter_run. revert st.
  induction (lt_wf fuel) as [fuel _ IH]. intros st Hfuel.
  destruct fuel as [|fuel].
  { by replace (length lines - f_i st) with 0 by lia. }
  simpl. case_decide as Hi.
  - destruct (length lines - f_i st) as [|n] eqn:Hn; [lia|]. simpl.
    rewrite decide_True by done.
    destruct (body_total st Hi) as (st' & -> & Hlt). simpl.
    rewrite (IH fuel) by lia. rewrite (IH n) by lia. done.
  - destruct (length lines - f_i st); simpl; by rewrite ?decide_False.
Qed.

Lemma run_step st :
  f_i st < length lines → run st = body st ≫= run.
Proof.
  intros Hi. unfold filter_run at 1.
  destruct (length lines - f_i st) as [|n] eqn:Hn; [lia|]. simpl.
  rewrite decide_True by done.
  destruct (body_total st Hi) as (st' & -> & Hlt). simpl.
  apply filter_loop_fuel. lia.
Qed.

Lemma run_end st : length lines ≤ f_i st → run st = Ok st.
Proof.
  intros Hi. unfold filter_run. destruct (length lines - f_i st); simpl;
    by rewrite decide_False by lia.
Qed.

(** The loop ends, whatever the lines are: no [IndexError]. *)
Lemma run_total st : ∃ st', run st = Ok st' ∧ length lines ≤ f_i st'.
Proof.
  remember (length lines - f_i st) as n eqn:Hn.
  revert st Hn. induction (lt_wf n) as [n _ IH]. intros st ->.
  destruct (decide (f_i st < length lines)) as [Hi|Hi].
  - rewrite run_step by done.
    destruct (body_total st Hi) as (st' & -> & Hlt). simpl.
    apply (IH (length lines - f_i st')); [lia|done].
  - exists st. split; [apply run_end|]; lia.
Qed.

End filter_loop.

(** ** [filter_images_txt] on a pose file *)

Section pose_file.
Context (selected_images : gset string).

Lemma render_cons it items : render (it :: items) = render_item it ++ render items.
Proof. reflexivity. Qed.

Lemma filtered_cons it items :
  filtered selected_images (it :: items)
  = (if is_comment it || retained selected_images it then [it] else [])
    ++ filtered selected_images items.
Proof.
  unfold filtered.
  destruct (is_comment it || retained selected_images it) eqn:Hit.
  - by rewrite filter_cons_True by by rewrite Hit.
  - by rewrite filter_cons_False by (rewrite Hit; intros []).
Qed.

(** The number of retained entries. *)
Lemma retained_cons it items :
  length (filter (retained selected_images) (it :: items))
  = (if retained selected_images it then 1 else 0)
    + length (filter (retained selected_images) items).
Proof.
  destruct (retained selected_images it) eqn:Hit.
  - by rewrite filter_cons_True by by rewrite Hit.
  - by rewrite filter_cons_False by (rewrite Hit; intros []).
Qed.

(** The loop over the lines of a sequence of items that starts at an entry
    boundary [length pre] reaches the boundary after them, having written
    the comments and the retained entries. *)
Lemma run_items items : ∀ lines pre tail written kept,
  Forall wf_item items →
  lines = pre ++ render items ++ tail →
  filter_run lines selected_images (FilterState (length pre) written kept)
  = filter_run lines selected_images
      (FilterState (length pre + length (render items))
         (written ++ render (filtered selected_images items))
         (kept + length (filter (retained selected_images) items))).
Proof.
  induction items as [|it items IH]; intros lines pre tail written kept Hwf Hl.
  { change (render (filtered selected_images [])) with (@nil string).
    simpl. by rewrite !Nat.add_0_r, (right_id_L [] (++)). }
  apply Forall_cons in Hwf as [Hit Hwf].
  rewrite render_cons, <- (assoc_L (++)), (assoc_L (++) pre) in Hl.
  specialize (IH lines (pre ++ render_item it) tail).
  rewrite length_app in IH.
  assert (lines !! length pre = head (render_item it)) as Hhd.
  { rewrite Hl, <- (assoc_L (++)), lookup_app_r, Nat.sub_diag by done.
    by destruct it. }
  assert (length pre < length lines) as Hlt.
  { rewrite Hl, !length_app. destruct it; simpl; lia. }
  rewrite run_step by done.
  rewrite filtered_cons, retained_cons, render_cons, length_app.
  destruct it as [line|line|header continuation]; simpl in *.
  - rewrite (body_comment _ _ _ _ _ line Hhd Hit). simpl.
    rewrite (IH _ _ Hwf Hl). f_equal. f_equal; [lia|by rewrite <- (assoc_L (++))].
  - destruct Hit as [Hc Hb].
    rewrite (body_blank _ _ _ _ _ line Hhd Hc Hb). simpl.
    rewrite (IH _ _ Hwf Hl). f_equal. f_equal; lia.
  - destruct Hit as [Hc Hb].
    assert (lines !! (length pre + 1) = Some continuation) as Hnext.
    { rewrite Hl, <- (assoc_L (++)), lookup_app_r by lia.
      by replace (length pre + 1 - length pre) with 1 by lia. }
    rewrite (body_entry _ _ _ _ _ header continuation Hhd Hnext Hc Hb).
    destruct (retained selected_images (Entry header continuation)) eqn:Hret;
      simpl in Hret; rewrite Hret; simpl.
    + rewrite (IH _ _ Hwf Hl). f_equal.
      f_equal; [lia|by rewrite <- (assoc_L (++))|lia].
    + rewrite (IH _ _ Hwf Hl). f_equal. f_equal; lia.
Qed.

(** The loop on a whole pose file. *)
Lemma filter_lines_items items :
  Forall wf_item items →
  filter_lines (render items) selected_images
  = Ok (render (filtered selected_images items),
        length (filter (retained selected_images) items)).
Proof.
  intros Hwf. unfold filter_lines.
  rewrite filter_loop_fuel by (simpl; lia).
  change (FilterState 0 [] 0) with (FilterState (length (@nil string)) [] 0).
  rewrite (run_items items (render items) [] [] [] 0 Hwf)
    by by rewrite (right_id_L [] (++)).
  rewrite run_end by (simpl; lia). done.
Qed.

(** The retained entries are among the filtered items, as entries. *)
Lemma filtered_entries items :
  filter is_entry (filtered selected_images items)
  = filter (retained selected_images) items.
Proof.
  induction items as [|it items IH]; [done|].
  rewrite filtered_cons, filter_app, IH.
  destruct (retained selected_images it) eqn:Hit.
  - rewrite (filter_cons_True (retained _)) by by rewrite Hit.
    rewrite orb_true_r. destruct it; try done.
  - rewrite (filter_cons_False (retained _)) by (rewrite Hit; intros []).
    rewrite orb_false_r. by destruct it.
Qed.

(** The comments are all among the filtered items, in their order. *)
Lemma filtered_comments items :
  filter is_comment (filtered selected_images items) = filter is_comment items.
Proof.
  induction items as [|it items IH]; [done|].
  rewrite filtered_cons, filter_app, IH.
  destruct (is_comment it) eqn:Hit.
  - rewrite (filter_cons_True is_comment _ items) by by rewrite Hit.
    simpl. by rewrite filter_cons_True by by rewrite Hit.
  - rewrite (filter_cons_False is_comment _ items) by (rewrite Hit; intros []).
    simpl. destruct (retained selected_images it); [|done].
    by rewrite filter_cons_False by (rewrite Hit; intros []).
Qed.

End pose_file.

(** ** The program monad *)

Lemma bind_unfold {A B : Type} (m : M A) (k : A → M B) w :
  (m ≫= k) w
  = match m w with
    | (Done a, w') => k a w'
    | (Abort e, w') => (Abort e, w')
    end.
Proof. reflexivity. Qed.

Lemma bind_ask {A B : Type} (f : gmap path node → A) (k : A → M B) w :
  (ask f ≫= k) w = k (f (w_fs w)) w.
Proof. reflexivity. Qed.

Lemma bind_print {B : Type} m (k : unit → M B) w :
  (print m ≫= k) w = k () (World (w_fs w) (w_console w ++ [m])).
Proof. reflexivity. Qed.

Lemma bind_lift_ok {A B : Type} (r : result A) (k : A → M B) a w :
  r = Ok a → (lift r ≫= k) w = k a w.
Proof. by intros ->. Qed.

Lemma bind_lift_raise {A B : Type} (r : result A) (k : A → M B) e w :
  r = Raise e → (lift r ≫= k) w = (Abort (Uncaught e), w).
Proof. by intros ->. Qed.

Lemma bind_update_ok {B : Type} f (k : unit → M B) fs' w :
  f (w_fs w) = Ok fs' → (update f ≫= k) w = k () (World fs' (w_console w)).
Proof. intros Hf. rewrite bind_unfold. unfold update. by rewrite Hf. Qed.

Lemma bind_assoc {A B C : Type} (m : M A) (k : A → M B) (h : B → M C) w :
  ((m ≫= k) ≫= h) w = (m ≫= λ a, k a ≫= h) w.
Proof. rewrite !bind_unfold. by destruct (m w) as [[a|e] w']. Qed.

(** ** C1: the filtered pose file *)

Lemma write_text_ok fs p content :
  Fs.is_dir fs p = false → Fs.is_dir fs (Path.parent p) = true →
  Fs.write_text fs p content = Ok (<[p:=File content]> fs).
Proof. intros Hp Hpar. unfold Fs.write_text. by rewrite Hp, Hpar. Qed.

Lemma is_dir_insert_file fs p q content :
  Fs.is_dir (<[p:=File content]> fs) q
  = Fs.is_dir fs q && bool_decide (p ≠ q ∨ q = []).
Proof.
  unfold Fs.is_dir. destruct (decide (p = q)) as [->|Hne].
  - rewrite lookup_insert_eq.
    rewrite (bool_decide_eq_false_2 (Some (File _) = _)) by done.
    destruct q as [|c q].
    + by rewrite !bool_decide_eq_true_2 by auto.
    + rewrite (bool_decide_eq_false_2 (_ ∨ _)) by (by intros [|]).
      rewrite andb_false_r. by rewrite bool_decide_eq_false_2.
  - rewrite lookup_insert_ne by done.
    rewrite (bool_decide_eq_true_2 (_ ∨ _)) by by left. by rewrite andb_true_r.
Qed.

(** What [filter_images_txt] does to a readable source and a writable,
    different destination. *)
Lemma filter_images_txt_run fs console src_path dst_path content selected_images
    written kept :
  fs !! src_path = Some (File content) →
  src_path ≠ dst_path →
  Fs.is_dir fs dst_path = false → Fs.is_dir fs (Path.parent dst_path) = true →
  filter_lines (readlines content) selected_images = Ok (written, kept) →
  filter_images_txt src_path dst_path selected_images (World fs console)
  = (Done kept,
     World (<[dst_path:=File (written_text written)]> fs) console).
Proof.
  intros Hsrc Hne Hdst Hpar Hlines. unfold filter_images_txt.
  rewrite bind_assoc, bind_ask. simpl w_fs.
  rewrite (bind_lift_ok _ _ content) by (unfold Fs.read_text, id; by rewrite Hsrc).
  rewrite (bind_update_ok _ _ (<[dst_path:=File ""]> fs))
    by by apply write_text_ok.
  rewrite bind_assoc, bind_ask. simpl w_fs.
  rewrite (bind_lift_ok _ _ content)
    by (unfold Fs.read_text, id; by rewrite lookup_insert_ne, Hsrc).
  rewrite (bind_lift_ok _ _ (written, kept)) by done.
  rewrite (bind_update_ok _ _ (<[dst_path:=File (written_text written)]> fs)).
  { done. }
  simpl w_fs. rewrite write_text_ok.
  - by rewrite insert_insert_eq.
  - rewrite is_dir_insert_file, Hdst. done.
  - rewrite is_dir_insert_file, Hpar. simpl.
    apply bool_decide_eq_true_2.
    destruct (decide (dst_path = Path.parent dst_path)) as [Heq|]; [|by left].
    right. rewrite Heq in Hdst. congruence.
Qed.

(** C1: [filter_images_txt] writes to the destination the comment lines and
    the entries whose NAME is in the retained set, each entry as its two
    lines, in the order of the source, and returns the number of retained
    entries. *)
Theorem filter_images_txt_pairs fs console src_path dst_path content items
    selected_images :
  fs !! src_path = Some (File content) →
  readlines content = render items →
  Forall wf_item items →
  src_path ≠ dst_path →
  Fs.is_dir fs dst_path = false → Fs.is_dir fs (Path.parent dst_path) = true →
  filter_images_txt src_path dst_path selected_images (World fs console)
  = (Done (length (filter (retained selected_images) items)),
     World (<[dst_path:=
               File (written_text (render (filtered selected_images items)))]> fs)
       console)
  ∧ filter is_entry (filtered selected_images items)
    = filter (retained selected_images) items
  ∧ filter is_comment (filtered selected_images items)
    = filter is_comment items.
Proof.
  intros Hsrc Hlines Hwf Hne Hdst Hpar. split; [|split].
  - apply (filter_images_txt_run _ _ _ _ content); try done.
    rewrite Hlines. by apply filter_lines_items.
  - apply filtered_entries.
  - apply filtered_comments.
Qed.

Local Ltac solve_wf_items :=
  repeat (apply Forall_cons; split; [by vm_compute|]); by apply Forall_nil.

Lemma filter_images_txt_pairs_witness :
  filter_images_txt ["data"; "sparse"; "0"; "images.txt"] ["out.txt"]
    Example.selected (World Example.fs_txt [])
  = (Done (length (filter (retained Example.selected) Example.items)),
     World (<[["out.txt"]:=
               File (written_text
                       (render (filtered Example.selected Example.items)))]>
              Example.fs_txt) [])
  ∧ filter is_entry (filtered Example.selected Example.items)
    = filter (retained Example.selected) Example.items
  ∧ filter is_comment (filtered Example.selected Example.items)
    = filter is_comment Example.items.
Proof.
  apply (filter_images_txt_pairs Example.fs_txt [] _ _ Example.images_txt).
  - by vm_compute.
  - by vm_compute.
  - solve_wf_items.
  - done.
  - by vm_compute.
  - by vm_compute.
Defined.

(** ** C4: comment lines and blank lines *)

Section structural_lines.
Context (selected_images : gset string).

Lemma filtered_filter (keep : item → bool) (items : list item) :
  (∀ it, is_comment it || retained selected_images it → keep it) →
  filtered selected_images (filter keep items) = filtered selected_images items.
Proof.
  intros Hkeep. induction items as [|it items IH]; [done|].
  rewrite (filtered_cons _ it items).
  destruct (keep it) eqn:Hit.
  - rewrite filter_cons_True by by rewrite Hit.
    by rewrite filtered_cons, IH.
  - rewrite filter_cons_False by (rewrite Hit; intros []). rewrite IH.
    destruct (is_comment it || retained selected_images it) eqn:Hc; [|done].
    specialize (Hkeep it). rewrite Hc, Hit in Hkeep. by destruct Hkeep.
Qed.

Lemma retained_filter (keep : item → bool) (items : list item) :
  (∀ it, retained selected_images it → keep it) →
  filter (retained selected_images) (filter keep items)
  = filter (retained selected_images) items.
Proof.
  intros Hkeep. induction items as [|it items IH]; [done|].
  destruct (keep it) eqn:Hit.
  - rewrite (filter_cons_True keep) by by rewrite Hit.
    destruct (retained selected_images it) eqn:Hr.
    + rewrite !(filter_cons_True (retained _)) by by rewrite Hr. by rewrite IH.
    + by rewrite !(filter_cons_False (retained _)) by (rewrite Hr; intros []).
  - rewrite (filter_cons_False keep) by (rewrite Hit; intros []). rewrite IH.
    destruct (retained selected_images it) eqn:Hr.
    + specialize (Hkeep it). rewrite Hr, Hit in Hkeep. by destruct Hkeep.
    + by rewrite filter_cons_False by (rewrite Hr; intros []).
Qed.

(** Without its comments, the filtered file holds the retained entries. *)
Lemma filtered_entries_only (items : list item) :
  filtered selected_images (filter is_entry items)
  = filter (retained selected_images) items.
Proof.
  induction items as [|it items IH]; [done|].
  destruct it as [line|line|header continuation].
  - rewrite (filter_cons_False is_entry) by (by intros []).
    by rewrite (filter_cons_False (retained _)) by (by intros []).
  - rewrite (filter_cons_False is_entry) by (by intros []).
    by rewrite (filter_cons_False (retained _)) by (by intros []).
  - rewrite (filter_cons_True is_entry) by done.
    rewrite filtered_cons, IH. simpl is_comment. rewrite orb_false_l.
    destruct (retained selected_images (Entry header continuation)) eqn:Hr.
    + by rewrite filter_cons_True by by rewrite Hr.
    + by rewrite filter_cons_False by (rewrite Hr; intros []).
Qed.

(** The comment lines of the source are lines of the filtered file, in
    their order. *)
Lemma comments_sublist (items : list item) :
  render (filter is_comment items)
    `sublist_of` render (filtered selected_images items).
Proof.
  induction items as [|it items IH]; [done|].
  rewrite filtered_cons.
  destruct it as [line|line|header continuation]; simpl.
  - rewrite filter_cons_True by done. rewrite !render_cons.
    by apply sublist_skip.
  - by rewrite filter_cons_False by (by intros []).
  - rewrite filter_cons_False by (by intros []).
    destruct (match NAME header with Some _ => _ | None => _ end); [|done].
    change (render ([?it] ++ ?l)) with (render_item it ++ render l).
    by apply sublist_inserts_l.
Qed.

End structural_lines.

Lemma Forall_filter_keep {A} (P : A → Prop) (keep : A → bool) (l : list A) :
  Forall P l → Forall P (filter keep l).
Proof.
  rewrite !Forall_forall. intros Hl x [_ Hx]%list_elem_of_filter. by apply Hl.
Qed.

(** C4 (as the code has it): the comment lines of a pose file are written
    verbatim and in their order, its blank lines are not written and the
    output is that of the file without them, and neither kind of line counts
    against the pairing: the retained entries and their count are those of
    the file reduced to its entries. *)
Theorem comments_kept_blanks_skipped (items : list item) selected_images :
  Forall wf_item items →
  ∃ written kept,
    filter_lines (render items) selected_images = Ok (written, kept)
    ∧ render (filter is_comment items) `sublist_of` written
    ∧ filter_lines (render (filter (λ it, negb (is_blank it)) items))
        selected_images = Ok (written, kept)
    ∧ filter_lines (render (filter is_entry items)) selected_images
      = Ok (render (filter (retained selected_images) items), kept).
Proof.
  intros Hwf. eexists _, _. split; [by apply filter_lines_items|].
  split; [apply comments_sublist|]. split.
  - rewrite filter_lines_items by by apply Forall_filter_keep.
    rewrite filtered_filter by (by intros []).
    by rewrite retained_filter by (by intros []).
  - rewrite filter_lines_items by by apply Forall_filter_keep.
    rewrite filtered_entries_only.
    by rewrite retained_filter by (by intros []).
Qed.

Lemma comments_kept_blanks_skipped_witness :
  ∃ written kept,
    filter_lines (render Example.items) Example.selected = Ok (written, kept)
    ∧ render (filter is_comment Example.items) `sublist_of` written
    ∧ filter_lines (render (filter (λ it, negb (is_blank it)) Example.items))
        Example.selected = Ok (written, kept)
    ∧ filter_lines (render (filter is_entry Example.items)) Example.selected
      = Ok (render (filter (retained Example.selected) Example.items), kept).
Proof.
  apply (comments_kept_blanks_skipped Example.items Example.selected).
  solve_wf_items.
Defined.

(** C4, as stated, fails: a blank line of the source is not in the output. *)
Lemma blank_line_not_preserved :
  Forall wf_item Example.items
  ∧ nl ∈ render (filter is_blank Example.items)
  ∧ ∃ written kept,
      filter_lines (render Example.items) Example.selected = Ok (written, kept)
      ∧ nl ∉ written.
Proof.
  split; [solve_wf_items|]. split; [by apply list_elem_of_singleton|].
  eexists _, _. split; [by vm_compute|].
  apply not_elem_of_cons. split; [done|].
  repeat (apply not_elem_of_cons; split; [by vm_compute|]).
  apply not_elem_of_nil.
Qed.

(** ** C10: a header on the last line *)

(** [filter_lines] returns on every list of lines: no access is out of
    range. *)
Lemma filter_lines_total lines selected_images :
  ∃ written kept, filter_lines lines selected_images = Ok (written, kept).
Proof.
  unfold filter_lines. rewrite filter_loop_fuel by (simpl; lia).
  destruct (run_total lines selected_images (FilterState 0 [] 0))
    as (st & -> & _).
  by eexists _, _.
Qed.

(** C10: the loop never reads past the end of the lines, and when the last
    line is a retained header without a continuation line, the header is
    written alone and the entry is counted. *)
Theorem filter_lines_last_header items header name selected_images :
  Forall wf_item items →
  Str.startswith "#" header = false → Str.strip header ≠ "" →
  NAME header = Some name → name ∈ selected_images →
  (∀ lines, ∃ written kept,
     filter_lines lines selected_images = Ok (written, kept))
  ∧ filter_lines (render items ++ [header]) selected_images
    = Ok (render (filtered selected_images items) ++ [header],
          length (filter (retained selected_images) items) + 1).
Proof.
  intros Hwf Hc Hb Hname Hsel.
  split; [intros lines; apply filter_lines_total|].
  unfold filter_lines.
  rewrite filter_loop_fuel by (simpl; lia).
  change (FilterState 0 [] 0) with (FilterState (length (@nil string)) [] 0).
  rewrite (run_items _ items _ [] [header] [] 0 Hwf) by done.
  simpl length at 1. rewrite !Nat.add_0_l, app_nil_l.
  rewrite run_step by (simpl; rewrite length_app; simpl; lia).
  rewrite (body_last_header _ _ _ _ _ header).
  - unfold retained. rewrite Hname, bool_decide_eq_true_2 by done. simpl.
    rewrite run_end by (simpl; rewrite length_app; simpl; lia). done.
  - by rewrite lookup_app_r, Nat.sub_diag by done.
  - rewrite length_app. simpl. lia.
  - done.
  - done.
Qed.

Lemma filter_lines_last_header_witness :
  (∀ lines, ∃ written kept,
     filter_lines lines Example.selected = Ok (written, kept))
  ∧ filter_lines
      (render Example.items ++ [Example.header "6" "000003_0.png"])
      Example.selected
    = Ok (render (filtered Example.selected Example.items)
            ++ [Example.header "6" "000003_0.png"],
          length (filter (retained Example.selected) Example.items) + 1).
Proof.
  apply (filter_lines_last_header Example.items
           (Example.header "6" "000003_0.png") "000003_0.png").
  - solve_wf_items.
  - by vm_compute.
  - by vm_compute.
  - by vm_compute.
  - by vm_compute.
Defined.

(** ** C3: the selection *)

Section slicing.
Context {A : Type}.
Implicit Types l : list A.

Lemma seqZ_snoc (c : Z) : (0 ≤ c)%Z → seqZ 0 (c + 1) = seqZ 0 c ++ [c].
Proof.
  intros Hc. unfold seqZ.
  rewrite Z2Nat.inj_add, Nat.add_1_r, seq_S, fmap_app by lia. simpl.
  do 2 f_equal. lia.
Qed.

Lemma slice_count_nonneg O N len : (0 < N)%Z → (0 ≤ slice_count O N len)%Z.
Proof.
  intros HN. unfold slice_count. case_decide; [|done].
  assert (0 ≤ (len - O - 1) `div` N)%Z by (apply Z.div_pos; lia). lia.
Qed.

Lemma div_pred_on_stride (d N : Z) :
  (0 < N)%Z → (d `mod` N = 0)%Z → ((d - 1) `div` N = d `div` N - 1)%Z.
Proof.
  intros HN Hm. symmetry. apply (Z.div_unique _ _ _ (N - 1)); [lia|].
  pose proof (Z.div_mod d N ltac:(lia)). lia.
Qed.

Lemma div_pred_off_stride (d N : Z) :
  (0 < N)%Z → (d `mod` N ≠ 0)%Z → ((d - 1) `div` N = d `div` N)%Z.
Proof.
  intros HN Hm. symmetry. apply (Z.div_unique _ _ _ (d `mod` N - 1)).
  - pose proof (Z.mod_pos_bound d N HN). lia.
  - pose proof (Z.div_mod d N ltac:(lia)). lia.
Qed.

(** One more element: the count grows when the new index is on the stride. *)
Lemma slice_count_succ O N len :
  (0 ≤ O)%Z → (0 < N)%Z → (0 ≤ len)%Z →
  if decide (O ≤ len ∧ (len - O) `mod` N = 0)%Z
  then slice_count O N (len + 1) = (slice_count O N len + 1)%Z
       ∧ (O + slice_count O N len * N = len)%Z
  else slice_count O N (len + 1) = slice_count O N len.
Proof.
  intros HO HN Hlen. unfold slice_count.
  replace (len + 1 - O - 1)%Z with (len - O)%Z by lia.
  pose proof (Z.div_mod (len - O) N ltac:(lia)) as Hd.
  destruct (decide (O ≤ len ∧ (len - O) `mod` N = 0)%Z) as [[Hle Hm]|Hc];
    destruct (decide (O < len + 1)%Z); destruct (decide (O < len)%Z);
    try lia.
  - rewrite (div_pred_on_stride _ _ HN Hm). lia.
  - rewrite div_pred_off_stride by lia. done.
  - assert (O = len) as -> by lia. rewrite Z.sub_diag, Z.mod_0_l in Hc by lia.
    lia.
Qed.

(** A list one element longer. *)
Lemma every_nth_from_snoc (O N : nat) l x :
  every_nth_from O N (l ++ [x])
  = every_nth_from O N l
    ++ (if decide (O ≤ length l ∧ (length l - O) `mod` N = 0) then [x] else []).
Proof.
  unfold every_nth_from. rewrite imap_app, filter_app, fmap_app. f_equal.
  simpl. rewrite Nat.add_0_r.
  case_decide.
  - by rewrite filter_cons_True.
  - by rewrite filter_cons_False.
Qed.

(** The elements at the indices of a slice with a positive step. *)
Lemma slice_from_step_positive l (O N : Z) :
  (0 ≤ O)%Z → (0 < N)%Z →
  slice_from_step l O N
  = Ok (omap (λ k, l !! Z.to_nat (O + k * N))
          (seqZ 0 (slice_count O N (Z.of_nat (length l))))).
Proof.
  intros HO HN. unfold slice_from_step, slice_count.
  rewrite decide_False, decide_True, decide_False by lia.
  destruct (decide (O < Z.of_nat (length l))%Z).
  - rewrite Z.min_l, decide_True by lia. done.
  - rewrite Z.min_r, decide_False by lia. done.
Qed.

Lemma slice_positive_every_nth l (O N : Z) :
  (0 ≤ O)%Z → (0 < N)%Z →
  omap (λ k, l !! Z.to_nat (O + k * N))
    (seqZ 0 (slice_count O N (Z.of_nat (length l))))
  = every_nth_from (Z.to_nat O) (Z.to_nat N) l.
Proof.
  intros HO HN. induction l as [|x l IH] using rev_ind.
  { unfold slice_count. by rewrite decide_False by (simpl; lia). }
  rewrite every_nth_from_snoc, <- IH, length_app. simpl length.
  rewrite Nat2Z.inj_add. change (Z.of_nat 1) with 1%Z.
  pose proof (slice_count_succ O N (Z.of_nat (length l)) HO HN ltac:(lia))
    as Hsucc.
  pose proof (slice_count_nonneg O N (Z.of_nat (length l)) HN) as Hnn.
  assert (∀ c, (c ≤ slice_count O N (Z.of_nat (length l)))%Z →
    omap (λ k, (l ++ [x]) !! Z.to_nat (O + k * N)) (seqZ 0 c)
    = omap (λ k, l !! Z.to_nat (O + k * N)) (seqZ 0 c)) as Hext.
  { intros c Hc. apply list_omap_ext, Forall2_same_length_lookup.
    split; [done|]. intros i k k' [-> Hi]%lookup_seqZ [-> _]%lookup_seqZ.
    apply lookup_app_l.
    assert (O + (0 + Z.of_nat i) * N
            < Z.of_nat (length l))%Z; [|lia].
    unfold slice_count in Hc. case_decide; [|lia].
    pose proof (Z.div_mod (Z.of_nat (length l) - O - 1) N ltac:(lia)).
    pose proof (Z.mod_pos_bound (Z.of_nat (length l) - O - 1) N HN).
    nia. }
  destruct (decide (O ≤ Z.of_nat (length l)
                    ∧ (Z.of_nat (length l) - O) `mod` N = 0)%Z) as [[Hle Hm]|Hc].
  - destruct Hsucc as [-> Hidx].
    rewrite seqZ_snoc, omap_app, Hext by lia. f_equal.
    rewrite decide_True.
    + simpl. rewrite Hidx, Nat2Z.id, list_lookup_middle by done. done.
    + split; [lia|]. apply Nat2Z.inj.
      rewrite Nat2Z.inj_mod, Nat2Z.inj_sub, !Z2Nat.id by lia. done.
  - rewrite Hsucc, Hext by lia. rewrite decide_False; [by rewrite app_nil_r|].
    intros [Hle Hm]. apply Hc. split; [lia|].
    apply (f_equal Z.of_nat) in Hm.
    rewrite Nat2Z.inj_mod, Nat2Z.inj_sub, !Z2Nat.id in Hm by lia. done.
Qed.

Lemma every_nth_from_short (O N : nat) l :
  length l ≤ N → O < N →
  every_nth_from O N l = option_list (l !! O).
Proof.
  intros Hlen HO. induction l as [|x l IH] using rev_ind; [done|].
  rewrite length_app in Hlen. simpl in Hlen.
  rewrite every_nth_from_snoc, IH by lia.
  destruct (decide (O = length l)) as [->|Hne].
  - rewrite decide_True by (by rewrite Nat.sub_diag, Nat.Div0.mod_0_l).
    rewrite list_lookup_middle by done.
    by rewrite (proj2 (lookup_ge_None l (length l))).
  - destruct (decide (O < length l)) as [Hlt|Hge].
    + rewrite decide_False.
      * by rewrite lookup_app_l, app_nil_r by done.
      * intros [_ Hm]. rewrite Nat.mod_small in Hm by lia. lia.
    + rewrite decide_False by lia.
      by rewrite !(proj2 (lookup_ge_None _ _)) by (rewrite ?length_app; simpl; lia).
Qed.

End slicing.

Lemma sorted_permutation ids ids' :
  ids ≡ₚ ids' → Str.sorted ids = Str.sorted ids'.
Proof.
  intros Hp. unfold Str.sorted.
  apply (Sorted_unique String.le); try apply Sorted_merge_sort; try apply _.
  by rewrite !merge_sort_Permutation.
Qed.

(** C3: for a stride [N >= 1] and an offset [0 <= O < N] the selection is
    the ids sorted ascending, cut to every [N]th from index [O]; it does not
    depend on the order in which the ids are listed; and when [N] exceeds
    the number of ids it is the id at index [O] alone, or nothing when there
    is none. *)
Theorem select_shots_sorted_stride (shot_ids : list string) (O N : Z) :
  (1 ≤ N)%Z → (0 ≤ O < N)%Z →
  select_shots shot_ids O N
  = Ok (every_nth_from (Z.to_nat O) (Z.to_nat N) (Str.sorted shot_ids))
  ∧ Sorted String.le (Str.sorted shot_ids)
  ∧ Str.sorted shot_ids ≡ₚ shot_ids
  ∧ (∀ shot_ids', shot_ids' ≡ₚ shot_ids →
       select_shots shot_ids' O N = select_shots shot_ids O N)
  ∧ ((Z.of_nat (length shot_ids) < N)%Z →
       select_shots shot_ids O N
       = Ok (option_list (Str.sorted shot_ids !! Z.to_nat O))).
Proof.
  intros HN HO.
  assert (select_shots shot_ids O N
    = Ok (every_nth_from (Z.to_nat O) (Z.to_nat N) (Str.sorted shot_ids)))
    as Hsel.
  { unfold select_shots.
    rewrite slice_from_step_positive, slice_positive_every_nth by lia. done. }
  split; [done|]. split; [apply Sorted_merge_sort; apply _|].
  split; [apply merge_sort_Permutation|]. split.
  - intros shot_ids' Hp. unfold select_shots. by rewrite (sorted_permutation _ _ Hp).
  - intros Hshort. rewrite Hsel. f_equal. apply every_nth_from_short; [|lia].
    unfold Str.sorted. rewrite merge_sort_Permutation. lia.
Qed.

Lemma select_shots_sorted_stride_witness :
  select_shots ["000003"; "000001"; "000004"; "000002"] 1 2
  = Ok (every_nth_from (Z.to_nat 1) (Z.to_nat 2)
          (Str.sorted ["000003"; "000001"; "000004"; "000002"]))
  ∧ Sorted String.le (Str.sorted ["000003"; "000001"; "000004"; "000002"])
  ∧ Str.sorted ["000003"; "000001"; "000004"; "000002"]
    ≡ₚ ["000003"; "000001"; "000004"; "000002"]
  ∧ (∀ shot_ids', shot_ids' ≡ₚ ["000003"; "000001"; "000004"; "000002"] →
       select_shots shot_ids' 1 2
       = select_shots ["000003"; "000001"; "000004"; "000002"] 1 2)
  ∧ ((Z.of_nat (length ["000003"; "000001"; "000004"; "000002"]) < 2)%Z →
       select_shots ["000003"; "000001"; "000004"; "000002"] 1 2
       = Ok (option_list
               (Str.sorted ["000003"; "000001"; "000004"; "000002"]
                  !! Z.to_nat 1))).
Proof.
  apply (select_shots_sorted_stride
           ["000003"; "000001"; "000004"; "000002"] 1 2); lia.
Defined.

Example select_shots_example :
  select_shots ["000003"; "000001"; "000004"; "000002"] 1 2
  = Ok ["000002"; "000004"].
Proof. by vm_compute. Qed.

(** ** Dictionaries and [group_by_shot] *)

Section dict_facts.
Context {V : Type}.
Implicit Types d : Dict.t V.

Lemma dict_get_set d k v k' :
  Dict.get (Dict.set d k v) k' = if decide (k = k') then Some v else Dict.get d k'.
Proof.
  induction d as [|[k0 v0] d IH]; simpl.
  - by destruct (decide (k = k')).
  - destruct (decide (k0 = k)) as [->|Hne]; simpl.
    + by destruct (decide (k = k')).
    + rewrite IH. destruct (decide (k0 = k')) as [->|]; [|done].
      by rewrite decide_False.
Qed.

Lemma dict_keys_get d k : k ∈ Dict.keys d ↔ is_Some (Dict.get d k).
Proof.
  unfold Dict.keys. induction d as [|[k0 v0] d IH]; simpl.
  - rewrite elem_of_nil. split; [done|]. by intros [? ?].
  - rewrite elem_of_cons, IH. destruct (decide (k0 = k)) as [->|Hne].
    + split; [by eexists|by left].
    + split; [by intros [->|?]|by right].
Qed.

End dict_facts.

Lemma group_step_get shots img_path k :
  Dict.get (group_step shots img_path) k
  = if decide (shot_of img_path = k)
    then Some (default [] (Dict.get shots k) ++ [img_path])
    else Dict.get shots k.
Proof.
  unfold group_step. rewrite dict_get_set.
  destruct (decide (shot_of img_path = k)) as [<-|Hne]; [|].
  - f_equal. f_equal. unfold Dict.mem. case_bool_decide as Hmem; [done|].
    rewrite dict_get_set, decide_True by done.
    by destruct (Dict.get shots (shot_of img_path)) eqn:Hg;
      [destruct Hmem; eexists|].
  - unfold Dict.mem. case_bool_decide; [done|].
    by rewrite dict_get_set, decide_False.
Qed.

Lemma foldl_group_step_get image_files : ∀ shots k,
  Dict.get (foldl group_step shots image_files) k
  = match Dict.get shots k, filter (λ p, shot_of p = k) image_files with
    | None, [] => None
    | o, imgs => Some (default [] o ++ imgs)
    end.
Proof.
  induction image_files as [|p image_files IH]; intros shots k; simpl.
  { destruct (Dict.get shots k); simpl; by rewrite ?app_nil_r. }
  rewrite IH, group_step_get.
  destruct (decide (shot_of p = k)) as [Hk|Hk].
  - rewrite filter_cons_True by done.
    destruct (Dict.get shots k); simpl; by rewrite <- ?(assoc_L (++)).
  - by rewrite filter_cons_False.
Qed.

(** The images of a shot are the files with its id, in the order found. *)
Lemma group_by_shot_get image_files k :
  Dict.get (group_by_shot image_files) k
  = match filter (λ p, shot_of p = k) image_files with
    | [] => None
    | imgs => Some imgs
    end.
Proof. unfold group_by_shot. by rewrite foldl_group_step_get. Qed.

Lemma group_by_shot_images image_files k imgs p :
  Dict.get (group_by_shot image_files) k = Some imgs →
  p ∈ imgs ↔ p ∈ image_files ∧ shot_of p = k.
Proof.
  rewrite group_by_shot_get.
  destruct (filter _ image_files) as [|q l] eqn:Hf; [done|].
  intros [= <-]. rewrite <- Hf, list_elem_of_filter. tauto.
Qed.

(** Every image is in the shot of its id. *)
Lemma group_by_shot_member image_files p :
  p ∈ image_files →
  ∃ imgs, Dict.get (group_by_shot image_files) (shot_of p) = Some imgs
          ∧ p ∈ imgs.
Proof.
  intros Hp. rewrite group_by_shot_get.
  destruct (filter _ image_files) as [|q l] eqn:Hf.
  - assert (p ∈ filter (λ p', shot_of p' = shot_of p) image_files) as Hin
      by by apply list_elem_of_filter.
    rewrite Hf in Hin. by apply elem_of_nil in Hin.
  - eexists. split; [done|]. rewrite <- Hf. by apply list_elem_of_filter.
Qed.

(** ** Paths and their strings *)

Lemma split_on_go_app c cur s t :
  Str.contains c s = false →
  Str.split_on_go c cur (s +:+ t) = Str.split_on_go c (cur +:+ s) t.
Proof.
  revert cur. induction s as [|a s IH]; intros cur Hs.
  { by rewrite str_app_nil_r. }
  simpl in Hs. apply orb_false_elim in Hs as [Ha Hs].
  apply bool_decide_eq_false in Ha.
  rewrite str_app_cons. simpl. rewrite decide_False by done.
  rewrite IH by done. f_equal.
  by rewrite str_app_assoc.
Qed.

Lemma split_on_join c (r : list string) :
  r ≠ [] → Forall (λ x, Str.contains c x = false) r →
  Str.split_on c (Str.join (String c "") r) = r.
Proof.
  intros Hr Hall. unfold Str.split_on.
  induction r as [|x r IH]; [done|].
  apply Forall_cons in Hall as [Hx Hall].
  destruct r as [|y r].
  - simpl. rewrite <- (str_app_nil_r x) at 1.
    by rewrite split_on_go_app.
  - change (Str.join (String c "") (x :: y :: r))
      with (x +:+ String c (Str.join (String c "") (y :: r))).
    rewrite split_on_go_app by done. simpl.
    rewrite decide_True by done. f_equal. by apply IH.
Qed.

(** A path is read back from its string. *)
Lemma parse_str (r : path) : Forall wf_part r → Path.parse (Path.str r) = r.
Proof.
  intros Hwf. destruct r as [|x r]; [done|].
  unfold Path.parse, Path.str. rewrite (split_on_join "/").
  - generalize (x :: r) Hwf. clear. intros r Hwf.
    induction Hwf as [|c r (Hc1 & Hc2 & _) _ IH]; [done|].
    rewrite filter_cons_True by done. by rewrite IH.
  - done.
  - eapply Forall_impl; [done|]. by intros c (_ & _ & Hc).
Qed.

Lemma rel_str_inj images_dir p q :
  images_dir `prefix_of` p → images_dir `prefix_of` q →
  Forall wf_part p → Forall wf_part q →
  rel_str images_dir p = rel_str images_dir q → p = q.
Proof.
  intros [r ->] [r' ->] Hp Hq. unfold rel_str.
  rewrite !drop_app_length. intros Heq.
  apply Forall_app in Hp as [_ Hr]. apply Forall_app in Hq as [_ Hr'].
  apply (f_equal Path.parse) in Heq. rewrite !parse_str in Heq by done.
  by rewrite Heq.
Qed.

(** ** C9: a shot is selected whole *)

(** A slice holds elements of the list. *)
Lemma slice_from_step_subseteq {A} (l sel : list A) start step :
  slice_from_step l start step = Ok sel → sel ⊆ l.
Proof.
  unfold slice_from_step.
  destruct (decide (step = 0)%Z); [done|].
  destruct (decide (0 < step)%Z); intros [= <-];
    intros x (k & _ & Hk)%list_elem_of_omap; by eapply list_elem_of_lookup_2.
Qed.

(** A slice with a step other than 0 raises nothing. *)
Lemma slice_from_step_ok {A} (l : list A) start step :
  step ≠ 0%Z → ∃ sel, slice_from_step l start step = Ok sel.
Proof.
  intros Hstep. unfold slice_from_step. rewrite decide_False by done.
  case_decide; by eexists.
Qed.

Section selected.
Context (images_dir : path).

Lemma add_shot_images_ok imgs : ∀ rel names,
  Forall (λ p, images_dir `prefix_of` p) imgs →
  add_shot_images images_dir (rel, names) imgs
  = Ok (list_to_set (rel_str images_dir <$> imgs) ∪ rel,
        list_to_set (Path.name <$> imgs) ∪ names).
Proof.
  unfold add_shot_images.
  induction imgs as [|p imgs IH]; intros rel names Hall; simpl.
  { f_equal. f_equal; set_solver. }
  apply Forall_cons in Hall as [Hp Hall].
  unfold Path.relative_to at 2. rewrite decide_True by done. simpl.
  rewrite IH by done. f_equal. unfold rel_str. f_equal; set_solver.
Qed.

Lemma selected_images_ok shots selected_shots :
  (∀ shot, shot ∈ selected_shots →
     ∃ imgs, Dict.get shots shot = Some imgs
             ∧ Forall (λ p, images_dir `prefix_of` p) imgs) →
  ∃ rel names,
    selected_images images_dir shots selected_shots = Ok (rel, names)
    ∧ (∀ x, x ∈ rel ↔
         ∃ shot imgs p, shot ∈ selected_shots
           ∧ Dict.get shots shot = Some imgs ∧ p ∈ imgs
           ∧ x = rel_str images_dir p)
    ∧ (∀ x, x ∈ names ↔
         ∃ shot imgs p, shot ∈ selected_shots
           ∧ Dict.get shots shot = Some imgs ∧ p ∈ imgs
           ∧ x = Path.name p).
Proof.
  unfold selected_images.
  assert (∀ rel0 names0,
    (∀ shot, shot ∈ selected_shots →
       ∃ imgs, Dict.get shots shot = Some imgs
               ∧ Forall (λ p, images_dir `prefix_of` p) imgs) →
    ∃ rel names,
      foldl (λ racc shot,
          acc ← racc; imgs ← Dict.getitem shots shot;
          add_shot_images images_dir acc imgs)
        (Ok (rel0, names0)) selected_shots = Ok (rel, names)
      ∧ (∀ x, x ∈ rel ↔ x ∈ rel0 ∨
           ∃ shot imgs p, shot ∈ selected_shots
             ∧ Dict.get shots shot = Some imgs ∧ p ∈ imgs
             ∧ x = rel_str images_dir p)
      ∧ (∀ x, x ∈ names ↔ x ∈ names0 ∨
           ∃ shot imgs p, shot ∈ selected_shots
             ∧ Dict.get shots shot = Some imgs ∧ p ∈ imgs
             ∧ x = Path.name p)) as Hgen.
  { induction selected_shots as [|shot sel IH]; intros rel0 names0 Hsel.
    - eexists _, _. split; [done|].
      split; intros x; (split; [by left|]);
        by intros [?|(? & ? & ? & []%elem_of_nil & _)].
    - destruct (Hsel shot ltac:(by left)) as (imgs & Hget & Himgs). simpl.
      unfold Dict.getitem at 2. rewrite Hget. simpl.
      rewrite add_shot_images_ok by done.
      destruct (IH (list_to_set (rel_str images_dir <$> imgs) ∪ rel0)
                  (list_to_set (Path.name <$> imgs) ∪ names0))
        as (rel & names & -> & Hrel & Hnames).
      { intros s Hs. apply Hsel. by right. }
      eexists _, _. split; [done|].
      split; intros x; [rewrite Hrel|rewrite Hnames];
        rewrite elem_of_union, elem_of_list_to_set, list_elem_of_fmap.
      + split.
        * intros [[(p & -> & Hp)|?]|(s & i & p & Hs & ?)]; [right|by left|right].
          -- exists shot, imgs, p. split; [by left|done].
          -- exists s, i, p. split; [by right|done].
        * intros [?|(s & i & p & [->|Hs]%elem_of_cons & Hg & Hp & ->)].
          -- left. by right.
          -- left. left. exists p. split; [done|]. congruence.
          -- right. by exists s, i, p.
      + split.
        * intros [[(p & -> & Hp)|?]|(s & i & p & Hs & ?)]; [right|by left|right].
          -- exists shot, imgs, p. split; [by left|done].
          -- exists s, i, p. split; [by right|done].
        * intros [?|(s & i & p & [->|Hs]%elem_of_cons & Hg & Hp & ->)].
          -- left. by right.
          -- left. left. exists p. split; [done|]. congruence.
          -- right. by exists s, i, p. }
  intros Hsel. destruct (Hgen ∅ ∅ Hsel) as (rel & names & Heq & Hrel & Hnames).
  exists rel, names. split; [done|].
  split; intros x; [rewrite Hrel|rewrite Hnames]; set_solver.
Qed.

End selected.



Example selected_images_example :
  selected_images ["data"; "images"] (group_by_shot Example.images.*1)
    ["000001"; "000003"]
  = Ok ({[ "000001_0.png"; "000001_1.png"; "000003_0.png" ]},
        {[ "000001_0.png"; "000001_1.png"; "000003_0.png" ]}).
Proof. by vm_compute. Qed.

(** ** C7: no images *)

(** C7: when no image is found the run ends with exit status 1 and the file
    system as it was, so without any output directory; when the source and
    its image directory exist, the last thing it says is that no images
    were found. *)
Theorem main_no_images scan_order args w :
  let images_dir := Path.joinpath (source args) "images" in
  find_images scan_order (w_fs w) images_dir = [] →
  (main scan_order args w).1 = Abort (SysExit 1)
  ∧ w_fs (main scan_order args w).2 = w_fs w
  ∧ (Fs.exists_ (w_fs w) (source args) = true →
     Fs.exists_ (w_fs w) images_dir = true →
     w_console (main scan_order args w).2
     = w_console w ++ [MsgScanning images_dir; ErrNoImages]).
Proof.
  intros images_dir Hnone. unfold main. rewrite bind_ask.
  destruct (Fs.exists_ (w_fs w) (source args)) eqn:Hsrc; cbv beta iota delta [negb];
    [|by rewrite bind_print].
  rewrite bind_ask. fold images_dir.
  destruct (Fs.exists_ (w_fs w) images_dir) eqn:Himg; cbv beta iota delta [negb];
    [|by rewrite bind_print].
  rewrite bind_print, bind_ask. simpl w_fs. rewrite Hnone.
  rewrite decide_True by done. rewrite bind_print. simpl.
  by rewrite <- (assoc_L (++)).
Qed.

Lemma main_no_images_witness :
  (main id (Example.args 4 0) (World Example.fs_empty [])).1
  = Abort (SysExit 1)
  ∧ w_fs (main id (Example.args 4 0) (World Example.fs_empty [])).2
    = Example.fs_empty
  ∧ (Fs.exists_ Example.fs_empty ["data"] = true →
     Fs.exists_ Example.fs_empty ["data"; "images"] = true →
     w_console (main id (Example.args 4 0) (World Example.fs_empty [])).2
     = [] ++ [MsgScanning ["data"; "images"]; ErrNoImages]).
Proof.
  apply (main_no_images id (Example.args 4 0) (World Example.fs_empty [])).
  by vm_compute.
Defined.

(** ** C5: the stride and the offset *)




(** ** The file system operations *)

Lemma joinpath_part (p : path) (c : string) :
  wf_part c → Path.joinpath p c = p ++ [c].
Proof.
  intros Hc. unfold Path.joinpath. f_equal.
  by apply (parse_str [c]), Forall_singleton.
Qed.

Lemma is_dir_true fs p : Fs.is_dir fs p = true ↔ p = [] ∨ fs !! p = Some Dir.
Proof.
  unfold Fs.is_dir. rewrite orb_true_iff, !bool_decide_eq_true. done.
Qed.

Lemma exists_true fs p : Fs.exists_ fs p = true ↔ p = [] ∨ is_Some (fs !! p).
Proof.
  unfold Fs.exists_. rewrite orb_true_iff, !bool_decide_eq_true. done.
Qed.

(** [mkdir_go] makes a directory of every path from [done] (excluded) down
    to [done ++ todo], and changes nothing else. *)
Lemma mkdir_go_spec todo : ∀ fs done,
  (∀ r content, r ≠ [] → r `prefix_of` todo →
     fs !! (done ++ r) ≠ Some (File content)) →
  ∃ fs', Fs.mkdir_go fs done todo = Ok fs'
    ∧ (∀ r, r ≠ [] → r `prefix_of` todo → fs' !! (done ++ r) = Some Dir)
    ∧ (∀ q, (∀ r, r ≠ [] → r `prefix_of` todo → q ≠ done ++ r) →
         fs' !! q = fs !! q).
Proof.
  induction todo as [|c todo IH]; intros fs done Hfiles.
  { exists fs. split; [done|]. split; [|done].
    intros r Hr Hpre%prefix_nil_inv. done. }
  simpl.
  assert (∀ r, r ≠ [] → r `prefix_of` c :: todo →
            ∃ r', r = c :: r' ∧ r' `prefix_of` todo) as Hcases.
  { intros [|c' r'] Hr Hpre; [done|].
    pose proof (prefix_cons_inv_1 _ _ _ _ Hpre) as ->.
    apply prefix_cons_inv_2 in Hpre. by exists r'. }
  assert (∀ fs0 : gmap path node,
    (∀ r content, r ≠ [] → r `prefix_of` todo →
       fs0 !! ((done ++ [c]) ++ r) ≠ Some (File content)) →
    fs0 !! (done ++ [c]) = Some Dir →
    (∀ q, q ≠ done ++ [c] → fs0 !! q = fs !! q) →
    ∃ fs', Fs.mkdir_go fs0 (done ++ [c]) todo = Ok fs'
      ∧ (∀ r, r ≠ [] → r `prefix_of` c :: todo → fs' !! (done ++ r) = Some Dir)
      ∧ (∀ q, (∀ r, r ≠ [] → r `prefix_of` c :: todo → q ≠ done ++ r) →
           fs' !! q = fs !! q)) as Hstep.
  { intros fs0 Hf0 Hdir Hsame.
    destruct (IH fs0 (done ++ [c]) Hf0) as (fs' & Hgo & Hdirs & Hframe).
    exists fs'. split; [done|]. split.
    - intros r Hr Hpre. destruct (Hcases r Hr Hpre) as (r' & -> & Hpre').
      destruct (decide (r' = [])) as [->|Hr'].
      + rewrite Hframe; [done|]. intros r0 Hr0 _ Heq.
        apply (f_equal length) in Heq. rewrite !length_app in Heq.
        destruct r0; simpl in *; [done|lia].
      + rewrite (cons_middle c done r'), (assoc_L (++)). by apply Hdirs.
    - intros q Hq. rewrite Hframe.
      + apply Hsame. apply (Hq [c]); [done|]. by apply prefix_cons, prefix_nil.
      + intros r Hr Hpre. rewrite <- (assoc_L (++)). apply Hq; [done|].
        by apply prefix_cons. }
  destruct (fs !! (done ++ [c])) as [[content|]|] eqn:Hq.
  - destruct (Hfiles [c] content); [done|by apply prefix_cons, prefix_nil|done].
  - apply Hstep; [|done..].
    intros r content Hr Hpre. rewrite <- (assoc_L (++)).
    apply Hfiles; [done|by apply prefix_cons].
  - apply Hstep.
    + intros r content Hr Hpre. rewrite lookup_insert_ne.
      * rewrite <- (assoc_L (++)). apply Hfiles; [done|by apply prefix_cons].
      * intros Heq. apply (f_equal length) in Heq. rewrite !length_app in Heq.
        destruct r; simpl in *; [done|lia].
    + by rewrite lookup_insert_eq.
    + intros q Hne. by rewrite lookup_insert_ne.
Qed.

(** [mkdir_parents] makes a directory of every part of the way to [p] when
    no file lies on it, and changes nothing else. *)
Lemma mkdir_parents_spec fs p :
  (∀ q content, q `prefix_of` p → fs !! q ≠ Some (File content)) →
  ∃ fs', Fs.mkdir_parents fs p = Ok fs'
    ∧ ∀ q, fs' !! q = if decide (q ≠ [] ∧ q `prefix_of` p) then Some Dir
                      else fs !! q.
Proof.
  intros Hfiles.
  destruct (mkdir_go_spec p fs []) as (fs' & Hgo & Hdirs & Hframe).
  { intros r content _ Hpre. by apply Hfiles. }
  exists fs'. split; [done|]. intros q. case_decide as Hq.
  - destruct Hq. by apply (Hdirs q).
  - apply Hframe. intros r Hr Hpre ->. by apply Hq.
Qed.

(** [copy2] of a file to a place that is no directory, in a directory. *)
Lemma copy2_file fs src dst content :
  fs !! src = Some (File content) → src ≠ dst →
  Fs.is_dir fs dst = false → Fs.is_dir fs (Path.parent dst) = true →
  Fs.copy2 fs src dst = Ok (<[dst:=File content]> fs).
Proof.
  intros Hsrc Hne Hdst Hpar. unfold Fs.copy2.
  rewrite Hdst, decide_False, Hsrc, Hdst, Hpar by done. done.
Qed.

(** ** Trees and datasets *)

Lemma parent_snoc (p : path) (c : string) : Path.parent (p ++ [c]) = p.
Proof. apply removelast_last. Qed.

(** In a tree, what lies above something that exists is a directory. *)
Lemma tree_above fs (a b : path) n :
  tree fs → fs !! (a ++ b) = Some n → a ≠ [] → b ≠ [] → fs !! a = Some Dir.
Proof.
  intros Htree. revert n. induction b as [|c b IH] using rev_ind; [done|].
  intros n Hn Ha _. rewrite (assoc_L (++)) in Hn.
  destruct (Htree _ _ Hn) as [_ Hpar]. rewrite parent_snoc in Hpar.
  apply is_dir_true in Hpar as [Hnil|Hdir].
  { by apply app_eq_nil in Hnil as [? _]. }
  destruct (decide (b = [])) as [->|Hb]; [by rewrite app_nil_r in Hdir|].
  by apply (IH Dir).
Qed.

Lemma elem_of_find_images scan_order fs images_dir p :
  (∀ l, scan_order l ≡ₚ l) →
  p ∈ find_images scan_order fs images_dir ↔
    images_dir `prefix_of` p ∧ p ≠ images_dir ∧ is_Some (fs !! p)
    ∧ ∃ ext, ext ∈ image_extensions ∧ Str.endswith ext (Path.name p) = true.
Proof.
  intros Hscan. unfold find_images.
  assert (∀ exts acc,
    p ∈ foldl (λ image_files ext, image_files ++ rglob scan_order fs images_dir ext)
          acc exts
    ↔ p ∈ acc ∨ ∃ ext, ext ∈ exts ∧ p ∈ rglob scan_order fs images_dir ext)
    as Hfold.
  { induction exts as [|ext exts IH]; intros acc; simpl.
    - split; [by left|]. by intros [?|(? & []%elem_of_nil & _)].
    - rewrite IH, elem_of_app. split.
      + intros [[?|?]|(e & ? & ?)]; [by left|right..].
        * exists ext. split; [by left|done].
        * exists e. split; [by right|done].
      + intros [?|(e & [->|?]%elem_of_cons & ?)]; [by left; left|by left; right|].
        right. by exists e. }
  rewrite Hfold, elem_of_nil.
  assert (∀ ext, p ∈ rglob scan_order fs images_dir ext ↔
            images_dir `prefix_of` p ∧ p ≠ images_dir ∧ is_Some (fs !! p)
            ∧ Str.endswith ext (Path.name p) = true) as Hglob.
  { intros ext. unfold rglob. rewrite Hscan, list_elem_of_filter.
    rewrite list_elem_of_fmap.
    split.
    - intros ((? & ? & ?) & [q n] & -> & Hq%elem_of_map_to_list). simpl in *.
      by repeat split.
    - intros (? & ? & [n Hn] & ?). split; [done|].
      exists (p, n). split; [done|]. by apply elem_of_map_to_list. }
  split.
  - intros [[]|(ext & Hext & (? & ? & ? & ?)%Hglob)]. repeat split; try done.
    by exists ext.
  - intros (? & ? & ? & ext & Hext & ?). right. exists ext. split; [done|].
    by apply Hglob.
Qed.

Section dataset_facts.
Context (scan_order : list path → list path) (fs0 : gmap path node)
  (args : Args) (Hds : dataset scan_order fs0 args).

Lemma ds_image_file p :
  p ∈ find_images scan_order fs0 (source args ++ ["images"]) →
  ∃ r content, p = (source args ++ ["images"]) ++ r ∧ r ≠ []
    ∧ fs0 !! p = Some (File content) ∧ Forall wf_part r.
Proof.
  intros Hp. destruct (ds_files _ _ _ Hds p Hp) as [content Hfile].
  apply elem_of_find_images in Hp as ([r ->] & Hne & _); [|apply Hds].
  exists r, content. repeat split; [|done|].
  - intros ->. by rewrite app_nil_r in Hne.
  - destruct (ds_tree _ _ _ Hds _ _ Hfile) as [Hwf _].
    by apply Forall_app in Hwf as [_ ?].
Qed.

Lemma ds_source_ne : source args ≠ [].
Proof. intros Hnil. apply (ds_outside _ _ _ Hds). rewrite Hnil. apply prefix_nil. Qed.

Lemma ds_images_dir : fs0 !! (source args ++ ["images"]) = Some Dir.
Proof.
  destruct (find_images scan_order fs0 (source args ++ ["images"]))
    as [|p l] eqn:Hfind; [by destruct (ds_images _ _ _ Hds)|].
  destruct (ds_image_file p) as (r & content & -> & Hr & Hfile & _).
  { rewrite Hfind. by left. }
  eapply tree_above; [apply Hds|done| |done].
  intros [? _]%app_eq_nil. by apply ds_source_ne.
Qed.

Lemma ds_source : fs0 !! source args = Some Dir.
Proof.
  eapply tree_above; [apply Hds|apply ds_images_dir|apply ds_source_ne|done].
Qed.

Lemma ds_source_wf : Forall wf_part (source args).
Proof. by destruct (ds_tree _ _ _ Hds _ _ ds_source). Qed.

(** Nothing of the source lies on the way to the output or below it. *)
Lemma ds_apart q r :
  source args `prefix_of` q → q `prefix_of` output args ++ r → False.
Proof.
  intros Hsq Hqo.
  assert (source args `prefix_of` output args ++ r) as Hso by by etrans.
  destruct (prefix_weak_total (source args) (output args) (output args ++ r))
    as [Hpre|Hpre]; [done|by apply prefix_app_r|by apply (ds_outside _ _ _ Hds)|].
  destruct (ds_fresh _ _ _ Hds) as (_ & Hnone & _).
  pose proof ds_source as Hsrc. by rewrite (Hnone _ Hpre) in Hsrc.
Qed.

Lemma ds_apart_below q :
  source args `prefix_of` q → output args `prefix_of` q → False.
Proof.
  intros Hsq Hoq.
  destruct (prefix_weak_total (source args) (output args) q)
    as [Hpre|Hpre]; [done..|by apply (ds_outside _ _ _ Hds)|].
  destruct (ds_fresh _ _ _ Hds) as (_ & Hnone & _).
  pose proof ds_source as Hsrc. by rewrite (Hnone _ Hpre) in Hsrc.
Qed.

End dataset_facts.

(** ** The output directories and the copy of the images *)

Lemma prefix_snoc_inv {A} (q l : list A) x :
  q `prefix_of` l ++ [x] → q `prefix_of` l ∨ q = l ++ [x].
Proof.
  intros [k Hk]. destruct k as [|y k _] using rev_ind.
  - right. by rewrite app_nil_r in Hk.
  - left. rewrite (assoc_L (++)) in Hk. apply app_inj_tail in Hk as [-> _].
    by apply prefix_app_r.
Qed.

Lemma prefix_app_same {A} (l k1 k2 : list A) :
  l ++ k1 `prefix_of` l ++ k2 → k1 `prefix_of` k2.
Proof.
  intros [k Hk]. rewrite <- (assoc_L (++)) in Hk.
  apply app_inv_head in Hk. by exists k.
Qed.

Lemma prefix_app_cases {A} (q l k : list A) :
  q `prefix_of` l ++ k →
  q `prefix_of` l ∨ ∃ k', k' ≠ [] ∧ k' `prefix_of` k ∧ q = l ++ k'.
Proof.
  revert q. induction k as [|x k IH] using rev_ind; intros q Hq.
  - left. by rewrite app_nil_r in Hq.
  - rewrite (assoc_L (++)) in Hq.
    apply prefix_snoc_inv in Hq as [Hq| ->].
    + destruct (IH q Hq) as [?|(k' & ? & ? & ->)]; [by left|right].
      exists k'. split; [done|]. split; [by apply prefix_app_r|done].
    + right. exists (k ++ [x]). split; [by intros [_ ?]%app_eq_nil|].
      by rewrite (assoc_L (++)).
Qed.

Section copy_phase.
Context (scan_order : list path → list path) (fs0 : gmap path node)
  (args : Args) (Hds : dataset scan_order fs0 args) (rel : gset string).

Abbreviation images_dir := (src_images args).
Abbreviation output_images := (out_images args).
Abbreviation output_sparse := (out_sparse args).
Abbreviation image_files := (find_images scan_order fs0 images_dir).

(** The file system once the two output directories are made. *)
Lemma mkdirs_spec :
  ∃ fsa fs1,
    Fs.mkdir_parents fs0 output_images = Ok fsa
    ∧ Fs.mkdir_parents fsa output_sparse = Ok fs1
    ∧ ∀ q, fs1 !! q
           = if decide (q ≠ [] ∧ (q `prefix_of` output_images
                                  ∨ q `prefix_of` output_sparse))
             then Some Dir else fs0 !! q.
Proof.
  destruct (ds_fresh _ _ _ Hds) as (_ & Hnone & Hnofile).
  assert (∀ r, fs0 !! (output args ++ r) = None) as Hbelow.
  { intros r. apply Hnone. by exists r. }
  destruct (mkdir_parents_spec fs0 output_images) as (fsa & Ha & Hfsa).
  { intros q content [Hq| ->]%prefix_snoc_inv; [by apply Hnofile|].
    by rewrite Hbelow. }
  destruct (mkdir_parents_spec fsa output_sparse) as (fs1 & H1 & Hfs1).
  { intros q content Hq. rewrite Hfsa. case_decide; [done|].
    change ["sparse"; "0"] with (["sparse"] ++ ["0"]) in Hq.
    rewrite (assoc_L (++)) in Hq.
    apply prefix_snoc_inv in Hq as [[Hq| ->]%prefix_snoc_inv| ->];
      [by apply Hnofile|rewrite <- ?(assoc_L (++)), Hbelow; done..]. }
  exists fsa, fs1. split; [done|]. split; [done|].
  intros q. rewrite Hfs1, Hfsa.
  destruct (decide (q ≠ [] ∧ q `prefix_of` output_sparse)) as [[? ?]|Hs].
  { rewrite decide_True; [done|]. split; [done|by right]. }
  destruct (decide (q ≠ [] ∧ q `prefix_of` output_images)) as [[? ?]|Hi].
  { rewrite decide_True; [done|]. split; [done|by left]. }
  rewrite decide_False; [done|]. intros [? [?|?]]; [by apply Hi|by apply Hs].
Qed.

Lemma copying_init fs1 :
  (∀ q, fs1 !! q
        = if decide (q ≠ [] ∧ (q `prefix_of` output_images
                               ∨ q `prefix_of` output_sparse))
          then Some Dir else fs0 !! q) →
  copying fs0 fs1 images_dir output_images rel fs1.
Proof.
  intros Hfs1. destruct (ds_fresh _ _ _ Hds) as (_ & Hnone & _).
  assert (∀ r, r ≠ [] → fs1 !! (output_images ++ r) = None) as Hbelow.
  { intros r Hr. rewrite Hfs1, decide_False.
    - apply Hnone. rewrite <- (assoc_L (++)). by eexists.
    - intros [_ [Hpre|Hpre]].
      + apply prefix_length in Hpre. rewrite length_app in Hpre.
        destruct r; simpl in *; [done|lia].
      + rewrite <- (assoc_L (++)) in Hpre. apply prefix_app_same in Hpre.
        simpl in Hpre. by apply prefix_cons_inv_1 in Hpre. }
  assert (fs1 !! output_images = Some Dir) as Hdir.
  { rewrite Hfs1, decide_True; [done|]. split; [|by left].
    intros [_ ?]%app_eq_nil. done. }
  split; [done|]. split; [done|]. split.
  - intros r n Hr. by rewrite Hbelow.
  - intros r content. destruct (decide (r = [])) as [->|Hr].
    + by rewrite app_nil_r, Hdir.
    + by rewrite Hbelow.
Qed.

Context (fs1 : gmap path node)
  (Hfs1 : ∀ q, fs1 !! q
          = if decide (q ≠ [] ∧ (q `prefix_of` output_images
                                 ∨ q `prefix_of` output_sparse))
            then Some Dir else fs0 !! q).

(** The source is as it was once the output directories are made. *)
Lemma mkdirs_source q : source args `prefix_of` q → fs1 !! q = fs0 !! q.
Proof.
  intros Hq. rewrite Hfs1, decide_False; [done|].
  intros [_ [Hpre|Hpre]]; by eapply (ds_apart _ _ _ Hds).
Qed.

(** One turn of the copy loop. *)
Lemma copy_one fs console x p :
  copying fs0 fs1 images_dir output_images rel fs →
  p ∈ image_files → x = rel_str images_dir p → x ∈ rel →
  ∃ fs',
    (update (λ fs, Fs.mkdir_parents fs
                     (Path.parent (Path.joinpath output_images x)));;
     update (λ fs, Fs.copy2 fs (Path.joinpath images_dir x)
                     (Path.joinpath output_images x)))
      (World fs console)
    = (Done (), World fs' console)
    ∧ copying fs0 fs1 images_dir output_images rel fs'
    ∧ (∀ q, is_Some (fs !! q) → is_Some (fs' !! q))
    ∧ is_Some (fs' !! (output_images ++ drop (length images_dir) p)).
Proof.
  intros (Hout & Hdir & Hsub & Hsel) Hp Hx Hxrel.
  destruct (ds_image_file _ _ _ Hds p Hp) as (r & content & -> & Hr & Hfile & Hwf).
  unfold rel_str in Hx. rewrite drop_app_length in *.
  unfold Path.joinpath. rewrite Hx, parse_str by done.
  rewrite Hx in Hxrel. clear x Hx.
  unfold Path.parent. rewrite removelast_app by done.
  destruct (ds_fresh _ _ _ Hds) as (_ & Hnone & Hnofile).
  assert (∀ k, k `prefix_of` removelast r →
            fs0 !! (images_dir ++ k) = Some Dir) as Habove.
  { intros k [j Hj].
    eapply (tree_above _ _ (j ++ [List.last r ""]));
      [apply Hds| |by intros [[_ ?]%app_eq_nil _]%app_eq_nil
       |by intros [_ ?]%app_eq_nil].
    rewrite <- (assoc_L (++) images_dir), (assoc_L (++) k), <- Hj.
    by rewrite <- (app_removelast_last (l:=r) "" Hr). }
  assert (∀ q, source args `prefix_of` q → fs !! q = fs0 !! q) as Hsource.
  { intros q Hq. rewrite Hout, mkdirs_source; [done..|].
    intros Hpre. apply (ds_apart_below _ _ _ Hds q); [done|].
    etrans; [|done]. by eexists. }
  destruct (mkdir_parents_spec fs (output_images ++ removelast r))
    as (fsm & Hmk & Hfsm).
  { intros q c Hq Hqf.
    destruct (prefix_app_cases _ _ _ Hq) as [Hpre|(k & Hk & Hkpre & ->)].
    - destruct (decide (q = output_images)) as [->|Hne]; [congruence|].
      rewrite Hout, Hfs1 in Hqf.
      + case_decide as Hdec; [done|]. apply (Hnofile q c); [|done].
        destruct (decide (q = [])) as [->|?]; [apply prefix_nil|].
        destruct Hdec. split; [done|by left].
      + intros Hpre'. apply Hne. by apply (anti_symm prefix).
    - apply Hsub in Hqf; [|done]. rewrite Habove in Hqf by done. done. }
  rewrite bind_unfold. unfold update at 1. simpl w_fs. rewrite Hmk.
  assert (fsm !! (images_dir ++ r) = Some (File content)) as Hsrc.
  { rewrite Hfsm, decide_False.
    - rewrite Hsource; [done|]. rewrite <- (assoc_L (++)). by eexists.
    - intros [_ Hpre]. rewrite <- !(assoc_L (++)) in Hpre.
      eapply (ds_apart _ _ _ Hds); [|done]. by eexists. }
  assert (fsm !! (output_images ++ r) ≠ Some Dir) as Hdst.
  { rewrite Hfsm, decide_False.
    - intros Hd. apply Hsub in Hd; [|done]. congruence.
    - intros [_ Hpre%prefix_app_same%prefix_length].
      rewrite (app_removelast_last (l:=r) "" Hr) in Hpre at 1.
      rewrite length_app in Hpre. simpl in Hpre. lia. }
  assert (fsm !! (output_images ++ removelast r) = Some Dir) as Hpar.
  { rewrite Hfsm, decide_True; [done|]. split; [|done].
    intros [[_ ?]%app_eq_nil _]%app_eq_nil. done. }
  unfold update. simpl w_fs. simpl w_console.
  rewrite (copy2_file _ _ _ content); [|done| | |].
  - eexists. split; [done|]. split; [|split].
    + split; [|split; [|split]].
      * intros q Hq. rewrite lookup_insert_ne by (intros <-; apply Hq; by eexists).
        rewrite Hfsm. case_decide as Hdec; [|by apply Hout].
        destruct Hdec as [Hne Hpre].
        destruct (prefix_app_cases _ _ _ Hpre) as [Hpre'|(k & Hk & Hkpre & ->)].
        -- rewrite Hfs1, decide_True; [done|]. split; [done|by left].
        -- destruct Hq. by eexists.
      * rewrite lookup_insert_ne.
        -- rewrite Hfsm. case_decide; done.
        -- intros Heq. apply (f_equal length) in Heq.
           rewrite length_app in Heq. destruct r; simpl in *; [done|lia].
      * intros r0 n Hr0. destruct (decide (r0 = r)) as [->|Hne].
        -- rewrite lookup_insert_eq. by intros [= <-].
        -- rewrite lookup_insert_ne by (by intros ?%app_inv_head).
           rewrite Hfsm. case_decide as Hdec; [|by apply Hsub].
           intros [= <-]. destruct Hdec as [_ Hpre%prefix_app_same].
           by apply Habove.
      * intros r0 c. destruct (decide (r0 = r)) as [->|Hne]; [done|].
        rewrite lookup_insert_ne by (by intros ?%app_inv_head).
        rewrite Hfsm. case_decide; [done|]. apply Hsel.
    + intros q Hq. destruct (decide (q = output_images ++ r)) as [->|Hne].
      * by rewrite lookup_insert_eq.
      * rewrite lookup_insert_ne by done. rewrite Hfsm. by case_decide.
    + by rewrite lookup_insert_eq.
  - intros Heq. apply (ds_apart_below _ _ _ Hds (images_dir ++ r)).
    + rewrite <- (assoc_L (++)). by eexists.
    + rewrite Heq, <- (assoc_L (++)). by eexists.
  - apply not_true_is_false. intros [Hnil|?]%is_dir_true; [|done].
    apply app_eq_nil in Hnil as [_ ?]. done.
  - unfold Path.parent. rewrite removelast_app by done.
    apply is_dir_true. by right.
Qed.

(** The copy loop over any list of selected paths. *)
Lemma copy_loop (xs : list string) : ∀ fs console,
  copying fs0 fs1 images_dir output_images rel fs →
  (∀ x, x ∈ xs → x ∈ rel ∧ ∃ p, p ∈ image_files ∧ x = rel_str images_dir p) →
  ∃ fs',
    for_each xs (λ img_rel,
      update (λ fs, Fs.mkdir_parents fs
                      (Path.parent (Path.joinpath output_images img_rel)));;
      update (λ fs, Fs.copy2 fs (Path.joinpath images_dir img_rel)
                      (Path.joinpath output_images img_rel)))
      (World fs console)
    = (Done (), World fs' console)
    ∧ copying fs0 fs1 images_dir output_images rel fs'
    ∧ (∀ q, is_Some (fs !! q) → is_Some (fs' !! q))
    ∧ (∀ x p, x ∈ xs → p ∈ image_files → x = rel_str images_dir p →
         is_Some (fs' !! (output_images ++ drop (length images_dir) p))).
Proof.
  induction xs as [|x xs IH]; intros fs console Hcopying Hxs.
  { exists fs. split; [done|]. split; [done|]. split; [done|].
    by intros x p ?%elem_of_nil. }
  destruct (Hxs x ltac:(by left)) as (Hx & p & Hp & Hxp).
  destruct (copy_one fs console x p Hcopying Hp Hxp Hx)
    as (fsx & Hrun & Hcopying' & Hmono & Hdone).
  destruct (IH fsx console Hcopying') as (fs' & Hrest & Hcopying'' & Hmono' & Hdone').
  { intros y Hy. apply Hxs. by right. }
  exists fs'. split; [|split; [done|split]].
  - change (for_each (x :: xs) ?body) with (body x ;; for_each xs body).
    rewrite bind_unfold, Hrun. exact Hrest.
  - intros q Hq. by apply Hmono', Hmono.
  - intros y q [->|Hy]%elem_of_cons Hq Hyq.
    + apply Hmono'. rewrite Hxp in Hyq.
      destruct (ds_image_file _ _ _ Hds p Hp) as (r & _ & Hpr & _ & _ & Hwf).
      destruct (ds_image_file _ _ _ Hds q Hq) as (r' & _ & Hqr & _ & _ & Hwf').
      assert (q = p) as ->; [|done].
      apply (rel_str_inj images_dir); [by subst; eexists..| | |done].
      * subst q. apply Forall_app. split; [|done]. apply Forall_app.
        split; [apply (ds_source_wf _ _ _ Hds)|].
        apply Forall_singleton. by repeat split.
      * subst p. apply Forall_app. split; [|done]. apply Forall_app.
        split; [apply (ds_source_wf _ _ _ Hds)|].
        apply Forall_singleton. by repeat split.
    + by apply (Hdone' y).
Qed.

(** The copy of the selected images. *)
Lemma copy_images_run console :
  (∀ x, x ∈ rel → ∃ p, p ∈ image_files ∧ x = rel_str images_dir p) →
  ∃ fs2,
    copy_images images_dir output_images rel (World fs1 console)
    = (Done (), World fs2 console)
    ∧ copying fs0 fs1 images_dir output_images rel fs2
    ∧ (∀ p, p ∈ image_files → rel_str images_dir p ∈ rel →
         fs2 !! (output_images ++ drop (length images_dir) p) = fs0 !! p).
Proof.
  intros Hrel. unfold copy_images.
  destruct (copy_loop (Str.sorted (elements rel)) fs1 console)
    as (fs2 & Hrun & Hcopying & _ & Hdone).
  { by apply copying_init. }
  { intros x Hx. unfold Str.sorted in Hx.
    rewrite merge_sort_Permutation, elem_of_elements in Hx. auto. }
  exists fs2. split; [done|]. split; [done|].
  intros p Hp Hprel.
  destruct (Hdone (rel_str images_dir p) p) as [n Hn]; [|done..|].
  { unfold Str.sorted. by rewrite merge_sort_Permutation, elem_of_elements. }
  rewrite Hn.
  destruct (ds_image_file _ _ _ Hds p Hp) as (r & content & -> & Hr & _).
  rewrite drop_app_length in Hn.
  destruct Hcopying as (_ & _ & Hsub & _). symmetry. by apply Hsub.
Qed.

End copy_phase.

(** ** The run of [main] up to the copy of the images *)

(** The selection and the selected images, in terms of the files found. *)
Lemma selected_of_files images_dir (image_files : list path) offset keep_every :
  keep_every ≠ 0%Z →
  Forall (λ p, images_dir `prefix_of` p) image_files →
  ∃ selected_shots rel names,
    slice_from_step (Str.sorted (Dict.keys (group_by_shot image_files)))
      offset keep_every = Ok selected_shots
    ∧ selected_images images_dir (group_by_shot image_files) selected_shots
      = Ok (rel, names)
    ∧ (∀ x, x ∈ rel ↔ ∃ p, p ∈ image_files ∧ shot_of p ∈ selected_shots
                           ∧ x = rel_str images_dir p)
    ∧ (∀ x, x ∈ names ↔ ∃ p, p ∈ image_files ∧ shot_of p ∈ selected_shots
                             ∧ x = Path.name p).
Proof.
  intros Hstep Hfiles.
  destruct (slice_from_step_ok
              (Str.sorted (Dict.keys (group_by_shot image_files)))
              offset keep_every Hstep) as [selected_shots Hsel].
  destruct (selected_images_ok images_dir (group_by_shot image_files)
              selected_shots) as (rel & names & Hrel & Hin & Hnames).
  { intros shot Hshot.
    apply (slice_from_step_subseteq _ _ _ _ Hsel) in Hshot.
    unfold Str.sorted in Hshot. rewrite merge_sort_Permutation in Hshot.
    apply dict_keys_get in Hshot as [imgs Hget]. exists imgs. split; [done|].
    apply Forall_forall. intros p Hp.
    apply (group_by_shot_images _ _ _ _ Hget) in Hp as [Hp _].
    by apply (proj1 (Forall_forall _ _) Hfiles). }
  exists selected_shots, rel, names. split; [done|]. split; [done|].
  split; intros x; [rewrite Hin|rewrite Hnames]; split.
  - intros (shot & imgs & p & Hshot & Hget & Hp & ->).
    apply (group_by_shot_images _ _ _ _ Hget) in Hp as [Hp <-]. by exists p.
  - intros (p & Hp & Hshot & ->).
    destruct (group_by_shot_member _ _ Hp) as (imgs & Hget & Hpi).
    by exists (shot_of p), imgs, p.
  - intros (shot & imgs & p & Hshot & Hget & Hp & ->).
    apply (group_by_shot_images _ _ _ _ Hget) in Hp as [Hp <-]. by exists p.
  - intros (p & Hp & Hshot & ->).
    destruct (group_by_shot_member _ _ Hp) as (imgs & Hget & Hpi).
    by exists (shot_of p), imgs, p.
Qed.

Lemma wf_part_literal (c : string) :
  c ≠ "" → c ≠ "." → Str.contains "/" c = false → wf_part c.
Proof. by repeat split. Qed.

Local Ltac solve_part := apply wf_part_literal; by vm_compute.

Section main_run.
Context (scan_order : list path → list path) (fs0 : gmap path node)
  (args : Args) (Hds : dataset scan_order fs0 args)
  (Hstride : keep_every args ≠ 0%Z).

Abbreviation image_files := (find_images scan_order fs0 (src_images args)).

Lemma main_copy_phase console :
  ∃ selected_shots rel names fs2,
    select_shots (Dict.keys (group_by_shot image_files))
      (offset args) (keep_every args) = Ok selected_shots
    ∧ selected_images (src_images args) (group_by_shot image_files)
        selected_shots = Ok (rel, names)
    ∧ (∀ x, x ∈ rel ↔ ∃ p, p ∈ image_files ∧ shot_of p ∈ selected_shots
                           ∧ x = rel_str (src_images args) p)
    ∧ (∀ x, x ∈ names ↔ ∃ p, p ∈ image_files ∧ shot_of p ∈ selected_shots
                             ∧ x = Path.name p)
    ∧ main scan_order args (World fs0 console)
      = process_colmap args rel names
          (World fs2
             (console ++ copy_report args image_files selected_shots rel))
    ∧ (∀ q, ¬ out_images args `prefix_of` q →
         fs2 !! q = if decide (q ≠ [] ∧ (q `prefix_of` out_images args
                                         ∨ q `prefix_of` out_sparse args))
                    then Some Dir else fs0 !! q)
    ∧ (∀ r content, fs2 !! (out_images args ++ r) = Some (File content) →
         Path.str r ∈ rel ∧ fs0 !! (src_images args ++ r) = Some (File content))
    ∧ (∀ p, p ∈ image_files → rel_str (src_images args) p ∈ rel →
         fs2 !! (out_images args ++ drop (length (src_images args)) p)
         = fs0 !! p).
Proof.
  destruct (selected_of_files (src_images args) image_files
              (offset args) (keep_every args) Hstride)
    as (selected_shots & rel & names & Hsel & Himgs & Hrel & Hnames).
  { apply Forall_forall. intros p Hp.
    by apply elem_of_find_images in Hp as (? & _); [|apply Hds]. }
  destruct (mkdirs_spec _ _ _ Hds) as (fsa & fs1 & Hmka & Hmk1 & Hfs1).
  destruct (copy_images_run _ _ _ Hds rel fs1 Hfs1
              (console ++ [MsgScanning (src_images args); MsgStatistics;
                 MsgTotalImages (length image_files);
                 MsgTotalShots
                   (length (Str.sorted (Dict.keys (group_by_shot image_files))));
                 MsgImagesPerShot
                   (length image_files
                    `div` length (Str.sorted
                                    (Dict.keys (group_by_shot image_files))));
                 MsgSubsampling (keep_every args);
                 MsgSelectedShots (length selected_shots);
                 MsgSelectedImages (size rel);
                 MsgCopyingImages (out_images args)]))
    as (fs2 & Hcopy & Hcopying & Hcopied).
  { intros x (p & Hp & _ & ->)%Hrel. by exists p. }
  exists selected_shots, rel, names, fs2.
  split; [done|]. split; [done|]. split; [done|]. split; [done|].
  split; [|split; [|split; [|done]]].
  - unfold main.
    rewrite !joinpath_part by solve_part.
    rewrite <- !(assoc_L (++)). simpl app.
    rewrite bind_ask. cbv beta; cbn [w_fs w_console].
    rewrite (proj2 (exists_true _ _))
      by (right; rewrite (ds_source _ _ _ Hds); by eexists).
    cbv beta iota delta [negb].
    rewrite bind_ask. cbv beta; cbn [w_fs w_console].
    rewrite (proj2 (exists_true _ _))
      by (right; rewrite (ds_images_dir _ _ _ Hds); by eexists).
    cbv beta iota delta [negb].
    rewrite bind_print, bind_ask. cbv beta; cbn [w_fs w_console].
    rewrite decide_False by apply Hds.
    rewrite (bind_lift_ok _ _ selected_shots) by done.
    rewrite !bind_print. cbv beta; cbn [w_fs w_console].
    rewrite decide_False.
    2:{ intros Hlen. apply (ds_images _ _ _ Hds).
        destruct image_files as [|p l] eqn:Hfiles; [done|].
        destruct (group_by_shot_member (p :: l) p ltac:(by left))
          as (imgs & Hget & _).
        assert (shot_of p ∈ Str.sorted (Dict.keys (group_by_shot (p :: l))))
          as Hin.
        { unfold Str.sorted. rewrite merge_sort_Permutation.
          apply dict_keys_get. by eexists. }
        destruct (Str.sorted _); [by apply elem_of_nil in Hin|done]. }
    rewrite (bind_lift_ok _ _ _ _ eq_refl).
    rewrite !bind_print. cbv beta; cbn [w_fs w_console].
    rewrite (bind_lift_ok _ _ (rel, names)) by done.
    cbv beta iota.
    rewrite bind_print. cbv beta; cbn [w_fs w_console].
    rewrite (bind_update_ok _ _ fsa) by done.
    rewrite (bind_update_ok _ _ fs1) by done.
    rewrite bind_print. cbv beta; cbn [w_fs w_console].
    rewrite <- !(assoc_L (++)). simpl app.
    rewrite bind_unfold, Hcopy.
    rewrite bind_print. cbv beta; cbn [w_fs w_console].
    rewrite <- !(assoc_L (++)). done.
  - destruct Hcopying as (Hout & _). intros q Hq. by rewrite Hout, Hfs1.
  - destruct Hcopying as (_ & Hdir & Hsub & Hfiles). intros r content Hfile.
    split; [by eapply Hfiles|].
    apply Hsub; [|done]. intros ->. rewrite app_nil_r in Hfile. congruence.
Qed.

End main_run.

(** ** The run of [main] on the sparse reconstruction *)

Lemma aux_files_wf f : f ∈ aux_files → wf_part f.
Proof.
  unfold aux_files. rewrite !elem_of_cons, elem_of_nil.
  intros [->|[->|[->|[->|[->|[]]]]]]; solve_part.
Qed.

Section sparse_phase.
Context (scan_order : list path → list path) (fs0 : gmap path node)
  (args : Args) (Hds : dataset scan_order fs0 args).

Abbreviation sd := (sparse_dir fs0 args).

Lemma sparse_dir_source k : source args `prefix_of` sd ++ k.
Proof.
  unfold sparse_dir. destruct (Fs.exists_ _ _);
    rewrite <- (assoc_L (++)); by eexists.
Qed.

Lemma out_sparse_file_ne f : out_sparse args ++ [f] ≠ out_sparse args.
Proof.
  intros Heq. apply (f_equal length) in Heq. rewrite length_app in Heq.
  simpl in Heq. lia.
Qed.

End sparse_phase.

(** * Further properties *)

Local Ltac solve_notin :=
  repeat (apply not_elem_of_cons; split; [done|]); apply not_elem_of_nil.
Local Ltac solve_decide := apply (bool_decide_unpack _); by vm_compute.

(** ** More on [get_shot_number] *)

(** X2: a name without underscore keeps its base name without the
    extension as shot id. *)
Theorem get_shot_number_plain (stem ext : string) :
  Str.contains "/" stem = false → Str.contains "/" ext = false →
  Str.contains "_" stem = false → Str.contains "." ext = false →
  OsPath.all_dots stem = false →
  get_shot_number (stem +:+ "." +:+ ext) = stem.
Proof.
  intros Hs He Hs_ He_ Hdots.
  assert (Str.contains "/" (stem +:+ "." +:+ ext) = false) as Hsl.
  { by rewrite !contains_app, Hs, He. }
  unfold get_shot_number, OsPath.basename, OsPath.splitext.
  rewrite !(rpartition_None _ _ Hsl).
  change (stem +:+ "." +:+ ext) with (stem +:+ String "." ext).
  rewrite (rpartition_last _ _ _ He_), Hdots. simpl.
  change ("" +:+ ?s) with s. by rewrite Hs_.
Qed.

Lemma get_shot_number_plain_witness :
  get_shot_number ("000921" +:+ "." +:+ "png") = "000921".
Proof. apply get_shot_number_plain; reflexivity. Defined.

(** ** More on [group_by_shot] *)

Section dict_more.
Context {V : Type}.
Implicit Types d : Dict.t V.

Lemma dict_keys_set d k v :
  Dict.keys (Dict.set d k v)
  = if Dict.mem d k then Dict.keys d else Dict.keys d ++ [k].
Proof.
  unfold Dict.keys, Dict.mem. induction d as [|[k0 v0] d IH]; simpl; [done|].
  destruct (decide (k0 = k)) as [->|Hne]; simpl; [done|].
  change (list_fmap _ _ fst ?l) with (l.*1). rewrite IH.
  by destruct (bool_decide _).
Qed.

Lemma dict_values_set d k v v0 :
  Dict.get d k = Some v0 →
  ∃ l1 l2 : list V,
    d.*2 = l1 ++ v0 :: l2 ∧ (Dict.set d k v).*2 = l1 ++ v :: l2.
Proof.
  induction d as [|[k1 v1] d IH]; simpl; [done|].
  destruct (decide (k1 = k)) as [->|Hne].
  - intros [= ->]. by exists [], d.*2.
  - intros Hget. destruct (IH Hget) as (l1 & l2 & Heq & Hset).
    exists (v1 :: l1), l2. simpl.
    change (list_fmap _ _ snd ?l) with (l.*2). by rewrite Heq, Hset.
Qed.

Lemma dict_values_set_new d k v :
  Dict.get d k = None → (Dict.set d k v).*2 = d.*2 ++ [v].
Proof.
  induction d as [|[k1 v1] d IH]; simpl; [done|].
  destruct (decide (k1 = k)) as [->|Hne]; [done|].
  intros Hget. simpl. change (list_fmap _ _ snd ?l) with (l.*2).
  by rewrite IH.
Qed.

End dict_more.

Lemma group_step_keys shots p :
  Dict.keys (group_step shots p)
  = if Dict.mem shots (shot_of p) then Dict.keys shots
    else Dict.keys shots ++ [shot_of p].
Proof.
  unfold group_step. rewrite dict_keys_set.
  destruct (Dict.mem shots (shot_of p)) eqn:Hmem; [by rewrite Hmem|].
  rewrite dict_keys_set, Hmem.
  unfold Dict.mem. rewrite dict_get_set, decide_True by done.
  by rewrite bool_decide_eq_true_2 by by eexists.
Qed.

Lemma group_step_values shots p :
  concat (group_step shots p).*2 ≡ₚ concat shots.*2 ++ [p].
Proof.
  unfold group_step, Dict.mem.
  destruct (Dict.get shots (shot_of p)) as [imgs|] eqn:Hget.
  - rewrite bool_decide_eq_true_2 by by eexists. rewrite Hget. simpl.
    destruct (dict_values_set shots (shot_of p) (imgs ++ [p]) imgs Hget)
      as (d1 & d2 & -> & ->).
    rewrite !concat_app. simpl. rewrite <- !(assoc_L (++)).
    f_equiv. f_equiv. apply Permutation_app_comm.
  - rewrite bool_decide_eq_false_2 by by intros [? ?].
    rewrite dict_get_set, decide_True by done. simpl.
    destruct (dict_values_set (Dict.set shots (shot_of p) []) (shot_of p)
                [p] []) as (d1 & d2 & Hd & ->).
    { by rewrite dict_get_set, decide_True. }
    rewrite dict_values_set_new in Hd by done.
    assert (concat shots.*2 = concat (d1 ++ [] :: d2)) as ->.
    { rewrite <- Hd, concat_app. simpl. by rewrite app_nil_r. }
    rewrite !concat_app. simpl. rewrite <- !(assoc_L (++)).
    f_equiv. apply Permutation_cons_append.
Qed.

Lemma group_by_shot_concat (image_files : list path) :
  concat (group_by_shot image_files).*2 ≡ₚ image_files.
Proof.
  unfold group_by_shot.
  assert (∀ shots, concat (foldl group_step shots image_files).*2
                   ≡ₚ concat shots.*2 ++ image_files) as Hgen;
    [|by rewrite Hgen].
  induction image_files as [|p l IH]; intros shots; simpl.
  { by rewrite app_nil_r. }
  rewrite IH, group_step_values, <- (assoc_L (++)). done.
Qed.

Lemma group_by_shot_keys_NoDup (image_files : list path) :
  NoDup (Dict.keys (group_by_shot image_files)).
Proof.
  unfold group_by_shot.
  assert (∀ shots, NoDup (Dict.keys shots) →
            NoDup (Dict.keys (foldl group_step shots image_files))) as Hgen;
    [|apply Hgen; constructor].
  induction image_files as [|p l IH]; intros shots Hnd; simpl; [done|].
  apply IH. rewrite group_step_keys.
  destruct (Dict.mem shots (shot_of p)) eqn:Hmem; [done|].
  apply NoDup_app. split; [done|]. split; [|apply NoDup_singleton].
  intros k Hk ->%list_elem_of_singleton.
  apply dict_keys_get in Hk. unfold Dict.mem in Hmem.
  by rewrite bool_decide_eq_true_2 in Hmem.
Qed.

Lemma group_by_shot_keys (image_files : list path) (k : string) :
  k ∈ Dict.keys (group_by_shot image_files)
  ↔ ∃ p, p ∈ image_files ∧ shot_of p = k.
Proof.
  rewrite dict_keys_get, group_by_shot_get.
  destruct (filter _ image_files) as [|q l] eqn:Hf.
  - split; [by intros [? ?]|]. intros (p & Hp & Hk).
    assert (p ∈ filter (λ p, shot_of p = k) image_files) as Hin
      by by apply list_elem_of_filter.
    rewrite Hf in Hin. by apply elem_of_nil in Hin.
  - split; [|by eexists]. intros _. exists q.
    assert (q ∈ filter (λ p, shot_of p = k) image_files) as Hin
      by (rewrite Hf; by left).
    apply list_elem_of_filter in Hin. tauto.
Qed.

(** X3: [group_by_shot] loses no image and repeats none: its lists, put
    together, are the files it was given; its keys are the shot ids of the
    files, each once. *)
Theorem group_by_shot_partition (image_files : list path) :
  concat (group_by_shot image_files).*2 ≡ₚ image_files
  ∧ NoDup (Dict.keys (group_by_shot image_files))
  ∧ (∀ k, k ∈ Dict.keys (group_by_shot image_files)
          ↔ ∃ p, p ∈ image_files ∧ shot_of p = k).
Proof.
  split; [apply group_by_shot_concat|].
  split; [apply group_by_shot_keys_NoDup|]. intros k. apply group_by_shot_keys.
Qed.

(** X4: the selected shots do not depend on the order in which the image
    files were found, whatever the offset and the stride. *)
Theorem selection_order_independent (image_files image_files' : list path)
    (offset keep_every : Z) :
  image_files ≡ₚ image_files' →
  select_shots (Dict.keys (group_by_shot image_files)) offset keep_every
  = select_shots (Dict.keys (group_by_shot image_files')) offset keep_every.
Proof.
  intros Hp. unfold select_shots. f_equal. apply sorted_permutation.
  apply NoDup_Permutation; [apply group_by_shot_keys_NoDup..|].
  intros k. rewrite !group_by_shot_keys. by setoid_rewrite Hp.
Qed.

Lemma selection_order_independent_witness :
  select_shots
    (Dict.keys (group_by_shot [["i"; "b_0.png"]; ["i"; "a_0.png"]; ["i"; "b_1.png"]]))
    1 2
  = select_shots
      (Dict.keys (group_by_shot [["i"; "a_0.png"]; ["i"; "b_1.png"]; ["i"; "b_0.png"]]))
      1 2.
Proof.
  apply selection_order_independent.
  by rewrite (Permutation_cons_append _ ["i"; "b_0.png"]).
Defined.

(** ** The selection at its edges *)

Lemma every_nth_from_all {A : Type} (l : list A) : every_nth_from 0 1 l = l.
Proof.
  induction l as [|x l IH] using rev_ind; [done|].
  rewrite every_nth_from_snoc, IH.
  rewrite decide_True; [done|]. split; [lia|]. apply Nat.mod_1_r.
Qed.

(** X5: with the offset 0 and the stride 1 every shot is selected: the
    selection is the sorted list of the shot ids. *)
Theorem select_shots_keep_all (shot_ids : list string) :
  select_shots shot_ids 0 1 = Ok (Str.sorted shot_ids).
Proof.
  unfold select_shots.
  rewrite slice_from_step_positive, slice_positive_every_nth by lia.
  by rewrite every_nth_from_all.
Qed.

(** X6: a negative offset is not refused: it counts from the end of the
    sorted shots, so that the offset [-k] selects what the offset
    [len - k] selects, for a number [len] of shots and [0 < k <= len]. *)
Theorem select_shots_negative_offset (shot_ids : list string) (k keep_every : Z) :
  (0 < k ≤ Z.of_nat (length shot_ids))%Z →
  select_shots shot_ids (- k) keep_every
  = select_shots shot_ids (Z.of_nat (length shot_ids) - k) keep_every.
Proof.
  intros Hk. unfold select_shots, slice_from_step.
  assert (length (Str.sorted shot_ids) = length shot_ids) as ->.
  { unfold Str.sorted. by rewrite merge_sort_Permutation. }
  destruct (decide (keep_every = 0)%Z); [done|].
  destruct (decide (0 < keep_every)%Z).
  - rewrite (decide_True (P:=(- k < 0)%Z)) by lia.
    rewrite (decide_False (P:=(Z.of_nat (length shot_ids) - k < 0)%Z)) by lia.
    rewrite Z.max_l, Z.min_l by lia.
    by replace (- k + Z.of_nat (length shot_ids))%Z
      with (Z.of_nat (length shot_ids) - k)%Z by lia.
  - rewrite (decide_True (P:=(- k < 0)%Z)) by lia.
    rewrite (decide_False (P:=(- k + Z.of_nat (length shot_ids) < 0)%Z)) by lia.
    rewrite (decide_False (P:=(Z.of_nat (length shot_ids) - k < 0)%Z)) by lia.
    rewrite (decide_False
               (P:=(Z.of_nat (length shot_ids)
                    ≤ Z.of_nat (length shot_ids) - k)%Z)) by lia.
    by replace (- k + Z.of_nat (length shot_ids))%Z
      with (Z.of_nat (length shot_ids) - k)%Z by lia.
Qed.

Lemma select_shots_negative_offset_witness :
  select_shots ["000003"; "000001"; "000002"] (- 1) 2
  = select_shots ["000003"; "000001"; "000002"]
      (Z.of_nat (length ["000003"; "000001"; "000002"]) - 1) 2.
Proof.
  apply (select_shots_negative_offset ["000003"; "000001"; "000002"] 1 2).
  simpl. lia.
Defined.

(** X7: an offset at or beyond the number of shots is not refused either:
    with a positive stride it selects nothing. *)
Theorem select_shots_offset_beyond (shot_ids : list string) (offset keep_every : Z) :
  (0 < keep_every)%Z → (Z.of_nat (length shot_ids) ≤ offset)%Z →
  select_shots shot_ids offset keep_every = Ok [].
Proof.
  intros Hstride Hoff. unfold select_shots.
  rewrite slice_from_step_positive by lia. unfold slice_count.
  assert (length (Str.sorted shot_ids) = length shot_ids) as ->.
  { unfold Str.sorted. by rewrite merge_sort_Permutation. }
  by rewrite decide_False by lia.
Qed.

Lemma select_shots_offset_beyond_witness :
  select_shots ["000003"; "000001"; "000002"] 3 2 = Ok [].
Proof. apply select_shots_offset_beyond; simpl; lia. Defined.

(** ** The walk lists an image once *)

Lemma substring_all (s : string) : String.substring 0 (String.length s) s = s.
Proof. induction s as [|c s IH]; [done|]. simpl. by rewrite IH. Qed.

Lemma substring_suffix (e : string) : ∀ (n : nat) (s : string) (m : nat),
  (n + m = String.length s)%nat → String.substring n m s = e →
  ∃ pre, s = pre +:+ e.
Proof.
  induction n as [|n IH]; intros s m Hlen Hsub.
  - exists "". simpl in Hlen. subst m. by rewrite substring_all in Hsub.
  - destruct s as [|c s]; [done|]. simpl in Hlen, Hsub.
    destruct (IH s m) as [pre ->]; [lia|done|]. by exists (String c pre).
Qed.

Lemma endswith_app (suffix s : string) :
  Str.endswith suffix s = true → ∃ pre, s = pre +:+ suffix.
Proof.
  unfold Str.endswith.
  intros [Hsub%bool_decide_eq_true Hle%bool_decide_eq_true]%andb_true_iff.
  eapply substring_suffix; [|done]. lia.
Qed.

Lemma list_ascii_app (s t : string) :
  String.list_ascii_of_string (s +:+ t)
  = String.list_ascii_of_string s ++ String.list_ascii_of_string t.
Proof. induction s as [|c s IH]; [done|]. simpl. by rewrite IH. Qed.

(** No extension of [find_images] is the end of another one. *)
Lemma image_extensions_apart (e1 e2 s : string) :
  e1 ∈ image_extensions → e2 ∈ image_extensions →
  Str.endswith e1 s = true → Str.endswith e2 s = true → e1 = e2.
Proof.
  intros He1 He2 [p1 H1]%endswith_app [p2 H2]%endswith_app.
  assert (String.list_ascii_of_string e1 `suffix_of` String.list_ascii_of_string s) as Hs1
    by (rewrite H1, list_ascii_app; by eexists).
  assert (String.list_ascii_of_string e2 `suffix_of` String.list_ascii_of_string s) as Hs2
    by (rewrite H2, list_ascii_app; by eexists).
  assert (Forall (λ e1, Forall (λ e2,
            (String.list_ascii_of_string e1 `suffix_of` String.list_ascii_of_string e2
             ∨ String.list_ascii_of_string e2 `suffix_of` String.list_ascii_of_string e1) →
            e1 = e2) image_extensions) image_extensions) as Hall by solve_decide.
  rewrite Forall_forall in Hall. specialize (Hall e1 He1).
  rewrite Forall_forall in Hall. apply (Hall e2 He2).
  by apply (suffix_weak_total _ _ (String.list_ascii_of_string s)).
Qed.

Lemma NoDup_rglob (scan_order : list path → list path) fs dir suffix :
  (∀ l, scan_order l ≡ₚ l) → NoDup (rglob scan_order fs dir suffix).
Proof.
  intros Hscan. unfold rglob. rewrite Hscan.
  apply NoDup_filter, NoDup_fst_map_to_list.
Qed.

Lemma elem_of_rglob (scan_order : list path → list path) fs dir suffix p :
  (∀ l, scan_order l ≡ₚ l) →
  p ∈ rglob scan_order fs dir suffix → Str.endswith suffix (Path.name p) = true.
Proof.
  intros Hscan. unfold rglob. rewrite Hscan, list_elem_of_filter. tauto.
Qed.

(** X8: where the walk of a directory lists what there is, [find_images]
    lists exactly what lies below the images directory with a name that
    ends in one of the six extensions, and lists it once. *)
Theorem find_images_once (scan_order : list path → list path)
    (fs : gmap path node) (images_dir : path) :
  (∀ l, scan_order l ≡ₚ l) →
  NoDup (find_images scan_order fs images_dir)
  ∧ ∀ p, p ∈ find_images scan_order fs images_dir ↔
      images_dir `prefix_of` p ∧ p ≠ images_dir ∧ is_Some (fs !! p)
      ∧ ∃ ext, ext ∈ image_extensions
               ∧ Str.endswith ext (Path.name p) = true.
Proof.
  intros Hscan. split; [|intros p; by apply elem_of_find_images].
  unfold find_images.
  assert (∀ exts acc,
    NoDup exts → exts ⊆ image_extensions → NoDup acc →
    (∀ p, p ∈ acc → ∃ e, e ∈ image_extensions ∧ e ∉ exts
                         ∧ Str.endswith e (Path.name p) = true) →
    NoDup (foldl (λ image_files ext,
                    image_files ++ rglob scan_order fs images_dir ext)
             acc exts)) as Hgen.
  { induction exts as [|ext exts IH]; intros acc Hnd Hsub Hacc Hends; [done|].
    simpl. apply NoDup_cons in Hnd as [Hext Hnd].
    assert (ext ∈ image_extensions) as Hin by (apply Hsub; by left).
    apply IH; [done|set_solver| |].
    - apply NoDup_app. split; [done|]. split; [|by apply NoDup_rglob].
      intros p (e & He & Hne & Hend)%Hends Hp%elem_of_rglob; [|done].
      apply Hne. rewrite (image_extensions_apart e ext _ He Hin Hend Hp).
      by left.
    - intros p [(e & He & Hne & Hend)%Hends|Hp%elem_of_rglob]%elem_of_app;
        [| |done].
      + exists e. split; [done|]. split; [|done].
        intros ?. apply Hne. by right.
      + exists ext. by repeat split. }
  apply Hgen; [solve_decide|done|constructor|by intros p ?%elem_of_nil].
Qed.

Lemma find_images_once_witness :
  NoDup (find_images id Example.fs_txt ["data"; "images"])
  ∧ ∀ p, p ∈ find_images id Example.fs_txt ["data"; "images"] ↔
      ["data"; "images"] `prefix_of` p ∧ p ≠ ["data"; "images"]
      ∧ is_Some (Example.fs_txt !! p)
      ∧ ∃ ext, ext ∈ image_extensions
               ∧ Str.endswith ext (Path.name p) = true.
Proof. apply (find_images_once id Example.fs_txt ["data"; "images"]). done. Defined.

(** ** More on [filter_images_txt] *)

Section any_lines.
Context (lines : list string) (selected_images : gset string).

(** What one turn of the loop adds to the written lines lies between the
    old index and the new one. *)
Lemma body_sublist st st' :
  f_i st < length lines →
  filter_body lines selected_images st = Ok st' →
  f_written st `sublist_of` take (f_i st) lines →
  f_kept st ≤ length (f_written st) →
  f_written st' `sublist_of` take (f_i st') lines
  ∧ f_kept st' ≤ length (f_written st').
Proof.
  destruct st as [i written kept]. simpl. intros Hi Hbody Hsub Hkept.
  destruct (lookup_lt_is_Some_2 lines i Hi) as [line Hline].
  assert (take (i + 1) lines = take i lines ++ [line]) as Htake1.
  { rewrite Nat.add_1_r. by apply take_S_r. }
  destruct (Str.startswith "#" line) eqn:Hc.
  { rewrite (body_comment _ _ _ _ _ _ Hline Hc) in Hbody.
    injection Hbody as <-. simpl. rewrite Htake1, length_app. simpl.
    split; [by apply sublist_app|lia]. }
  destruct (decide (Str.strip line = "")) as [Hb|Hb].
  { rewrite (body_blank _ _ _ _ _ _ Hline Hc Hb) in Hbody.
    injection Hbody as <-. simpl. rewrite Htake1.
    split; [by apply sublist_inserts_r|done]. }
  destruct (lines !! (i + 1)) as [next|] eqn:Hnext.
  - rewrite (body_entry _ _ _ _ _ _ _ Hline Hnext Hc Hb) in Hbody.
    assert (take (i + 2) lines = take i lines ++ [line; next]) as Htake2.
    { replace (i + 2) with (S (i + 1)) by lia.
      rewrite (take_S_r _ _ next), Htake1, <- (assoc_L (++)) by done. done. }
    destruct (retained _ _); injection Hbody as <-; simpl; rewrite Htake2.
    + rewrite length_app. simpl. split; [by apply sublist_app|lia].
    + split; [by apply sublist_inserts_r|done].
  - apply lookup_ge_None in Hnext.
    rewrite (body_last_header _ _ _ _ _ _ Hline ltac:(lia) Hc Hb) in Hbody.
    assert (take (i + 2) lines = take i lines ++ [line]) as Htake2.
    { rewrite <- Htake1, !take_ge by lia. done. }
    destruct (retained _ _); injection Hbody as <-; simpl; rewrite Htake2.
    + rewrite length_app. simpl. split; [by apply sublist_app|lia].
    + split; [by apply sublist_inserts_r|done].
Qed.

Lemma run_sublist st st' :
  filter_run lines selected_images st = Ok st' →
  f_written st `sublist_of` take (f_i st) lines →
  f_kept st ≤ length (f_written st) →
  f_written st' `sublist_of` lines ∧ f_kept st' ≤ length (f_written st').
Proof.
  remember (length lines - f_i st) as n eqn:Hn.
  revert st Hn. induction (lt_wf n) as [n _ IH]. intros st -> Hrun Hsub Hkept.
  destruct (decide (f_i st < length lines)) as [Hi|Hi].
  - rewrite run_step in Hrun by done.
    destruct (body_total lines selected_images st Hi) as (st1 & Hbody & Hlt).
    rewrite Hbody in Hrun. simpl in Hrun.
    destruct (body_sublist st st1 Hi Hbody Hsub Hkept) as [Hsub1 Hkept1].
    apply (IH (length lines - f_i st1) ltac:(lia) st1); done.
  - rewrite run_end in Hrun by lia. injection Hrun as <-.
    rewrite take_ge in Hsub by lia. done.
Qed.

End any_lines.

(** X9: whatever the lines are, what the loop writes is a sub-sequence of
    the lines read, in their order, and every counted entry has a line
    written. *)
Theorem filter_lines_sublist (lines : list string) (selected_images : gset string) :
  ∃ written kept,
    filter_lines lines selected_images = Ok (written, kept)
    ∧ written `sublist_of` lines
    ∧ kept ≤ length written.
Proof.
  unfold filter_lines. rewrite filter_loop_fuel by (simpl; lia).
  destruct (run_total lines selected_images (FilterState 0 [] 0))
    as (st & Hrun & _).
  rewrite Hrun. simpl. eexists _, _. split; [done|].
  apply (run_sublist lines selected_images (FilterState 0 [] 0) st Hrun).
  - apply sublist_nil_l.
  - simpl. lia.
Qed.

(** X10: filtering is idempotent: the lines written for a pose file, filtered
    again with the same retained set, are written again as they are, with
    the same count. *)
Theorem filter_lines_idempotent (items : list item) (selected_images : gset string)
    written kept :
  Forall wf_item items →
  filter_lines (render items) selected_images = Ok (written, kept) →
  filter_lines written selected_images = Ok (written, kept).
Proof.
  intros Hwf. rewrite filter_lines_items by done. intros [= <- <-].
  rewrite filter_lines_items by by apply Forall_filter_keep.
  change (filtered selected_images items)
    with (filter (λ it, is_comment it || retained selected_images it) items)
    at 1 2.
  rewrite filtered_filter by done.
  rewrite retained_filter; [done|].
  intros it Hit. destruct (retained selected_images it); [|done].
  by rewrite orb_true_r.
Qed.

Lemma filter_lines_idempotent_witness :
  filter_lines (render (filtered Example.selected Example.items))
    Example.selected
  = Ok (render (filtered Example.selected Example.items), 2%nat).
Proof.
  apply (filter_lines_idempotent Example.items).
  - solve_wf_items.
  - by vm_compute.
Defined.

(** X11: with the empty retained set only the comment lines are written and
    nothing is counted. *)
Theorem filter_lines_nothing_selected (items : list item) :
  Forall wf_item items →
  filter_lines (render items) ∅ = Ok (render (filter is_comment items), 0).
Proof.
  intros Hwf. rewrite filter_lines_items by done.
  assert (∀ it, retained ∅ it = false) as Hnone.
  { intros [| |h c]; simpl; try done. destruct (NAME h); [|done].
    by rewrite bool_decide_eq_false_2 by set_solver. }
  f_equal. f_equal.
  - unfold filtered. f_equal. apply list_filter_iff. intros it.
    rewrite Hnone, orb_false_r. done.
  - induction items as [|it items IH]; [done|].
    apply Forall_cons in Hwf as [_ Hwf].
    rewrite filter_cons_False by (rewrite Hnone; intros []). by apply IH.
Qed.

Lemma filter_lines_nothing_selected_witness :
  filter_lines (render Example.items) ∅
  = Ok (render (filter is_comment Example.items), 0%nat).
Proof. apply filter_lines_nothing_selected. solve_wf_items. Defined.

(** ** [filter_images_txt] on the file system: the edges *)

Lemma written_text_readlines_go (s cur : string) :
  written_text (readlines_go cur s) = cur +:+ s.
Proof.
  revert cur. induction s as [|a s IH]; intros cur; simpl.
  - case_decide as Hcur; simpl; [by rewrite Hcur|done].
  - case_decide as Ha; simpl.
    + rewrite IH, Ha. unfold nl. by rewrite str_app_assoc.
    + rewrite IH. by rewrite str_app_assoc.
Qed.

(** Reading the lines of a text and writing them gives the text. *)
Lemma written_text_readlines (s : string) : written_text (readlines s) = s.
Proof. apply written_text_readlines_go. Qed.

(** Where nothing is to be dropped, nothing is. *)
Lemma filtered_all (selected_images : gset string) (items : list item) :
  Forall (λ it, is_comment it || retained selected_images it) items →
  filtered selected_images items = items.
Proof.
  intros Hall. unfold filtered.
  induction Hall as [|it items Hit _ IH]; [done|].
  by rewrite filter_cons_True, IH.
Qed.

(** X12: when every entry of the pose file is retained and the file has no
    blank line, [filter_images_txt] writes the text of the source to the
    destination as it is and counts every entry. *)
Theorem filter_images_txt_verbatim fs console src_path dst_path content
    (items : list item) selected_images :
  fs !! src_path = Some (File content) →
  readlines content = render items →
  Forall wf_item items →
  Forall (λ it, is_comment it || retained selected_images it) items →
  src_path ≠ dst_path →
  Fs.is_dir fs dst_path = false → Fs.is_dir fs (Path.parent dst_path) = true →
  filter_images_txt src_path dst_path selected_images (World fs console)
  = (Done (length (filter is_entry items)),
     World (<[dst_path:=File content]> fs) console).
Proof.
  intros Hsrc Hlines Hwf Hall Hne Hdst Hpar.
  pose proof (filtered_all selected_images items Hall) as Hsame.
  rewrite (filter_images_txt_run fs console src_path dst_path content
             selected_images (render items) (length (filter is_entry items)));
    try done.
  - by rewrite <- Hlines, written_text_readlines.
  - rewrite Hlines, filter_lines_items, Hsame by done.
    by rewrite <- (filtered_entries selected_images), Hsame.
Qed.

Lemma filter_images_txt_verbatim_witness :
  filter_images_txt ["in.txt"] ["out.txt"] Example.selected
    (World {[ ["in.txt"] := File Example.kept_txt ]} [])
  = (Done (length (filter is_entry
                     (filtered Example.selected Example.items))),
     World (<[["out.txt"]:=File Example.kept_txt]>
              {[ ["in.txt"] := File Example.kept_txt ]}) []).
Proof.
  apply (filter_images_txt_verbatim _ _ _ _ _
           (filtered Example.selected Example.items)).
  - by vm_compute.
  - by vm_compute.
  - apply Forall_filter_keep. solve_wf_items.
  - solve_decide.
  - done.
  - by vm_compute.
  - by vm_compute.
Defined.

(** X13: with the same file as source and destination, the file is emptied
    before its lines are read: nothing is kept and the file ends empty. *)
Theorem filter_images_txt_same_file fs console p content selected_images :
  p ≠ [] → fs !! p = Some (File content) →
  Fs.is_dir fs (Path.parent p) = true →
  filter_images_txt p p selected_images (World fs console)
  = (Done 0, World (<[p:=File ""]> fs) console).
Proof.
  intros Hnil Hp Hpar.
  assert (Fs.is_dir fs p = false) as Hnodir.
  { apply not_true_is_false. intros [?|?]%is_dir_true; congruence. }
  unfold filter_images_txt.
  rewrite bind_assoc, bind_ask. cbn [w_fs w_console].
  rewrite (bind_lift_ok _ _ content) by (unfold Fs.read_text, id; by rewrite Hp).
  rewrite (bind_update_ok _ _ (<[p:=File ""]> fs)) by by apply write_text_ok.
  rewrite bind_assoc, bind_ask. cbn [w_fs w_console].
  rewrite (bind_lift_ok _ _ "")
    by (unfold Fs.read_text, id; by rewrite lookup_insert_eq).
  rewrite (bind_lift_ok _ _ ([], 0)) by done.
  rewrite (bind_update_ok _ _ (<[p:=File ""]> fs)); [done|].
  cbn [w_fs]. rewrite write_text_ok.
  - by rewrite insert_insert_eq.
  - rewrite is_dir_insert_file, Hnodir. done.
  - rewrite is_dir_insert_file, Hpar. simpl.
    apply bool_decide_eq_true_2. left. unfold Path.parent. intros Heq.
    pose proof (app_removelast_last (l:=p) "" Hnil) as Hlast.
    apply (f_equal length) in Hlast. rewrite length_app, <- Heq in Hlast.
    simpl in Hlast. lia.
Qed.

Lemma filter_images_txt_same_file_witness :
  filter_images_txt ["data"; "sparse"; "0"; "images.txt"]
    ["data"; "sparse"; "0"; "images.txt"] Example.selected
    (World Example.fs_txt [])
  = (Done 0%nat,
     World (<[["data"; "sparse"; "0"; "images.txt"]:=File ""]> Example.fs_txt)
       []).
Proof.
  apply (filter_images_txt_same_file _ _ _ Example.images_txt).
  - done.
  - by vm_compute.
  - by vm_compute.
Defined.

(** X14: a source that does not exist ends the call with
    [FileNotFoundError] before the destination is opened: nothing is
    created and nothing is emptied. *)
Theorem filter_images_txt_missing_source fs console src_path dst_path
    selected_images :
  src_path ≠ [] → fs !! src_path = None →
  filter_images_txt src_path dst_path selected_images (World fs console)
  = (Abort (Uncaught FileNotFoundError), World fs console).
Proof.
  intros Hne Hsrc. unfold filter_images_txt.
  rewrite bind_assoc, bind_ask. cbn [w_fs w_console].
  rewrite (bind_lift_raise _ _ FileNotFoundError); [done|].
  unfold Fs.read_text, id. by rewrite Hsrc, decide_False.
Qed.

Lemma filter_images_txt_missing_source_witness :
  filter_images_txt ["data"; "sparse"; "0"; "images.txt"] ["out.txt"]
    Example.selected (World Example.fs_bin [])
  = (Abort (Uncaught FileNotFoundError), World Example.fs_bin []).
Proof.
  apply filter_images_txt_missing_source.
  - done.
  - by vm_compute.
Defined.

(** ** [main]: the checks of the source *)

(** X15: a source path that does not exist ends the run with the error
    message and exit status 1; nothing is created. *)
Theorem main_source_missing scan_order args w :
  Fs.exists_ (w_fs w) (source args) = false →
  main scan_order args w
  = (Abort (SysExit 1),
     World (w_fs w) (w_console w ++ [ErrSourceMissing (source args)])).
Proof.
  intros Hsrc. unfold main. rewrite bind_ask, Hsrc.
  cbv beta iota delta [negb]. by rewrite bind_print.
Qed.

Lemma main_source_missing_witness :
  main id (Example.args 4 0) (World ∅ [])
  = (Abort (SysExit 1), World ∅ ([] ++ [ErrSourceMissing ["data"]])).
Proof.
  apply (main_source_missing id (Example.args 4 0) (World ∅ [])).
  by vm_compute.
Defined.

(** X16: a source without an [images] directory ends the run with the
    error message and exit status 1; nothing is created. *)
Theorem main_images_dir_missing scan_order args w :
  Fs.exists_ (w_fs w) (source args) = true →
  Fs.exists_ (w_fs w) (source args ++ ["images"]) = false →
  main scan_order args w
  = (Abort (SysExit 1),
     World (w_fs w)
       (w_console w ++ [ErrImagesDirMissing (source args ++ ["images"])])).
Proof.
  intros Hsrc Himg. unfold main. rewrite !joinpath_part by solve_part.
  rewrite bind_ask, Hsrc. cbv beta iota delta [negb].
  rewrite bind_ask, Himg. cbv beta iota delta [negb]. by rewrite bind_print.
Qed.

Lemma main_images_dir_missing_witness :
  main id (Example.args 4 0) (World Example.fs_source [])
  = (Abort (SysExit 1),
     World Example.fs_source
       ([] ++ [ErrImagesDirMissing (src_images (Example.args 4 0))])).
Proof.
  apply (main_images_dir_missing id (Example.args 4 0)
           (World Example.fs_source [])).
  - by vm_compute.
  - by vm_compute.
Defined.

(** ** The auxiliary files, exactly *)

Section aux_exact.
Context (scan_order : list path → list path) (fs0 : gmap path node)
  (args : Args) (Hds : dataset scan_order fs0 args).

Lemma exists_source fs q :
  aux_frame fs0 args fs → source args `prefix_of` q →
  Fs.exists_ fs q = Fs.exists_ fs0 q.
Proof. intros (Hsrc & _) Hq. unfold Fs.exists_. by rewrite Hsrc. Qed.

(** The copy of one auxiliary file that exists. *)
Lemma copy_aux_exact fs f :
  aux_frame fs0 args fs → f ∈ aux_files →
  Fs.exists_ fs (sparse_dir fs0 args ++ [f]) = true →
  ∃ content,
    fs0 !! (sparse_dir fs0 args ++ [f]) = Some (File content)
    ∧ Fs.copy2 fs (sparse_dir fs0 args ++ [f]) (out_sparse args ++ [f])
      = Ok (<[out_sparse args ++ [f]:=File content]> fs)
    ∧ aux_frame fs0 args (<[out_sparse args ++ [f]:=File content]> fs).
Proof.
  intros (Hsrc & Hdir & Hnodir) Hf [Hnil|[n Hn]]%exists_true.
  { by apply app_eq_nil in Hnil as [_ ?]. }
  rewrite Hsrc in Hn by apply sparse_dir_source.
  destruct n as [content|]; [|by destruct (ds_aux _ _ _ Hds f Hf)].
  assert (sparse_dir fs0 args ++ [f] ≠ out_sparse args ++ [f]) as Hne.
  { intros Heq.
    apply (ds_apart_below _ _ _ Hds (sparse_dir fs0 args ++ [f]));
      [apply sparse_dir_source|].
    rewrite Heq, <- (assoc_L (++)). by eexists. }
  exists content. split; [done|]. split.
  - apply copy2_file; [by rewrite Hsrc by apply sparse_dir_source|done| |].
    + apply not_true_is_false. intros [Hnil|?]%is_dir_true; [|by eapply Hnodir].
      by apply app_eq_nil in Hnil as [_ ?].
    + rewrite parent_snoc. apply is_dir_true. by right.
  - split; [|split].
    + intros q Hq. rewrite lookup_insert_ne; [by apply Hsrc|].
      intros <-. apply (ds_apart_below _ _ _ Hds (out_sparse args ++ [f]));
        [done|]. rewrite <- (assoc_L (++)). by eexists.
    + rewrite lookup_insert_ne; [done|apply out_sparse_file_ne].
    + intros f'. destruct (decide (f' = f)) as [->|Hne'].
      * by rewrite lookup_insert_eq.
      * rewrite lookup_insert_ne; [apply Hnodir|].
        intros Heq%app_inv_head. congruence.
Qed.

Lemma not_exists_source fs f :
  aux_frame fs0 args fs →
  Fs.exists_ fs (sparse_dir fs0 args ++ [f]) = false →
  fs0 !! (sparse_dir fs0 args ++ [f]) = None.
Proof.
  intros (Hsrc & _) Hex. rewrite <- Hsrc by apply sparse_dir_source.
  destruct (fs !! _) eqn:Hq; [|done].
  assert (Fs.exists_ fs (sparse_dir fs0 args ++ [f]) = true); [|congruence].
  apply exists_true. right. by eexists.
Qed.

(** The loop over the camera files stops at the first file that exists:
    that one is copied, and nothing else changes. *)
Lemma copy_cameras_exact names : ∀ fs console,
  aux_frame fs0 args fs → Forall (λ f, f ∈ aux_files) names →
  ∃ fs' msgs,
    copy_cameras (sparse_dir fs0 args) (out_sparse args) names
      (World fs console)
    = (Done (), World fs' (console ++ msgs))
    ∧ aux_frame fs0 args fs'
    ∧ Forall is_copied msgs
    ∧ ((Forall (λ f, fs0 !! (sparse_dir fs0 args ++ [f]) = None) names
        ∧ fs' = fs ∧ msgs = [])
       ∨ ∃ before f after content,
           names = before ++ f :: after
           ∧ Forall (λ f, fs0 !! (sparse_dir fs0 args ++ [f]) = None) before
           ∧ fs0 !! (sparse_dir fs0 args ++ [f]) = Some (File content)
           ∧ fs' = <[out_sparse args ++ [f]:=File content]> fs
           ∧ msgs = [MsgCopied f]).
Proof.
  induction names as [|f names IH]; intros fs console Hframe Hnames.
  { exists fs, []. rewrite app_nil_r. repeat split; try done; try apply Hframe.
    by left. }
  apply Forall_cons in Hnames as [Hf Hnames].
  change (copy_cameras (sparse_dir fs0 args) (out_sparse args) (f :: names))
    with (found ← ask (λ fs, Fs.exists_ fs
                                (Path.joinpath (sparse_dir fs0 args) f));
          if found : bool then
            update (λ fs, Fs.copy2 fs (Path.joinpath (sparse_dir fs0 args) f)
                            (Path.joinpath (out_sparse args) f));;
            print (MsgCopied f)
          else copy_cameras (sparse_dir fs0 args) (out_sparse args) names).
  rewrite !joinpath_part by by apply aux_files_wf.
  rewrite bind_ask. cbv beta; cbn [w_fs w_console].
  destruct (Fs.exists_ fs (sparse_dir fs0 args ++ [f])) eqn:Hex.
  - destruct (copy_aux_exact fs f Hframe Hf Hex)
      as (content & Hsrc & Hcopy & Hframe').
    eexists _, [MsgCopied f].
    rewrite (bind_update_ok _ _
               (<[out_sparse args ++ [f]:=File content]> fs)) by exact Hcopy.
    unfold print. cbn [w_fs w_console].
    split; [done|]. split; [done|].
    split; [apply Forall_singleton; by eexists|].
    right. exists [], f, names, content. by repeat split.
  - pose proof (not_exists_source fs f Hframe Hex) as Hnone.
    destruct (IH fs console Hframe Hnames)
      as (fs' & msgs & Hrun & Hframe' & Hmsgs & Hcases).
    exists fs', msgs. split; [done|]. split; [done|]. split; [done|].
    destruct Hcases as [(Hall & -> & ->)|(before & g & after & content
                          & -> & Hbefore & Hg & -> & ->)].
    + left. split; [by apply Forall_cons|done].
    + right. exists (f :: before), g, after, content.
      repeat split; try done. by apply Forall_cons.
Qed.

(** The loop over the point files copies every file that exists and
    changes nothing else. *)
Lemma copy_points_exact names : ∀ fs console,
  aux_frame fs0 args fs → Forall (λ f, f ∈ aux_files) names →
  ∃ fs' msgs,
    for_each names (λ points_file,
      found ← ask (λ fs, Fs.exists_ fs
                           (Path.joinpath (sparse_dir fs0 args) points_file));
      if found : bool then
        update (λ fs, Fs.copy2 fs
                        (Path.joinpath (sparse_dir fs0 args) points_file)
                        (Path.joinpath (out_sparse args) points_file));;
        print (MsgCopied points_file)
      else mret ()) (World fs console)
    = (Done (), World fs' (console ++ msgs))
    ∧ aux_frame fs0 args fs'
    ∧ Forall is_copied msgs
    ∧ (∀ q, (∀ f, f ∈ names → q ≠ out_sparse args ++ [f]) →
         fs' !! q = fs !! q)
    ∧ (∀ f, f ∈ names →
         fs' !! (out_sparse args ++ [f])
         = match fs0 !! (sparse_dir fs0 args ++ [f]) with
           | Some n => Some n
           | None => fs !! (out_sparse args ++ [f])
           end).
Proof.
  induction names as [|f names IH]; intros fs console Hframe Hnames.
  { exists fs, []. rewrite app_nil_r. repeat split; try done; try apply Hframe.
    by intros f ?%elem_of_nil. }
  apply Forall_cons in Hnames as [Hf Hnames].
  change (for_each (f :: names) ?body) with (body f ;; for_each names body).
  cbv beta. rewrite !joinpath_part by by apply aux_files_wf.
  rewrite bind_assoc, bind_ask. cbv beta; cbn [w_fs w_console].
  destruct (Fs.exists_ fs (sparse_dir fs0 args ++ [f])) eqn:Hex.
  - destruct (copy_aux_exact fs f Hframe Hf Hex)
      as (content & Hsrc & Hcopy & Hframe').
    rewrite bind_assoc.
    rewrite (bind_update_ok _ _
               (<[out_sparse args ++ [f]:=File content]> fs)) by exact Hcopy.
    rewrite bind_print. cbv beta; cbn [w_fs w_console].
    destruct (IH _ (console ++ [MsgCopied f]) Hframe' Hnames)
      as (fs' & msgs & Hrun & Hframe'' & Hmsgs & Hsame & Hcopied).
    exists fs', (MsgCopied f :: msgs).
    split; [rewrite Hrun; by rewrite <- (assoc_L (++))|].
    split; [done|]. split; [apply Forall_cons; split; [by eexists|done]|].
    split.
    + intros q Hq. rewrite Hsame by (intros g Hg; apply Hq; by right).
      rewrite lookup_insert_ne; [done|]. intros <-. apply (Hq f); [by left|done].
    + intros g [->|Hg]%elem_of_cons.
      * rewrite Hsrc. destruct (decide (f ∈ names)) as [Hin|Hnin].
        -- by rewrite (Hcopied f Hin), Hsrc.
        -- rewrite Hsame; [by rewrite lookup_insert_eq|].
           intros g Hg Heq%app_inv_head. congruence.
      * rewrite (Hcopied g Hg).
        destruct (fs0 !! (sparse_dir fs0 args ++ [g])) eqn:Hg0; [done|].
        destruct (decide (g = f)) as [->|Hne]; [congruence|].
        rewrite lookup_insert_ne; [done|]. intros Heq%app_inv_head. congruence.
  - pose proof (not_exists_source fs f Hframe Hex) as Hnone.
    rewrite bind_unfold. cbn [mret M_ret].
    destruct (IH fs console Hframe Hnames)
      as (fs' & msgs & Hrun & Hframe' & Hmsgs & Hsame & Hcopied).
    exists fs', msgs. split; [done|]. split; [done|]. split; [done|]. split.
    + intros q Hq. apply Hsame. intros g Hg. apply Hq. by right.
    + intros g [->|Hg]%elem_of_cons; [|by apply Hcopied].
      rewrite Hnone. destruct (decide (f ∈ names)) as [Hin|Hnin].
      * by rewrite (Hcopied f Hin), Hnone.
      * apply Hsame. intros g Hg Heq%app_inv_head. congruence.
Qed.

End aux_exact.

(** ** The run of [main] on the reconstruction *)

Section sparse_run.
Context (scan_order : list path → list path) (fs0 : gmap path node)
  (args : Args) (Hds : dataset scan_order fs0 args)
  (Hstride : keep_every args ≠ 0%Z) (rel names : gset string).

Lemma process_colmap_sparse_dir fs2 console :
  aux_frame fs0 args fs2 →
  process_colmap args rel names (World fs2 console)
  = process_sparse_dir args rel names (sparse_dir fs0 args)
      (World fs2 console).
Proof.
  intros Hframe. unfold process_colmap.
  rewrite !joinpath_part by solve_part.
  rewrite <- !(assoc_L (++)). simpl app.
  rewrite bind_ask. cbv beta zeta; cbn [w_fs w_console].
  rewrite (exists_source fs0 args fs2) by (done || by eexists).
  done.
Qed.

(** Without a directory of the reconstruction [main] says so and returns. *)
Lemma process_colmap_no_sparse fs2 console :
  aux_frame fs0 args fs2 →
  Fs.exists_ fs0 (sparse_dir fs0 args) = false →
  process_colmap args rel names (World fs2 console)
  = (Done (),
     World fs2 (console ++ [WarnNoSparse (source args ++ ["sparse"]);
                            MsgNeedColmap; MsgConvertCommand (output args)])).
Proof.
  intros Hframe Hnone. rewrite process_colmap_sparse_dir by done.
  unfold process_sparse_dir. rewrite !joinpath_part by solve_part.
  rewrite bind_ask. cbv beta zeta; cbn [w_fs w_console].
  rewrite (exists_source fs0 args fs2), Hnone
    by (done || rewrite <- (app_nil_r (sparse_dir _ _));
        apply sparse_dir_source).
  cbv beta iota delta [negb].
  rewrite !bind_print. unfold print. cbn [w_fs w_console].
  by rewrite <- !(assoc_L (++)).
Qed.

Lemma aux_in (f : string) :
  f ∈ camera_files ∨ f ∈ points_files → f ∈ aux_files.
Proof.
  unfold camera_files, points_files, aux_files.
  rewrite !elem_of_cons, !elem_of_nil. tauto.
Qed.

(** The run on a directory of the reconstruction that exists. *)
Lemma process_colmap_run fs2 console :
  aux_frame fs0 args fs2 →
  Fs.exists_ fs0 (sparse_dir fs0 args) = true →
  fs0 !! (sparse_dir fs0 args ++ ["images.txt"]) ≠ Some Dir →
  ∃ fs3 fs4 fs' cam pose pts,
    process_colmap args rel names (World fs2 console)
    = (Done (),
       World fs'
         (console ++ MsgProcessing (sparse_dir fs0 args) :: cam ++ pose ++ pts
          ++ [MsgSummary (output args) (size rel) (keep_every args)]))
    ∧ Forall is_copied cam ∧ Forall is_copied pts
    (* the cameras *)
    ∧ ((Forall (λ f, fs0 !! (sparse_dir fs0 args ++ [f]) = None) camera_files
        ∧ fs3 = fs2 ∧ cam = [])
       ∨ ∃ before f after content,
           camera_files = before ++ f :: after
           ∧ Forall (λ f, fs0 !! (sparse_dir fs0 args ++ [f]) = None) before
           ∧ fs0 !! (sparse_dir fs0 args ++ [f]) = Some (File content)
           ∧ fs3 = <[out_sparse args ++ [f]:=File content]> fs2
           ∧ cam = [MsgCopied f])
    (* the pose file *)
    ∧ match fs0 !! (sparse_dir fs0 args ++ ["images.txt"]) with
      | Some (File content) =>
          ∃ written kept,
            filter_lines (readlines content) (rel ∪ names) = Ok (written, kept)
            ∧ pose = [MsgFiltered kept]
            ∧ fs4 = <[out_sparse args ++ ["images.txt"]:=
                        File (written_text written)]> fs3
      | _ =>
          pose = (if Fs.exists_ fs0 (sparse_dir fs0 args ++ ["images.bin"])
                  then [WarnImagesBin; WarnRerunColmap] else [])
          ∧ fs4 = fs3
      end
    (* the points *)
    ∧ (∀ q, (∀ f, f ∈ points_files → q ≠ out_sparse args ++ [f]) →
         fs' !! q = fs4 !! q)
    ∧ (∀ f, f ∈ points_files →
         fs' !! (out_sparse args ++ [f])
         = match fs0 !! (sparse_dir fs0 args ++ [f]) with
           | Some n => Some n
           | None => fs4 !! (out_sparse args ++ [f])
           end).
Proof.
  intros Hframe Hsparse Htxt. rewrite process_colmap_sparse_dir by done.
  unfold process_sparse_dir. rewrite !joinpath_part by solve_part.
  rewrite <- !(assoc_L (++)). simpl app.
  rewrite bind_ask. cbv beta zeta; cbn [w_fs w_console].
  rewrite (exists_source fs0 args fs2), Hsparse
    by (done || rewrite <- (app_nil_r (sparse_dir _ _));
        apply sparse_dir_source).
  cbv beta iota delta [negb].
  rewrite bind_print. cbv beta; cbn [w_fs w_console].
  destruct (copy_cameras_exact _ _ _ Hds camera_files fs2
              (console ++ [MsgProcessing (sparse_dir fs0 args)]) Hframe)
    as (fs3 & cam & Hcam & Hframe3 & Hcam_msgs & Hcam_cases).
  { apply Forall_forall. intros f Hf. apply aux_in. by left. }
  rewrite bind_unfold. unfold camera_files in Hcam. rewrite Hcam.
  rewrite bind_ask. cbv beta zeta; cbn [w_fs w_console].
  rewrite (exists_source fs0 args fs3) by (done || apply sparse_dir_source).
  assert (∃ fs4 pose,
    (∀ (k : unit → M unit) console,
      ((if Fs.exists_ fs0 (sparse_dir fs0 args ++ ["images.txt"])
        then kept ← filter_images_txt
                       (sparse_dir fs0 args ++ ["images.txt"])
                       (output args ++ ["sparse"; "0"; "images.txt"])
                       (rel ∪ names);
             print (MsgFiltered kept)
        else images_bin_exists ←
               ask (λ fs, Fs.exists_ fs (sparse_dir fs0 args ++ ["images.bin"]));
             if images_bin_exists : bool
             then print WarnImagesBin;; print WarnRerunColmap
             else mret ()) ≫= k) (World fs3 console)
      = k () (World fs4 (console ++ pose)))
    ∧ aux_frame fs0 args fs4
    ∧ match fs0 !! (sparse_dir fs0 args ++ ["images.txt"]) with
      | Some (File content) =>
          ∃ written kept,
            filter_lines (readlines content) (rel ∪ names) = Ok (written, kept)
            ∧ pose = [MsgFiltered kept]
            ∧ fs4 = <[out_sparse args ++ ["images.txt"]:=
                        File (written_text written)]> fs3
      | _ =>
          pose = (if Fs.exists_ fs0 (sparse_dir fs0 args ++ ["images.bin"])
                  then [WarnImagesBin; WarnRerunColmap] else [])
          ∧ fs4 = fs3
      end) as (fs4 & pose & Hpose & Hframe4 & Hpose_cases).
  { assert (output args ++ ["sparse"; "0"; "images.txt"]
            = out_sparse args ++ ["images.txt"]) as ->
      by by rewrite <- (assoc_L (++)).
    pose proof Hframe3 as (Hsrc3 & Hdir3 & Hnodir3).
    destruct (fs0 !! (sparse_dir fs0 args ++ ["images.txt"]))
      as [[content|]|] eqn:Hfile; [|done|].
    - destruct (filter_lines_total (readlines content) (rel ∪ names))
        as (written & kept & Hlines).
      exists (<[out_sparse args ++ ["images.txt"]:=
                 File (written_text written)]> fs3), [MsgFiltered kept].
      split; [|split].
      + intros k con.
        rewrite (proj2 (exists_true _ _)) by (right; by eexists).
        rewrite bind_assoc, bind_unfold.
        rewrite (filter_images_txt_run fs3 con _ _ content _ written kept).
        * by rewrite bind_print.
        * by rewrite Hsrc3 by apply sparse_dir_source.
        * intros Heq.
          apply (ds_apart_below _ _ _ Hds
                   (sparse_dir fs0 args ++ ["images.txt"]));
            [apply sparse_dir_source|].
          rewrite Heq, <- (assoc_L (++)). by eexists.
        * apply not_true_is_false.
          intros [Hnil|?]%is_dir_true; [|by eapply Hnodir3].
          by apply app_eq_nil in Hnil as [_ ?].
        * rewrite parent_snoc. apply is_dir_true. by right.
        * done.
      + split; [|split].
        * intros q Hq. rewrite lookup_insert_ne; [by apply Hsrc3|].
          intros <-.
          apply (ds_apart_below _ _ _ Hds (out_sparse args ++ ["images.txt"]));
            [done|]. rewrite <- (assoc_L (++)). by eexists.
        * rewrite lookup_insert_ne; [done|apply out_sparse_file_ne].
        * intros f. destruct (decide (f = "images.txt")) as [->|Hne].
          -- by rewrite lookup_insert_eq.
          -- rewrite lookup_insert_ne; [apply Hnodir3|].
             intros Heq%app_inv_head. congruence.
      + by exists written, kept.
    - exists fs3,
        (if Fs.exists_ fs0 (sparse_dir fs0 args ++ ["images.bin"])
         then [WarnImagesBin; WarnRerunColmap] else []).
      split; [|done].
      intros k con.
      assert (Fs.exists_ fs0 (sparse_dir fs0 args ++ ["images.txt"]) = false)
        as ->.
      { apply not_true_is_false. intros [Hnil|[? ?]]%exists_true; [|congruence].
        by apply app_eq_nil in Hnil as [_ ?]. }
      rewrite bind_assoc, bind_ask. cbv beta; cbn [w_fs w_console].
      rewrite (exists_source fs0 args fs3)
        by (done || apply sparse_dir_source).
      destruct (Fs.exists_ fs0 (sparse_dir fs0 args ++ ["images.bin"])).
      + rewrite bind_assoc, !bind_print. cbn [w_fs w_console].
        by rewrite <- (assoc_L (++)).
      + rewrite bind_unfold. cbn [mret M_ret]. by rewrite app_nil_r. }
  rewrite Hpose.
  destruct (copy_points_exact _ _ _ Hds points_files fs4
              ((console ++ [MsgProcessing (sparse_dir fs0 args)]) ++ cam ++ pose)
              Hframe4)
    as (fs' & pts & Hpts & Hframe' & Hpts_msgs & Hpts_same & Hpts_copied).
  { apply Forall_forall. intros f Hf. apply aux_in. by right. }
  unfold copy_points. rewrite bind_unfold.
  unfold points_files in Hpts. rewrite <- (assoc_L (++)) in Hpts.
  rewrite <- !(assoc_L (++)). rewrite Hpts.
  rewrite decide_False by done. rewrite (bind_lift_ok _ _ ()) by done.
  unfold print. cbn [w_fs w_console].
  exists fs3, fs4, fs', cam, pose, pts.
  split; [by rewrite <- !(assoc_L (++))|].
  replace (output args ++ ["sparse"; "0"; "images.txt"])
    with (out_sparse args ++ ["images.txt"]) by by rewrite <- (assoc_L (++)).
  done.
Qed.

Lemma out_sparse_file_inj (f g : string) :
  out_sparse args ++ [f] = out_sparse args ++ [g] → f = g.
Proof. intros Heq%app_inv_head. by injection Heq. Qed.

(** What the run on the reconstruction leaves, file by file. *)
Lemma process_colmap_result fs2 console :
  aux_frame fs0 args fs2 →
  (∀ r, r ≠ [] → fs2 !! (out_sparse args ++ r) = None) →
  Fs.exists_ fs0 (sparse_dir fs0 args) = true →
  fs0 !! (sparse_dir fs0 args ++ ["images.txt"]) ≠ Some Dir →
  ∃ fs' cam pose pts,
    process_colmap args rel names (World fs2 console)
    = (Done (),
       World fs'
         (console ++ MsgProcessing (sparse_dir fs0 args) :: cam ++ pose ++ pts
          ++ [MsgSummary (output args) (size rel) (keep_every args)]))
    ∧ Forall is_copied cam ∧ Forall is_copied pts
    ∧ (∀ q, (∀ f, f ∈ camera_files ++ "images.txt" :: points_files →
                  q ≠ out_sparse args ++ [f]) → fs' !! q = fs2 !! q)
    ∧ fs' !! (out_sparse args ++ ["cameras.txt"])
      = fs0 !! (sparse_dir fs0 args ++ ["cameras.txt"])
    ∧ fs' !! (out_sparse args ++ ["cameras.bin"])
      = (if Fs.exists_ fs0 (sparse_dir fs0 args ++ ["cameras.txt"])
         then None else fs0 !! (sparse_dir fs0 args ++ ["cameras.bin"]))
    ∧ (∀ f, f ∈ points_files →
         fs' !! (out_sparse args ++ [f]) = fs0 !! (sparse_dir fs0 args ++ [f]))
    ∧ match fs0 !! (sparse_dir fs0 args ++ ["images.txt"]) with
      | Some (File content) =>
          ∃ written kept,
            filter_lines (readlines content) (rel ∪ names) = Ok (written, kept)
            ∧ pose = [MsgFiltered kept]
            ∧ fs' !! (out_sparse args ++ ["images.txt"])
              = Some (File (written_text written))
      | _ =>
          pose = (if Fs.exists_ fs0 (sparse_dir fs0 args ++ ["images.bin"])
                  then [WarnImagesBin; WarnRerunColmap] else [])
          ∧ fs' !! (out_sparse args ++ ["images.txt"]) = None
      end.
Proof.
  intros Hframe Hempty Hsparse Htxt.
  destruct (process_colmap_run fs2 console Hframe Hsparse Htxt)
    as (fs3 & fs4 & fs' & cam & pose & pts & Hrun & Hcam & Hpts
        & Hcameras & Hpose & Hsame & Hpoints).
  exists fs', cam, pose, pts. do 3 (split; [done|]).
  assert (∀ f, fs2 !! (out_sparse args ++ [f]) = None) as Hnone
    by (intros f; by apply Hempty).
  assert (∀ f, fs0 !! (sparse_dir fs0 args ++ [f]) = None →
               Fs.exists_ fs0 (sparse_dir fs0 args ++ [f]) = false) as Hnex.
  { intros f Hf. apply not_true_is_false.
    intros [Hnil|[? ?]]%exists_true; [|congruence].
    by apply app_eq_nil in Hnil as [_ ?]. }
  assert (∀ f n, fs0 !! (sparse_dir fs0 args ++ [f]) = Some n →
                 Fs.exists_ fs0 (sparse_dir fs0 args ++ [f]) = true) as Hex.
  { intros f n Hf. apply exists_true. right. by eexists. }
  (* the file system after the pose file, key by key *)
  assert (∀ q, q ≠ out_sparse args ++ ["images.txt"] → fs4 !! q = fs3 !! q)
    as H43.
  { intros q Hq.
    destruct (fs0 !! (sparse_dir fs0 args ++ ["images.txt"])) as [[c|]|].
    - destruct Hpose as (written & kept & _ & _ & ->).
      by rewrite lookup_insert_ne.
    - by destruct Hpose as [_ ->].
    - by destruct Hpose as [_ ->]. }
  assert (∀ f, f ∉ points_files →
            fs' !! (out_sparse args ++ [f]) = fs4 !! (out_sparse args ++ [f]))
    as Hrest.
  { intros f Hf. apply Hsame. intros g Hg ->%out_sparse_file_inj. done. }
  split; [|split; [|split; [|split]]].
  - intros q Hq.
    rewrite Hsame
      by (intros f Hf; apply Hq; rewrite elem_of_app, elem_of_cons; auto).
    rewrite H43 by (apply Hq; rewrite elem_of_app, elem_of_cons; auto).
    destruct Hcameras as [(_ & -> & _)|(before & f & after & content
                            & Hnames & _ & _ & -> & _)]; [done|].
    rewrite lookup_insert_ne; [done|]. intros <-. apply (Hq f); [|done].
    rewrite elem_of_app. left. rewrite Hnames, elem_of_app, elem_of_cons. auto.
  - rewrite Hrest by solve_notin.
    rewrite H43 by (by intros ?%out_sparse_file_inj).
    destruct Hcameras as [(Hall & -> & _)|(before & f & after & content
                            & Hnames & Hbefore & Hf & -> & _)].
    + apply Forall_cons in Hall as [-> _]. apply Hnone.
    + destruct before as [|b before]; injection Hnames as <- Hnames.
      * by rewrite lookup_insert_eq.
      * apply Forall_cons in Hbefore as [-> _].
        rewrite lookup_insert_ne; [apply Hnone|].
        destruct before; injection Hnames as <- Hnames;
          [by intros ?%out_sparse_file_inj|]. by destruct before.
  - rewrite Hrest by solve_notin.
    rewrite H43 by (by intros ?%out_sparse_file_inj).
    destruct Hcameras as [(Hall & -> & _)|(before & f & after & content
                            & Hnames & Hbefore & Hf & -> & _)].
    + apply Forall_cons in Hall as [Htxt0 [Hbin0 _]%Forall_cons].
      rewrite (Hnex _ Htxt0), Hbin0. apply Hnone.
    + destruct before as [|b before]; injection Hnames as <- Hnames.
      * rewrite (Hex _ _ Hf).
        rewrite lookup_insert_ne; [apply Hnone|].
        by intros ?%out_sparse_file_inj.
      * apply Forall_cons in Hbefore as [Htxt0 _]. rewrite (Hnex _ Htxt0).
        destruct before; injection Hnames as <- Hnames;
          [|by destruct before].
        by rewrite lookup_insert_eq.
  - intros f Hf. rewrite (Hpoints f Hf).
    destruct (fs0 !! (sparse_dir fs0 args ++ [f])) eqn:Hf0; [done|].
    rewrite H43.
    2:{ intros ->%out_sparse_file_inj. revert Hf. solve_notin. }
    destruct Hcameras as [(_ & -> & _)|(before & g & after & content
                            & _ & _ & Hg & -> & _)]; [apply Hnone|].
    rewrite lookup_insert_ne; [apply Hnone|].
    intros ->%out_sparse_file_inj. congruence.
  - destruct (fs0 !! (sparse_dir fs0 args ++ ["images.txt"])) as [[c|]|].
    + destruct Hpose as (written & kept & Hlines & -> & ->).
      exists written, kept. split; [done|]. split; [done|].
      rewrite Hrest by solve_notin.
      by rewrite lookup_insert_eq.
    + done.
    + destruct Hpose as [-> ->]. split; [done|].
      rewrite Hrest by solve_notin.
      destruct Hcameras as [(_ & -> & _)|(before & g & after & content
                              & Hnames & _ & _ & -> & _)]; [apply Hnone|].
      rewrite lookup_insert_ne; [apply Hnone|].
      intros ->%out_sparse_file_inj.
      destruct before as [|? [|? [|? ?]]]; by injection Hnames.
Qed.

End sparse_run.

(** ** From the copy of the images to the reconstruction *)

Section whole_run.
Context (scan_order : list path → list path) (fs0 : gmap path node)
  (args : Args) (Hds : dataset scan_order fs0 args)
  (Hstride : keep_every args ≠ 0%Z).

Abbreviation image_files := (find_images scan_order fs0 (src_images args)).

Lemma out_images_sparse_apart r k :
  out_images args ++ r ≠ out_sparse args ++ k.
Proof.
  rewrite <- !(assoc_L (++)). intros Heq%app_inv_head. simpl in Heq.
  by injection Heq.
Qed.

Lemma out_sparse_not_above_images k :
  ¬ out_sparse args ++ k `prefix_of` out_images args.
Proof.
  intros [j Hj]. apply (out_images_sparse_apart [] (k ++ j)).
  by rewrite app_nil_r, Hj, (assoc_L (++)).
Qed.

(** The state in which the reconstruction is processed. *)
Lemma main_to_colmap console :
  ∃ selected_shots rel names fs2,
    select_shots (Dict.keys (group_by_shot image_files))
      (offset args) (keep_every args) = Ok selected_shots
    ∧ selected_images (src_images args) (group_by_shot image_files)
        selected_shots = Ok (rel, names)
    ∧ (∀ x, x ∈ rel ↔ ∃ p, p ∈ image_files ∧ shot_of p ∈ selected_shots
                           ∧ x = rel_str (src_images args) p)
    ∧ (∀ x, x ∈ names ↔ ∃ p, p ∈ image_files ∧ shot_of p ∈ selected_shots
                             ∧ x = Path.name p)
    ∧ main scan_order args (World fs0 console)
      = process_colmap args rel names
          (World fs2
             (console ++ copy_report args image_files selected_shots rel))
    ∧ aux_frame fs0 args fs2
    ∧ (∀ r, r ≠ [] → fs2 !! (out_sparse args ++ r) = None)
    ∧ (∀ r content, fs2 !! (out_images args ++ r) = Some (File content) →
         ∃ p, p ∈ image_files ∧ shot_of p ∈ selected_shots
              ∧ p = src_images args ++ r)
    ∧ (∀ p, p ∈ image_files → shot_of p ∈ selected_shots →
         fs2 !! (out_images args ++ drop (length (src_images args)) p)
         = fs0 !! p).
Proof.
  destruct (main_copy_phase scan_order fs0 args Hds Hstride console)
    as (selected_shots & rel & names & fs2 & Hsel & Himgs & Hrel & Hnames
        & Hmain & Hout & Hfiles & Hcopied).
  exists selected_shots, rel, names, fs2.
  do 5 (split; [done|]).
  destruct (ds_fresh _ _ _ Hds) as (_ & Hnone & _).
  assert (∀ k, ¬ out_images args `prefix_of` out_sparse args ++ k) as Hnot.
  { intros k [j Hj]. symmetry in Hj.
    by apply out_images_sparse_apart in Hj. }
  split; [split; [|split]|split; [|split]].
  - intros q Hq. rewrite Hout.
    + rewrite decide_False; [done|].
      intros [_ [Hpre|Hpre]]; by eapply (ds_apart _ _ _ Hds).
    + intros Hpre. apply (ds_apart_below _ _ _ Hds q); [done|].
      etrans; [|done]. by eexists.
  - rewrite <- (app_nil_r (out_sparse args)), Hout by apply Hnot.
    rewrite app_nil_r, decide_True; [done|]. split; [|by right].
    intros [_ ?]%app_eq_nil. done.
  - intros f. rewrite Hout by apply Hnot. rewrite decide_False.
    + rewrite Hnone; [done|]. rewrite <- (assoc_L (++)). by eexists.
    + intros [_ [Hpre|Hpre]].
      * by apply out_sparse_not_above_images in Hpre.
      * apply prefix_length in Hpre. rewrite length_app in Hpre.
        simpl in Hpre. lia.
  - intros r Hr. rewrite Hout by apply Hnot. rewrite decide_False.
    + rewrite Hnone; [done|]. rewrite <- (assoc_L (++)). by eexists.
    + intros [_ [Hpre|Hpre]].
      * by apply out_sparse_not_above_images in Hpre.
      * apply prefix_length in Hpre. rewrite length_app in Hpre.
        destruct r; simpl in *; [done|lia].
  - intros r content Hfile. destruct (Hfiles r content Hfile) as [Hr Hsrc].
    apply Hrel in Hr as (p & Hp & Hshot & Heq).
    exists p. split; [done|]. split; [done|].
    destruct (ds_image_file _ _ _ Hds p Hp) as (r' & _ & -> & _ & _ & Hwf').
    f_equal. unfold rel_str in Heq. rewrite drop_app_length in Heq.
    assert (Forall wf_part r) as Hwf.
    { destruct (ds_tree _ _ _ Hds _ _ Hsrc) as [Hall _].
      by apply Forall_app in Hall as [_ ?]. }
    apply (f_equal Path.parse) in Heq. by rewrite !parse_str in Heq.
  - intros p Hp Hshot. apply Hcopied; [done|]. apply Hrel. by exists p.
Qed.

End whole_run.

(** ** What a run of [main] leaves *)

(** A dataset, from conditions that can be computed. *)
Lemma dataset_intro (scan_order : list path → list path)
    (fs : gmap path node) (args : Args) :
  (∀ l, scan_order l ≡ₚ l) →
  map_Forall (λ p _, Forall wf_part p ∧ Fs.is_dir fs (Path.parent p) = true) fs →
  Forall wf_part (output args) →
  map_Forall (λ p n, ¬ output args `prefix_of` p
                     ∧ (p `prefix_of` output args → n = Dir)) fs →
  ¬ source args `prefix_of` output args →
  find_images scan_order fs (source args ++ ["images"]) ≠ [] →
  forallb (λ p, if fs !! p is Some (File _) then true else false)
    (find_images scan_order fs (source args ++ ["images"])) = true →
  Forall (λ f, fs !! (sparse_dir fs args ++ [f]) ≠ Some Dir) aux_files →
  dataset scan_order fs args.
Proof.
  intros Hscan Htree Hwf Hfresh Hout Himgs Hfiles Haux.
  split; try done.
  - split; [done|]. split.
    + intros p Hp. destruct (fs !! p) as [n|] eqn:Hn; [|done].
      by destruct (Hfresh p n Hn) as [? _].
    + intros p content Hp Hn. destruct (Hfresh p _ Hn) as [_ Hdir].
      by specialize (Hdir Hp).
  - intros p Hp. rewrite forallb_forall in Hfiles.
    apply list_elem_of_In in Hp. apply Hfiles in Hp.
    destruct (fs !! p) as [[content|]|]; [by eexists|done..].
  - by apply Forall_forall.
Qed.

Lemma example_dataset_txt k o : dataset id Example.fs_txt (Example.args k o).
Proof.
  apply dataset_intro;
    [done|solve_decide|solve_decide|solve_decide|solve_decide| | |solve_decide].
  - by vm_compute.
  - by vm_compute.
Qed.

Lemma example_dataset_bin k o : dataset id Example.fs_bin (Example.args k o).
Proof.
  apply dataset_intro;
    [done|solve_decide|solve_decide|solve_decide|solve_decide| | |solve_decide].
  - by vm_compute.
  - by vm_compute.
Qed.

Lemma example_dataset_images k o :
  dataset id Example.fs_images (Example.args k o).
Proof.
  apply dataset_intro;
    [done|solve_decide|solve_decide|solve_decide|solve_decide| | |solve_decide].
  - by vm_compute.
  - by vm_compute.
Qed.

Section run_theorems.
Context (scan_order : list path → list path) (fs0 : gmap path node)
  (args : Args).

Abbreviation image_files := (find_images scan_order fs0 (src_images args)).

Lemma sparse_dir_exists f n :
  dataset scan_order fs0 args →
  fs0 !! (sparse_dir fs0 args ++ [f]) = Some n →
  Fs.exists_ fs0 (sparse_dir fs0 args) = true.
Proof.
  intros Hds Hn. apply exists_true. right. exists Dir.
  eapply tree_above; [apply Hds|done| |done].
  intros Hnil.
  pose proof (sparse_dir_source fs0 args []) as Hpre.
  rewrite app_nil_r, Hnil in Hpre. apply prefix_nil_inv in Hpre.
  by apply (ds_source_ne _ _ _ Hds).
Qed.

(** X17: on a dataset, a run with a stride other than 0 ends normally;
    every image of every selected shot is then in the output images under
    its path relative to the source images, with the same content; no other
    file is in the output images; and the source is as it was. *)
Theorem main_copies_selected_images console :
  dataset scan_order fs0 args → keep_every args ≠ 0%Z →
  fs0 !! (sparse_dir fs0 args ++ ["images.txt"]) ≠ Some Dir →
  ∃ selected_shots fs' console',
    select_shots (Dict.keys (group_by_shot image_files))
      (offset args) (keep_every args) = Ok selected_shots
    ∧ main scan_order args (World fs0 console) = (Done (), World fs' console')
    ∧ (∀ r, src_images args ++ r ∈ image_files →
         shot_of (src_images args ++ r) ∈ selected_shots →
         fs' !! (out_images args ++ r) = fs0 !! (src_images args ++ r))
    ∧ (∀ r content, fs' !! (out_images args ++ r) = Some (File content) →
         src_images args ++ r ∈ image_files
         ∧ shot_of (src_images args ++ r) ∈ selected_shots)
    ∧ (∀ q, source args `prefix_of` q → fs' !! q = fs0 !! q).
Proof.
  intros Hds Hstride Htxt.
  destruct (main_to_colmap scan_order fs0 args Hds Hstride console)
    as (selected_shots & rel & names & fs2 & Hsel & _ & _ & _ & Hmain
        & Hframe & Hempty & Hfiles & Hcopied).
  assert (∃ fs' console',
    process_colmap args rel names
      (World fs2 (console ++ copy_report args image_files selected_shots rel))
    = (Done (), World fs' console')
    ∧ ∀ q, (∀ f, q ≠ out_sparse args ++ [f]) → fs' !! q = fs2 !! q)
    as (fs' & console' & Hrun & Hsame).
  { destruct (Fs.exists_ fs0 (sparse_dir fs0 args)) eqn:Hsparse.
    - destruct (process_colmap_result scan_order fs0 args Hds Hstride rel names
                  fs2 (console ++ copy_report args image_files selected_shots rel)
                  Hframe Hempty Hsparse Htxt)
        as (fs' & cam & pose & pts & Hrun & _ & _ & Hsame & _).
      eexists _, _. split; [done|]. intros q Hq. apply Hsame. by intros f _.
    - rewrite (process_colmap_no_sparse fs0 args rel names) by done.
      by eexists _, _. }
  exists selected_shots, fs', console'.
  split; [done|]. split; [by rewrite Hmain|].
  split; [|split].
  - intros r Hp Hshot.
    rewrite Hsame by (intros f; apply out_images_sparse_apart).
    rewrite <- (Hcopied _ Hp Hshot). by rewrite drop_app_length.
  - intros r content.
    rewrite Hsame by (intros f; apply out_images_sparse_apart).
    intros (p & Hp & Hshot & ->)%Hfiles. done.
  - intros q Hq. destruct Hframe as (Hsrc & _). rewrite Hsame; [by apply Hsrc|].
    intros f ->. apply (ds_apart_below _ _ _ Hds (out_sparse args ++ [f]));
      [done|]. rewrite <- (assoc_L (++)). by eexists.
Qed.

(** X18: where the reconstruction has a text pose file, the run writes the
    output pose file as the lines [filter_lines] keeps of it, for the set of
    the relative paths and the bare names of the images of the selected
    shots, and reports the number of kept entries between the messages of
    the cameras and of the points. *)
Theorem main_filters_text_pose_file console content :
  dataset scan_order fs0 args → keep_every args ≠ 0%Z →
  fs0 !! (sparse_dir fs0 args ++ ["images.txt"]) = Some (File content) →
  ∃ selected_shots rel names written kept fs' cam pts,
    select_shots (Dict.keys (group_by_shot image_files))
      (offset args) (keep_every args) = Ok selected_shots
    ∧ (∀ x, x ∈ rel ∪ names ↔
         ∃ p, p ∈ image_files ∧ shot_of p ∈ selected_shots
              ∧ (x = rel_str (src_images args) p ∨ x = Path.name p))
    ∧ filter_lines (readlines content) (rel ∪ names) = Ok (written, kept)
    ∧ main scan_order args (World fs0 console)
      = (Done (),
         World fs'
           (console ++ copy_report args image_files selected_shots rel
            ++ MsgProcessing (sparse_dir fs0 args) :: cam
            ++ [MsgFiltered kept] ++ pts
            ++ [MsgSummary (output args) (size rel) (keep_every args)]))
    ∧ Forall is_copied cam ∧ Forall is_copied pts
    ∧ fs' !! (out_sparse args ++ ["images.txt"])
      = Some (File (written_text written)).
Proof.
  intros Hds Hstride Htxt.
  destruct (main_to_colmap scan_order fs0 args Hds Hstride console)
    as (selected_shots & rel & names & fs2 & Hsel & _ & Hrel & Hnames & Hmain
        & Hframe & Hempty & _).
  destruct (process_colmap_result scan_order fs0 args Hds Hstride rel names
              fs2 (console ++ copy_report args image_files selected_shots rel)
              Hframe Hempty)
    as (fs' & cam & pose & pts & Hrun & Hcam & Hpts & _ & _ & _ & _ & Hpose).
  { by eapply sparse_dir_exists. }
  { by rewrite Htxt. }
  rewrite Htxt in Hpose. destruct Hpose as (written & kept & Hlines & -> & Hout).
  exists selected_shots, rel, names, written, kept, fs', cam, pts.
  split; [done|]. split.
  { intros x. rewrite elem_of_union, Hrel, Hnames. split.
    - intros [(p & ? & ? & ?)|(p & ? & ? & ?)]; exists p; auto.
    - intros (p & ? & ? & [?|?]); [left|right]; by exists p. }
  split; [done|]. split; [|done].
  rewrite Hmain, Hrun. by rewrite <- !(assoc_L (++)).
Qed.

(** X19: where the reconstruction has no text pose file, the run writes no
    pose file, neither text nor binary; it warns about the binary one
    exactly when there is one, between the messages of the cameras and of
    the points, and ends normally. *)
Theorem main_without_text_pose_file console :
  dataset scan_order fs0 args → keep_every args ≠ 0%Z →
  Fs.exists_ fs0 (sparse_dir fs0 args) = true →
  fs0 !! (sparse_dir fs0 args ++ ["images.txt"]) = None →
  ∃ selected_shots rel names fs' cam pts,
    select_shots (Dict.keys (group_by_shot image_files))
      (offset args) (keep_every args) = Ok selected_shots
    ∧ selected_images (src_images args) (group_by_shot image_files)
        selected_shots = Ok (rel, names)
    ∧ main scan_order args (World fs0 console)
      = (Done (),
         World fs'
           (console ++ copy_report args image_files selected_shots rel
            ++ MsgProcessing (sparse_dir fs0 args) :: cam
            ++ (if Fs.exists_ fs0 (sparse_dir fs0 args ++ ["images.bin"])
                then [WarnImagesBin; WarnRerunColmap] else [])
            ++ pts
            ++ [MsgSummary (output args) (size rel) (keep_every args)]))
    ∧ Forall is_copied cam ∧ Forall is_copied pts
    ∧ fs' !! (out_sparse args ++ ["images.txt"]) = None
    ∧ fs' !! (out_sparse args ++ ["images.bin"]) = None.
Proof.
  intros Hds Hstride Hsparse Htxt.
  destruct (main_to_colmap scan_order fs0 args Hds Hstride console)
    as (selected_shots & rel & names & fs2 & Hsel & Himgs & _ & _ & Hmain
        & Hframe & Hempty & _).
  destruct (process_colmap_result scan_order fs0 args Hds Hstride rel names
              fs2 (console ++ copy_report args image_files selected_shots rel)
              Hframe Hempty Hsparse)
    as (fs' & cam & pose & pts & Hrun & Hcam & Hpts & Hsame & _ & _ & _
        & Hpose).
  { by rewrite Htxt. }
  rewrite Htxt in Hpose. destruct Hpose as [-> Hout].
  exists selected_shots, rel, names, fs', cam, pts.
  do 2 (split; [done|]). split; [|do 3 (split; [done|])].
  { rewrite Hmain, Hrun. by rewrite <- !(assoc_L (++)). }
  rewrite Hsame; [by apply Hempty|].
  intros f Hf <-%out_sparse_file_inj. revert Hf.
  unfold camera_files, points_files. simpl app. solve_notin.
Qed.

(** X20: with a reconstruction, the run copies [cameras.txt] if there is
    one and then leaves [cameras.bin] out, copies [cameras.bin] otherwise if
    there is one, and copies each of the three point files that exist; the
    output of the reconstruction holds nothing but these and the pose
    file. *)
Theorem main_auxiliary_files console :
  dataset scan_order fs0 args → keep_every args ≠ 0%Z →
  Fs.exists_ fs0 (sparse_dir fs0 args) = true →
  fs0 !! (sparse_dir fs0 args ++ ["images.txt"]) ≠ Some Dir →
  ∃ fs' console',
    main scan_order args (World fs0 console) = (Done (), World fs' console')
    ∧ fs' !! (out_sparse args ++ ["cameras.txt"])
      = fs0 !! (sparse_dir fs0 args ++ ["cameras.txt"])
    ∧ fs' !! (out_sparse args ++ ["cameras.bin"])
      = (if Fs.exists_ fs0 (sparse_dir fs0 args ++ ["cameras.txt"])
         then None else fs0 !! (sparse_dir fs0 args ++ ["cameras.bin"]))
    ∧ (∀ f, f ∈ points_files →
         fs' !! (out_sparse args ++ [f]) = fs0 !! (sparse_dir fs0 args ++ [f]))
    ∧ (∀ r, r ≠ [] →
         (∀ f, f ∈ camera_files ++ "images.txt" :: points_files → r ≠ [f]) →
         fs' !! (out_sparse args ++ r) = None).
Proof.
  intros Hds Hstride Hsparse Htxt.
  destruct (main_to_colmap scan_order fs0 args Hds Hstride console)
    as (selected_shots & rel & names & fs2 & _ & _ & _ & _ & Hmain
        & Hframe & Hempty & _).
  destruct (process_colmap_result scan_order fs0 args Hds Hstride rel names
              fs2 (console ++ copy_report args image_files selected_shots rel)
              Hframe Hempty Hsparse Htxt)
    as (fs' & cam & pose & pts & Hrun & _ & _ & Hsame & Hcamtxt & Hcambin
        & Hpoints & _).
  eexists fs', _. split; [by rewrite Hmain, Hrun|].
  do 3 (split; [done|]).
  intros r Hr Hother. rewrite Hsame; [by apply Hempty|].
  intros f Hf Heq%app_inv_head. by apply (Hother f).
Qed.

Lemma no_sparse_dir :
  dataset scan_order fs0 args →
  Fs.exists_ fs0 (source args ++ ["sparse"]) = false →
  sparse_dir fs0 args = source args ++ ["sparse"].
Proof.
  intros Hds Hnone. unfold sparse_dir.
  destruct (Fs.exists_ fs0 (source args ++ ["sparse"; "0"])) eqn:Hex; [|done].
  apply exists_true in Hex as [Hnil|[n Hn]].
  { by apply app_eq_nil in Hnil as [_ ?]. }
  assert (fs0 !! (source args ++ ["sparse"]) = Some Dir) as Hdir.
  { apply (tree_above fs0 _ ["0"] n); [apply Hds| | |done].
    - by rewrite <- (assoc_L (++)).
    - intros [_ ?]%app_eq_nil. done. }
  assert (Fs.exists_ fs0 (source args ++ ["sparse"]) = true)
    by (apply exists_true; right; by eexists).
  congruence.
Qed.

(** X21: a source without a [sparse] directory is not an error: the images
    are copied, the run warns that there is no reconstruction, says how to
    make one, and ends normally without the summary; the output directory
    of the reconstruction is made and stays empty. *)
Theorem main_without_reconstruction console :
  dataset scan_order fs0 args → keep_every args ≠ 0%Z →
  Fs.exists_ fs0 (source args ++ ["sparse"]) = false →
  ∃ selected_shots rel names fs',
    select_shots (Dict.keys (group_by_shot image_files))
      (offset args) (keep_every args) = Ok selected_shots
    ∧ selected_images (src_images args) (group_by_shot image_files)
        selected_shots = Ok (rel, names)
    ∧ main scan_order args (World fs0 console)
      = (Done (),
         World fs'
           (console ++ copy_report args image_files selected_shots rel
            ++ [WarnNoSparse (source args ++ ["sparse"]); MsgNeedColmap;
                MsgConvertCommand (output args)]))
    ∧ fs' !! out_sparse args = Some Dir
    ∧ (∀ r, r ≠ [] → fs' !! (out_sparse args ++ r) = None).
Proof.
  intros Hds Hstride Hnone.
  destruct (main_to_colmap scan_order fs0 args Hds Hstride console)
    as (selected_shots & rel & names & fs2 & Hsel & Himgs & _ & _ & Hmain
        & Hframe & Hempty & _).
  exists selected_shots, rel, names, fs2. do 2 (split; [done|]).
  split; [|split; [apply Hframe|done]].
  rewrite Hmain, (process_colmap_no_sparse fs0 args rel names); [| done |].
  - by rewrite <- !(assoc_L (++)).
  - by rewrite no_sparse_dir.
Qed.

End run_theorems.

Lemma main_copies_selected_images_witness :
  ∃ selected_shots fs' console',
    select_shots
      (Dict.keys (group_by_shot
         (find_images id Example.fs_txt (src_images (Example.args 2 0)))))
      (offset (Example.args 2 0)) (keep_every (Example.args 2 0))
    = Ok selected_shots
    ∧ main id (Example.args 2 0) (World Example.fs_txt [])
      = (Done (), World fs' console')
    ∧ (∀ r, src_images (Example.args 2 0) ++ r
              ∈ find_images id Example.fs_txt (src_images (Example.args 2 0)) →
         shot_of (src_images (Example.args 2 0) ++ r) ∈ selected_shots →
         fs' !! (out_images (Example.args 2 0) ++ r)
         = Example.fs_txt !! (src_images (Example.args 2 0) ++ r))
    ∧ (∀ r content,
         fs' !! (out_images (Example.args 2 0) ++ r) = Some (File content) →
         src_images (Example.args 2 0) ++ r
           ∈ find_images id Example.fs_txt (src_images (Example.args 2 0))
         ∧ shot_of (src_images (Example.args 2 0) ++ r) ∈ selected_shots)
    ∧ (∀ q, source (Example.args 2 0) `prefix_of` q →
         fs' !! q = Example.fs_txt !! q).
Proof.
  apply (main_copies_selected_images id Example.fs_txt (Example.args 2 0) []).
  - apply example_dataset_txt.
  - done.
  - by vm_compute.
Defined.

Lemma main_filters_text_pose_file_witness :
  ∃ selected_shots rel names written kept fs' cam pts,
    select_shots
      (Dict.keys (group_by_shot
         (find_images id Example.fs_txt (src_images (Example.args 2 0)))))
      (offset (Example.args 2 0)) (keep_every (Example.args 2 0))
    = Ok selected_shots
    ∧ (∀ x, x ∈ rel ∪ names ↔
         ∃ p, p ∈ find_images id Example.fs_txt (src_images (Example.args 2 0))
              ∧ shot_of p ∈ selected_shots
              ∧ (x = rel_str (src_images (Example.args 2 0)) p
                 ∨ x = Path.name p))
    ∧ filter_lines (readlines Example.images_txt) (rel ∪ names)
      = Ok (written, kept)
    ∧ main id (Example.args 2 0) (World Example.fs_txt [])
      = (Done (),
         World fs'
           ([] ++ copy_report (Example.args 2 0)
                    (find_images id Example.fs_txt
                       (src_images (Example.args 2 0)))
                    selected_shots rel
            ++ MsgProcessing (sparse_dir Example.fs_txt (Example.args 2 0))
               :: cam
            ++ [MsgFiltered kept] ++ pts
            ++ [MsgSummary (output (Example.args 2 0)) (size rel)
                  (keep_every (Example.args 2 0))]))
    ∧ Forall is_copied cam ∧ Forall is_copied pts
    ∧ fs' !! (out_sparse (Example.args 2 0) ++ ["images.txt"])
      = Some (File (written_text written)).
Proof.
  apply (main_filters_text_pose_file id Example.fs_txt (Example.args 2 0) []).
  - apply example_dataset_txt.
  - done.
  - by vm_compute.
Defined.

Lemma main_without_text_pose_file_witness :
  ∃ selected_shots rel names fs' cam pts,
    select_shots
      (Dict.keys (group_by_shot
         (find_images id Example.fs_bin (src_images (Example.args 2 0)))))
      (offset (Example.args 2 0)) (keep_every (Example.args 2 0))
    = Ok selected_shots
    ∧ selected_images (src_images (Example.args 2 0))
        (group_by_shot
           (find_images id Example.fs_bin (src_images (Example.args 2 0))))
        selected_shots = Ok (rel, names)
    ∧ main id (Example.args 2 0) (World Example.fs_bin [])
      = (Done (),
         World fs'
           ([] ++ copy_report (Example.args 2 0)
                    (find_images id Example.fs_bin
                       (src_images (Example.args 2 0)))
                    selected_shots rel
            ++ MsgProcessing (sparse_dir Example.fs_bin (Example.args 2 0))
               :: cam
            ++ (if Fs.exists_ Example.fs_bin
                     (sparse_dir Example.fs_bin (Example.args 2 0)
                      ++ ["images.bin"])
                then [WarnImagesBin; WarnRerunColmap] else [])
            ++ pts
            ++ [MsgSummary (output (Example.args 2 0)) (size rel)
                  (keep_every (Example.args 2 0))]))
    ∧ Forall is_copied cam ∧ Forall is_copied pts
    ∧ fs' !! (out_sparse (Example.args 2 0) ++ ["images.txt"]) = None
    ∧ fs' !! (out_sparse (Example.args 2 0) ++ ["images.bin"]) = None.
Proof.
  apply (main_without_text_pose_file id Example.fs_bin (Example.args 2 0) []).
  - apply example_dataset_bin.
  - done.
  - by vm_compute.
  - by vm_compute.
Defined.

Lemma main_auxiliary_files_witness :
  ∃ fs' console',
    main id (Example.args 2 0) (World Example.fs_txt [])
    = (Done (), World fs' console')
    ∧ fs' !! (out_sparse (Example.args 2 0) ++ ["cameras.txt"])
      = Example.fs_txt
        !! (sparse_dir Example.fs_txt (Example.args 2 0) ++ ["cameras.txt"])
    ∧ fs' !! (out_sparse (Example.args 2 0) ++ ["cameras.bin"])
      = (if Fs.exists_ Example.fs_txt
              (sparse_dir Example.fs_txt (Example.args 2 0) ++ ["cameras.txt"])
         then None
         else Example.fs_txt
              !! (sparse_dir Example.fs_txt (Example.args 2 0)
                  ++ ["cameras.bin"]))
    ∧ (∀ f, f ∈ points_files →
         fs' !! (out_sparse (Example.args 2 0) ++ [f])
         = Example.fs_txt
           !! (sparse_dir Example.fs_txt (Example.args 2 0) ++ [f]))
    ∧ (∀ r, r ≠ [] →
         (∀ f, f ∈ camera_files ++ "images.txt" :: points_files → r ≠ [f]) →
         fs' !! (out_sparse (Example.args 2 0) ++ r) = None).
Proof.
  apply (main_auxiliary_files id Example.fs_txt (Example.args 2 0) []).
  - apply example_dataset_txt.
  - done.
  - by vm_compute.
  - by vm_compute.
Defined.

Lemma main_without_reconstruction_witness :
  ∃ selected_shots rel names fs',
    select_shots
      (Dict.keys (group_by_shot
         (find_images id Example.fs_images
            (src_images (Example.args 2 0)))))
      (offset (Example.args 2 0)) (keep_every (Example.args 2 0))
    = Ok selected_shots
    ∧ selected_images (src_images (Example.args 2 0))
        (group_by_shot
           (find_images id Example.fs_images
              (src_images (Example.args 2 0))))
        selected_shots = Ok (rel, names)
    ∧ main id (Example.args 2 0) (World Example.fs_images [])
      = (Done (),
         World fs'
           ([] ++ copy_report (Example.args 2 0)
                    (find_images id Example.fs_images
                       (src_images (Example.args 2 0)))
                    selected_shots rel
            ++ [WarnNoSparse (source (Example.args 2 0) ++ ["sparse"]);
                MsgNeedColmap; MsgConvertCommand (output (Example.args 2 0))]))
    ∧ fs' !! out_sparse (Example.args 2 0) = Some Dir
    ∧ (∀ r, r ≠ [] → fs' !! (out_sparse (Example.args 2 0) ++ r) = None).
Proof.
  apply (main_without_reconstruction id Example.fs_images
           (Example.args 2 0) []).
  - apply example_dataset_images.
  - done.
  - by vm_compute.
Defined.

(** ** Keeping every shot *)

Lemma example_dataset_kept k o :
  dataset id Example.fs_kept (Example.args k o).
Proof.
  apply dataset_intro;
    [done|solve_decide|solve_decide|solve_decide|solve_decide| | |solve_decide].
  - by vm_compute.
  - by vm_compute.
Qed.

Section keep_all.
Context (scan_order : list path → list path) (fs0 : gmap path node)
  (args : Args).

Abbreviation image_files := (find_images scan_order fs0 (src_images args)).

(** X22: with the offset 0 and the stride 1 nothing is left out. On a
    dataset, every image found is copied to the output images under its
    relative path and nothing else is there; and a text pose file that
    holds no blank line and only entries named by the relative path or the
    bare name of an image found is written to the output as it is. *)
Theorem main_keep_all console content (items : list item) :
  dataset scan_order fs0 args →
  offset args = 0%Z → keep_every args = 1%Z →
  fs0 !! (sparse_dir fs0 args ++ ["images.txt"]) = Some (File content) →
  readlines content = render items →
  Forall wf_item items →
  Forall (λ it, is_comment it
                || retained (list_to_set
                               ((rel_str (src_images args) <$> image_files)
                                ++ (Path.name <$> image_files))) it) items →
  ∃ fs' console',
    main scan_order args (World fs0 console) = (Done (), World fs' console')
    ∧ (∀ r, src_images args ++ r ∈ image_files →
         fs' !! (out_images args ++ r) = fs0 !! (src_images args ++ r))
    ∧ (∀ r content', fs' !! (out_images args ++ r) = Some (File content') →
         src_images args ++ r ∈ image_files)
    ∧ fs' !! (out_sparse args ++ ["images.txt"]) = Some (File content).
Proof.
  intros Hds Hoff Hkeep Htxt Hlines Hwf Hall.
  assert (keep_every args ≠ 0%Z) as Hstride by lia.
  destruct (main_to_colmap scan_order fs0 args Hds Hstride console)
    as (selected_shots & rel & names & fs2 & Hsel & _ & Hrel & Hnames & Hmain
        & Hframe & Hempty & Hfiles & Hcopied).
  rewrite Hoff, Hkeep in Hsel. unfold select_shots in Hsel.
  rewrite slice_from_step_positive, slice_positive_every_nth in Hsel by lia.
  rewrite every_nth_from_all in Hsel. injection Hsel as <-.
  assert (∀ p, p ∈ image_files →
            shot_of p ∈ Str.sorted (Dict.keys (group_by_shot image_files)))
    as Hshots.
  { intros p Hp. unfold Str.sorted. rewrite merge_sort_Permutation.
    apply group_by_shot_keys. by exists p. }
  destruct (process_colmap_result scan_order fs0 args Hds Hstride rel names
              fs2 (console ++ copy_report args image_files
                                 (Str.sorted (Dict.keys (group_by_shot image_files)))
                                 rel)
              Hframe Hempty)
    as (fs' & cam & pose & pts & Hrun & _ & _ & Hsame & _ & _ & _ & Hpose).
  { by eapply sparse_dir_exists. }
  { by rewrite Htxt. }
  rewrite Htxt in Hpose. destruct Hpose as (written & kept & Hfl & _ & Hout).
  assert (rel ∪ names
          = list_to_set ((rel_str (src_images args) <$> image_files)
                         ++ (Path.name <$> image_files))) as Hset.
  { apply set_eq. intros x.
    rewrite elem_of_union, Hrel, Hnames, elem_of_list_to_set, elem_of_app.
    rewrite !list_elem_of_fmap. split.
    - intros [(p & ? & ? & ?)|(p & ? & ? & ?)]; [left|right]; by exists p.
    - intros [(p & ? & ?)|(p & ? & ?)]; [left|right]; exists p; auto. }
  rewrite Hset, Hlines, filter_lines_items, filtered_all in Hfl by done.
  injection Hfl as <- <-.
  rewrite <- Hlines, written_text_readlines in Hout.
  eexists fs', _. split; [by rewrite Hmain, Hrun|].
  split; [|split; [|done]].
  - intros r Hp.
    rewrite Hsame by (intros f _; apply out_images_sparse_apart).
    rewrite <- (Hcopied _ Hp (Hshots _ Hp)). by rewrite drop_app_length.
  - intros r content'.
    rewrite Hsame by (intros f _; apply out_images_sparse_apart).
    intros (p & Hp & _ & ->)%Hfiles. done.
Qed.

End keep_all.

Lemma main_keep_all_witness :
  ∃ fs' console',
    main id (Example.args 1 0) (World Example.fs_kept [])
    = (Done (), World fs' console')
    ∧ (∀ r, src_images (Example.args 1 0) ++ r
              ∈ find_images id Example.fs_kept
                  (src_images (Example.args 1 0)) →
         fs' !! (out_images (Example.args 1 0) ++ r)
         = Example.fs_kept !! (src_images (Example.args 1 0) ++ r))
    ∧ (∀ r content',
         fs' !! (out_images (Example.args 1 0) ++ r) = Some (File content') →
         src_images (Example.args 1 0) ++ r
           ∈ find_images id Example.fs_kept
               (src_images (Example.args 1 0)))
    ∧ fs' !! (out_sparse (Example.args 1 0) ++ ["images.txt"])
      = Some (File Example.kept_txt).
Proof.
  apply (main_keep_all id Example.fs_kept (Example.args 1 0) []
           Example.kept_txt (filtered Example.selected Example.items)).
  - apply example_dataset_kept.
  - done.
  - done.
  - by vm_compute.
  - by vm_compute.
  - apply Forall_filter_keep. solve_wf_items.
  - solve_decide.
Defined.
